(** * Lending ledger of the library-management application

    A shallow embedding of the lend / return workflow:

    - the relational schema of migration 001 (tables [books], [members],
      [transactions], [settings], their CHECK / UNIQUE / FOREIGN KEY
      constraints, the triggers [update_book_status_on_lend],
      [update_book_status_on_return], [update_books_updated_at] and the
      views [active_loans], [overdue_loans], [member_statistics]);
    - the data-access class [DatabaseService] (getBookById, createBook,
      updateBook, deleteBook, getMemberById, createMember, updateMember,
      deleteMember, createTransaction, getTransactionById,
      getActiveTransactions, getOverdueTransactions, returnBook,
      getAllSettings);
    - the IPC handlers [transactions:lend], [transactions:return],
      [books:delete], [members:create], [members:update], [members:delete]
      and their helper [isValidEmail];
    - the PIN lock [AuthService] (setup, login, logout, checkAuth,
      changePin, enableAuthentication, disableAuthentication,
      updateAuthSettings, validatePasswordStrength and the lock-out
      helpers);
    - [validateImportData] of the CSV import in [FileService].

    Conventions of the model.

    - A table is a finite map from the integer primary key to the row.
    - The clock is an instant in milliseconds since the epoch (what
      [new Date()] and SQLite's ['now'] read), in a UTC timezone without
      daylight-saving shifts.  [CURRENT_TIMESTAMP] columns hold that instant
      (SQLite keeps its whole seconds).
    - A due date is stored as the text [yyyy-MM-dd], the form the lend
      handler computes; it is modelled by its day number (days since the
      epoch).  A caller's due date is taken in that form.
    - Money amounts and configured rates are integers.
    - Copy counts are integers.  The columns hold a count exactly up to
      [2 ^ 63 - 1] (a larger one is kept as a floating-point number, and
      a missing one as NULL): the statements on counters name that bound.
    - Text is a string of 8-bit characters; [.length] in JavaScript counts
      these characters, and so does [length] in SQLite for a text without
      NUL character.
    - Every SQL statement is atomic: a statement that fails a constraint,
      also inside a trigger it fires, leaves the database as it was.
    - SQLite's date functions are read as documented: [date('now')] is the
      current UTC date, [julianday] a fractional day number,
      [strftime('%Y', 'now')] the current year.  The constraint
      [chk_publication_year] is modelled with its function evaluated, and
      the partial index [idx_transactions_overdue], which then takes every
      row, has no step of its own.  A build of SQLite that refuses ['now']
      in a CHECK constraint or in the predicate of a partial index rejects
      the statements that reach them, so the states it goes through are
      among those of the model: what is stated for a call that succeeds,
      or for every reachable state, holds there too.
    - A JavaScript object is read through the property names the code
      writes: a row object has the column names of the schema, and any
      other property of it is [undefined]. *)

From Stdlib Require Import ZArith QArith Qround Lia Ascii.
From stdpp Require Import gmap strings list fin_maps sorting pretty.

Local Open Scope string_scope.
Local Open Scope Z_scope.

(** ** Rows *)

Inductive BookStatus := available | loaned | reserved.
Inductive MemberType := student | faculty | public.
Inductive TransactionType := lend | ret.

Record Book := mkBook {
  title : string;
  authors : list string;
  isbn : option string;
  publisher : option string;
  publication_year : option Z;
  genres : list string;
  language : string;
  total_copies : Z;
  available_copies : Z;
  location : option string;
  tags : list string;
  description : option string;
  cover_image_path : option string;
  status : BookStatus;
  created_at : Z;
  updated_at : Z
}.

Record Member := mkMember {
  name : string;
  member_id : string;
  email : option string;
  phone : option string;
  address : option string;
  member_type : MemberType;
  notes : option string;
  m_created_at : Z;
  m_updated_at : Z
}.

Record Transaction := mkTransaction {
  book_id : Z;
  t_member_id : Z;
  transaction_type : TransactionType;
  transaction_date : Z;
  due_date : option Z;
  return_date : option Z;
  fine_amount : Z;
  fine_paid : bool;
  t_notes : option string
}.

(** One entry of the [fineRules] setting.  A field is [None] when the JSON
    object has no such property (the handler's built-in fallback object has
    no [gracePeriod]). *)
Record FineRule := mkFineRule {
  dailyRate : option Z;
  gracePeriod : option Z;
  maxFine : option Z
}.

(** The result of [getAllSettings], restricted to the two keys the ledger
    reads.  [None] stands for a key that is absent or whose parsed value is
    falsy; a truthy value that is not an object (a raw string kept after a
    failed [JSON.parse], say) has none of the properties looked up and is
    the empty map. *)
Record Settings := mkSettings {
  fineRules : option (gmap string FineRule);
  lendingPeriods : option (gmap string Z)
}.

Record Database := mkDatabase {
  books : gmap Z Book;
  members : gmap Z Member;
  transactions : gmap Z Transaction;
  settings : Settings;
  (* sqlite_sequence: the largest rowid ever handed out, per table *)
  seq_books : Z;
  seq_transactions : Z
}.

(** What a service call throws, and what a handler reports as [error]. *)
Inductive Error :=
  | Msg (message : string)
  | CheckFailed (constraint : string)
  | UniqueFailed (column : string)
  | ForeignKeyFailed.

Inductive Response (A : Type) :=
  | Success (data : A)
  | Failure (error : Error).
Arguments Success {A} data.
Arguments Failure {A} error.

#[global] Instance BookStatus_eq_dec : EqDecision BookStatus.
Proof. solve_decision. Defined.
#[global] Instance MemberType_eq_dec : EqDecision MemberType.
Proof. solve_decision. Defined.
#[global] Instance TransactionType_eq_dec : EqDecision TransactionType.
Proof. solve_decision. Defined.

(** ** Clock and dates *)

Definition msPerDay : Z := 86400000.

(** [date('now')], and the day a [CURRENT_TIMESTAMP] value falls on. *)
Definition day_of (instant : Z) : Z := instant / msPerDay.

(** [new Date(due_date)]: midnight of the due day; [new Date(null)] is the
    epoch. *)
Definition due_instant (due : option Z) : Z :=
  match due with
  | Some d => d * msPerDay
  | None => 0
  end.

(** date-fns [differenceInDays]: full days between two instants, truncated
    towards zero. *)
Definition differenceInDays (dateLeft dateRight : Z) : Z :=
  Z.quot (dateLeft - dateRight) msPerDay.

(** date-fns [format(addDays(now, amount), 'yyyy-MM-dd')]. *)
Definition addDays_format (now amount : Z) : Z := day_of now + amount.

(** SQLite [julianday(a) - julianday(b)], in (fractional) days. *)
Definition julianday_diff (a b : Z) : Q := Qmake (a - b) (Z.to_pos msPerDay).

(** [strftime('%Y', 'now')]: the civil year of an instant (proleptic
    Gregorian calendar, days counted from 1970-01-01). *)
Definition year_of_day (day : Z) : Z :=
  let z := day + 719468 in
  let era := z / 146097 in
  let doe := z - era * 146097 in
  let yoe := (doe - doe / 1460 + doe / 36524 - doe / 146096) / 365 in
  let doy := doe - (365 * yoe + yoe / 4 - yoe / 100) in
  let mp := (5 * doy + 2) / 153 in
  let m := if mp <? 10 then mp + 3 else mp - 9 in
  if m <=? 2 then yoe + era * 400 + 1 else yoe + era * 400.

Definition year_of (instant : Z) : Z := year_of_day (day_of instant).

(** ** JavaScript idioms used by the handlers *)

(** [v || fallback] on a number that may be undefined: 0 is falsy too. *)
Definition js_or (v : option Z) (fallback : Z) : Z :=
  match v with
  | Some x => if x =? 0 then fallback else x
  | None => fallback
  end.

(** [s || null] and [s || d] on a string that may be undefined: the empty
    string is falsy. *)
Definition js_or_null (s : option string) : option string :=
  match s with
  | Some x => if bool_decide (x = "") then None else Some x
  | None => None
  end.

Definition js_or_string (s : option string) (d : string) : string :=
  match js_or_null s with
  | Some x => x
  | None => d
  end.

(** [n || null] on an optional number. *)
Definition js_or_null_num (n : option Z) : option Z :=
  match n with
  | Some x => if x =? 0 then None else Some x
  | None => None
  end.

(** [v <= z] where [v] may be undefined: [undefined <= z] is false. *)
Definition js_le (v : option Z) (z : Z) : bool :=
  match v with
  | Some x => x <=? z
  | None => false
  end.

(** [obj[k]] coerces an undefined key to the string ["undefined"]. *)
Definition js_key (k : option string) : string :=
  match k with
  | Some s => s
  | None => "undefined"
  end.

(** The text stored in [members.member_type]. *)
Definition member_type_text (mt : MemberType) : string :=
  match mt with
  | student => "student"
  | faculty => "faculty"
  | public => "public"
  end.

(** ** Table constraints of migration 001 *)

(** CHECK constraints of [books], evaluated on every INSERT and UPDATE of a
    row, in the order of the schema; the result is the first one that
    fails.  [chk_status] holds by typing; a NULL operand makes a constraint
    pass; the year in [chk_publication_year] is the current one. *)
Definition check_book (now : Z) (b : Book) : option string :=
  if negb (0 <? total_copies b) then Some "chk_total_copies"
  else if negb (0 <=? available_copies b) then Some "chk_available_copies"
  else if negb (available_copies b <=? total_copies b)
       then Some "chk_available_not_more_than_total"
  else if match publication_year b with
          | Some y => negb ((1000 <=? y) && (y <=? year_of now))
          | None => false
          end
       then Some "chk_publication_year"
  else if negb (Nat.eqb (String.length (language b)) 2)
       then Some "chk_language_length"
  else None.

(** An UPDATE re-evaluates the CHECK constraints that name a column it
    sets.  The two triggers on [transactions] set [available_copies] and
    [status]: that leaves [chk_available_copies] and
    [chk_available_not_more_than_total] ([chk_status] holds by typing). *)
Definition check_book_counters (b : Book) : option string :=
  if negb (0 <=? available_copies b) then Some "chk_available_copies"
  else if negb (available_copies b <=? total_copies b)
       then Some "chk_available_not_more_than_total"
  else None.

(** [updateBook] sets the descriptive columns and [total_copies]: every
    constraint but [chk_available_copies] names one of them. *)
Definition check_book_on_update (now : Z) (b : Book) : option string :=
  if negb (0 <? total_copies b) then Some "chk_total_copies"
  else if negb (available_copies b <=? total_copies b)
       then Some "chk_available_not_more_than_total"
  else if match publication_year b with
          | Some y => negb ((1000 <=? y) && (y <=? year_of now))
          | None => false
          end
       then Some "chk_publication_year"
  else if negb (Nat.eqb (String.length (language b)) 2)
       then Some "chk_language_length"
  else None.

(** CHECK constraints of [transactions].  [due_date] is the text
    [yyyy-MM-dd] and [transaction_date] the text [yyyy-MM-dd HH:MM:SS], and
    SQLite compares them as text: a date is below every timestamp of the
    same day. *)
Definition check_transaction (t : Transaction) : option string :=
  if negb (0 <=? fine_amount t) then Some "chk_fine_amount"
  else if match due_date t with
          | Some d => negb (day_of (transaction_date t) <? d)
          | None => false
          end
       then Some "chk_due_date_after_lend"
  else if match return_date t with
          | Some r => negb (transaction_date t <=? r)
          | None => false
          end
       then Some "chk_return_date_after_lend"
  else None.

(** [returnBook] sets [return_date], [fine_amount] and [transaction_type]:
    [chk_fine_amount] and [chk_return_date_after_lend] name one of them
    ([chk_transaction_type] holds by typing). *)
Definition check_transaction_on_return (t : Transaction) : option string :=
  if negb (0 <=? fine_amount t) then Some "chk_fine_amount"
  else if match return_date t with
          | Some r => negb (transaction_date t <=? r)
          | None => false
          end
       then Some "chk_return_date_after_lend"
  else None.

(** UNIQUE(isbn): some other row already carries this ISBN (NULLs never
    collide). *)
Definition isbn_taken (bks : gmap Z Book) (self : option Z) (i : option string) : bool :=
  match i with
  | None => false
  | Some _ =>
      bool_decide (map_Exists (fun k b => Some k <> self /\ isbn b = i) bks)
  end.

(** ** AUTOINCREMENT *)

Definition max_key {A} (m : gmap Z A) : Z :=
  map_fold (fun k _ acc => Z.max k acc) 0 m.

(** The rowid of a new row: one more than the largest rowid that ever
    existed in the table. *)
Definition next_rowid {A} (seq : Z) (m : gmap Z A) : Z :=
  1 + Z.max seq (max_key m).

(** ** Open loans *)

(** A transaction is an open loan when [transaction_type = 'lend' AND
    return_date IS NULL]. *)
Definition open_loan (t : Transaction) : Prop :=
  transaction_type t = lend /\ return_date t = None.

#[global] Instance open_loan_dec t : Decision (open_loan t).
Proof. unfold open_loan. apply _. Defined.

(** [SELECT COUNT( * ) FROM transactions WHERE book_id = ? AND
    transaction_type = 'lend' AND return_date IS NULL] *)
Definition open_loans_of_book (txs : gmap Z Transaction) (id : Z) : gmap Z Transaction :=
  filter (fun kt => book_id kt.2 = id /\ open_loan kt.2) txs.

Definition count_open_book (txs : gmap Z Transaction) (id : Z) : Z :=
  Z.of_nat (size (open_loans_of_book txs id)).

Definition open_loans_of_member (txs : gmap Z Transaction) (id : Z) : gmap Z Transaction :=
  filter (fun kt => t_member_id kt.2 = id /\ open_loan kt.2) txs.

Definition count_open_member (txs : gmap Z Transaction) (id : Z) : Z :=
  Z.of_nat (size (open_loans_of_member txs id)).

(** ** Results of service calls *)

Inductive Outcome (A : Type) :=
  | Returns (value : A)
  | Throws (error : Error).
Arguments Returns {A} value.
Arguments Throws {A} error.

(** What the handlers receive as [bookData]. *)
Module bookData.
Record t := mk {
  title : string;
  authors : list string;
  isbn : option string;
  publisher : option string;
  publicationYear : option Z;
  genres : list string;
  language : option string;
  totalCopies : Z;
  location : option string;
  tags : list string;
  description : option string;
  coverImagePath : option string
}.
End bookData.

(** The row objects the service hands back: the table columns under their
    column names, plus the joined or aggregated columns. *)
Record BookObject := mkBookObject {
  bo_id : Z;
  bo_row : Book;
  bo_active_loans : Z
}.

Record MemberObject := mkMemberObject {
  mo_id : Z;
  mo_row : Member;
  mo_active_loans : Z
}.

Record TransactionObject := mkTransactionObject {
  to_id : Z;
  to_row : Transaction;
  to_book_title : string;
  to_member_name : string;
  to_member_type : MemberType
}.

(** [book[prop]] for the numeric columns of a book object; any other
    property name is undefined there. *)
Definition book_number_prop (o : BookObject) (prop : string) : option Z :=
  if bool_decide (prop = "id") then Some (bo_id o)
  else if bool_decide (prop = "publication_year") then publication_year (bo_row o)
  else if bool_decide (prop = "total_copies") then Some (total_copies (bo_row o))
  else if bool_decide (prop = "available_copies") then Some (available_copies (bo_row o))
  else if bool_decide (prop = "created_at") then Some (created_at (bo_row o))
  else if bool_decide (prop = "updated_at") then Some (updated_at (bo_row o))
  else if bool_decide (prop = "active_loans") then Some (bo_active_loans o)
  else None.

(** [member[prop]] for the text columns of a member object. *)
Definition member_text_prop (o : MemberObject) (prop : string) : option string :=
  if bool_decide (prop = "name") then Some (name (mo_row o))
  else if bool_decide (prop = "member_id") then Some (member_id (mo_row o))
  else if bool_decide (prop = "email") then email (mo_row o)
  else if bool_decide (prop = "phone") then phone (mo_row o)
  else if bool_decide (prop = "address") then address (mo_row o)
  else if bool_decide (prop = "member_type") then Some (member_type_text (member_type (mo_row o)))
  else if bool_decide (prop = "notes") then notes (mo_row o)
  else None.

(** ** Triggers *)

Definition set_book_counters (b : Book) (copies : Z) (st : BookStatus) (now : Z) : Book :=
  mkBook (title b) (authors b) (isbn b) (publisher b) (publication_year b)
         (genres b) (language b) (total_copies b) copies (location b)
         (tags b) (description b) (cover_image_path b) st (created_at b) now.

(** The CASE expression of [update_book_status_on_lend], over the row's
    value of [available_copies] before the update. *)
Definition status_on_lend (copies : Z) : BookStatus :=
  if copies - 1 =? 0 then loaned
  else if 0 <? copies - 1 then available
  else reserved.

(** [update_book_status_on_lend], fired after the insertion of a ['lend']
    row; the UPDATE on [books] fires [update_books_updated_at] in turn and
    is subject to the CHECK constraints of [books] on the columns it
    sets. *)
Definition update_book_status_on_lend (now : Z) (bks : gmap Z Book) (new_book_id : Z)
  : Outcome (gmap Z Book) :=
  match bks !! new_book_id with
  | None => Returns bks
  | Some b =>
      let b' := set_book_counters b (available_copies b - 1)
                  (status_on_lend (available_copies b)) now in
      match check_book_counters b' with
      | Some c => Throws (CheckFailed c)
      | None => Returns (<[new_book_id := b']> bks)
      end
  end.

(** [update_book_status_on_return], fired after an UPDATE of a transaction
    row whose [return_date] goes from NULL to a value. *)
Definition update_book_status_on_return (now : Z) (bks : gmap Z Book) (new_book_id : Z)
  : Outcome (gmap Z Book) :=
  match bks !! new_book_id with
  | None => Returns bks
  | Some b =>
      let b' := set_book_counters b (available_copies b + 1) available now in
      match check_book_counters b' with
      | Some c => Throws (CheckFailed c)
      | None => Returns (<[new_book_id := b']> bks)
      end
  end.

(** ** DatabaseService *)

Definition getBookById (db : Database) (id : Z) : option BookObject :=
  match books db !! id with
  | Some b => Some (mkBookObject id b (count_open_book (transactions db) id))
  | None => None
  end.

Definition getMemberById (db : Database) (id : Z) : option MemberObject :=
  match members db !! id with
  | Some m => Some (mkMemberObject id m (count_open_member (transactions db) id))
  | None => None
  end.

(** The query joins [books] and [members]: a row is found only with both. *)
Definition getTransactionById (db : Database) (id : Z) : option TransactionObject :=
  match transactions db !! id with
  | Some t =>
      match books db !! book_id t, members db !! t_member_id t with
      | Some b, Some m => Some (mkTransactionObject id t (title b) (name m) (member_type m))
      | _, _ => None
      end
  | None => None
  end.

Definition getAllSettings (db : Database) : Settings := settings db.

Definition createBook (db : Database) (now : Z) (data : bookData.t)
  : Outcome (Database * option BookObject) :=
  let row :=
    mkBook (bookData.title data) (bookData.authors data)
           (js_or_null (bookData.isbn data)) (js_or_null (bookData.publisher data))
           (js_or_null_num (bookData.publicationYear data)) (bookData.genres data)
           (js_or_string (bookData.language data) "en")
           (bookData.totalCopies data)
           (bookData.totalCopies data) (* Initial available copies equals total *)
           (js_or_null (bookData.location data)) (bookData.tags data)
           (js_or_null (bookData.description data))
           (js_or_null (bookData.coverImagePath data))
           available now now in
  match check_book now row with
  | Some c => Throws (CheckFailed c)
  | None =>
      if isbn_taken (books db) None (isbn row)
      then Throws (Msg "A book with this ISBN already exists")
      else
        let id := next_rowid (seq_books db) (books db) in
        let db' := mkDatabase (<[id := row]> (books db)) (members db) (transactions db)
                              (settings db) id (seq_transactions db) in
        Returns (db', getBookById db' id)
  end.

Definition updateBook (db : Database) (now : Z) (id : Z) (data : bookData.t)
  : Outcome (Database * option BookObject) :=
  match books db !! id with
  | None => Throws (Msg "Book not found")
  | Some old =>
      let row :=
        mkBook (bookData.title data) (bookData.authors data)
               (js_or_null (bookData.isbn data)) (js_or_null (bookData.publisher data))
               (js_or_null_num (bookData.publicationYear data)) (bookData.genres data)
               (js_or_string (bookData.language data) "en")
               (bookData.totalCopies data)
               (available_copies old)
               (js_or_null (bookData.location data)) (bookData.tags data)
               (js_or_null (bookData.description data))
               (js_or_null (bookData.coverImagePath data))
               (status old) (created_at old) now in
      match check_book_on_update now row with
      | Some c => Throws (CheckFailed c)
      | None =>
          if isbn_taken (books db) (Some id) (isbn row)
          then Throws (Msg "A book with this ISBN already exists")
          else
            let db' := mkDatabase (<[id := row]> (books db)) (members db) (transactions db)
                                  (settings db) (seq_books db) (seq_transactions db) in
            Returns (db', getBookById db' id)
      end
  end.

(** [DELETE FROM books WHERE id = ?]; the foreign key of [transactions] is
    ON DELETE CASCADE. *)
Definition deleteBook (db : Database) (id : Z) : Outcome (Database * bool) :=
  if 0 <? count_open_book (transactions db) id
  then Throws (Msg "Cannot delete book with active loans")
  else
    match books db !! id with
    | None => Throws (Msg "Book not found")
    | Some _ =>
        Returns (mkDatabase (delete id (books db)) (members db)
                   (filter (fun kt => book_id kt.2 <> id) (transactions db))
                   (settings db) (seq_books db) (seq_transactions db), true)
    end.

Definition deleteMember (db : Database) (id : Z) : Outcome (Database * bool) :=
  if 0 <? count_open_member (transactions db) id
  then Throws (Msg "Cannot delete member with active loans")
  else
    match members db !! id with
    | None => Throws (Msg "Member not found")
    | Some _ =>
        Returns (mkDatabase (books db) (delete id (members db))
                   (filter (fun kt => t_member_id kt.2 <> id) (transactions db))
                   (settings db) (seq_books db) (seq_transactions db), true)
    end.

(** What the lend handler passes as [transactionData]. *)
Module transactionData.
Record t := mk {
  bookId : Z;
  memberId : Z;
  dueDate : option Z;
  notes : option string
}.
End transactionData.

(** The row [createTransaction] inserts: the five bound columns, and the
    defaults of the schema for the others. *)
Definition lend_row (now : Z) (data : transactionData.t) : Transaction :=
  mkTransaction (transactionData.bookId data) (transactionData.memberId data)
    lend now (transactionData.dueDate data) None 0 false
    (js_or_null (transactionData.notes data)).

(** [INSERT INTO transactions (book_id, member_id, transaction_type,
    due_date, notes) VALUES (?, ?, 'lend', ?, ?)]: the row's CHECK
    constraints, then the AFTER INSERT trigger, then the foreign keys at the
    end of the statement. *)
Definition createTransaction (db : Database) (now : Z) (data : transactionData.t)
  : Outcome (Database * option TransactionObject) :=
  let row := lend_row now data in
  match check_transaction row with
  | Some c => Throws (CheckFailed c)
  | None =>
      match update_book_status_on_lend now (books db) (book_id row) with
      | Throws e => Throws e
      | Returns bks =>
          match books db !! book_id row, members db !! t_member_id row with
          | Some _, Some _ =>
              let id := next_rowid (seq_transactions db) (transactions db) in
              let db' := mkDatabase bks (members db) (<[id := row]> (transactions db))
                                    (settings db) (seq_books db) id in
              Returns (db', getTransactionById db' id)
          | _, _ => Throws ForeignKeyFailed
          end
      end
  end.

(** The row [returnBook] writes over [old]: [return_date], [fine_amount]
    and [transaction_type] are set, the other columns kept. *)
Definition returned_row (now fine : Z) (old : Transaction) : Transaction :=
  mkTransaction (book_id old) (t_member_id old) ret (transaction_date old)
    (due_date old) (Some now) fine (fine_paid old) (t_notes old).

(** [UPDATE transactions SET return_date = CURRENT_TIMESTAMP, fine_amount =
    ?, transaction_type = 'return' WHERE id = ?] *)
Definition returnBook (db : Database) (now : Z) (transactionId : Z) (fineAmount : Z)
  : Outcome (Database * option TransactionObject) :=
  match transactions db !! transactionId with
  | None => Throws (Msg "Transaction not found")
  | Some old =>
      let row := returned_row now fineAmount old in
      match check_transaction_on_return row with
      | Some c => Throws (CheckFailed c)
      | None =>
          match (match return_date old with
                 | None => update_book_status_on_return now (books db) (book_id row)
                 | Some _ => Returns (books db)
                 end) with
          | Throws e => Throws e
          | Returns bks =>
              let db' := mkDatabase bks (members db) (<[transactionId := row]> (transactions db))
                                    (settings db) (seq_books db) (seq_transactions db) in
              Returns (db', getTransactionById db' transactionId)
          end
      end
  end.

(** ** Read-only projections *)

Inductive LoanStatus := overdue | on_time.

Record LoanObject := mkLoanObject {
  lo_id : Z;
  lo_row : Transaction;
  lo_book_title : string;
  lo_book_authors : list string;
  lo_member_name : string;
  lo_member_type : MemberType;
  lo_status : option LoanStatus;
  lo_days_overdue : option Q
}.

(** [t.due_date < date('now')]; a NULL due date makes the comparison NULL,
    which a WHERE or a CASE WHEN treats as false. *)
Definition due_before_today (now : Z) (t : Transaction) : bool :=
  match due_date t with
  | Some d => d <? day_of now
  | None => false
  end.

(** [(julianday('now') - julianday(t.due_date)) as days_overdue] *)
Definition days_overdue (now : Z) (t : Transaction) : option Q :=
  match due_date t with
  | Some d => Some (julianday_diff now (d * msPerDay))
  | None => None
  end.

(** [FROM transactions t JOIN books b ... JOIN members m ...] *)
Definition joined (db : Database) (kt : Z * Transaction)
  : option (Z * Transaction * Book * Member) :=
  match books db !! book_id kt.2, members db !! t_member_id kt.2 with
  | Some b, Some m => Some (kt.1, kt.2, b, m)
  | _, _ => None
  end.

(** [ORDER BY t.due_date ASC]; NULLs sort first. *)
Definition due_le (x y : LoanObject) : Prop :=
  match due_date (lo_row x), due_date (lo_row y) with
  | None, _ => True
  | Some _, None => False
  | Some a, Some b => a <= b
  end.

#[global] Instance due_le_dec x y : Decision (due_le x y).
Proof. unfold due_le. destruct (due_date (lo_row x)), (due_date (lo_row y)); apply _. Defined.

Definition active_object (now : Z) (r : Z * Transaction * Book * Member) : LoanObject :=
  let '(id, t, b, m) := r in
  mkLoanObject id t (title b) (authors b) (name m) (member_type m)
    (Some (if due_before_today now t then overdue else on_time))
    (days_overdue now t).

Definition overdue_object (now : Z) (r : Z * Transaction * Book * Member) : LoanObject :=
  let '(id, t, b, m) := r in
  mkLoanObject id t (title b) (authors b) (name m) (member_type m)
    None (days_overdue now t).

Definition getActiveTransactions (db : Database) (now : Z) : Database * list LoanObject :=
  (db,
   merge_sort due_le
     (active_object now <$>
        omap (joined db)
          (filter (fun kt => open_loan kt.2) (map_to_list (transactions db))))).

Definition getOverdueTransactions (db : Database) (now : Z) : Database * list LoanObject :=
  (db,
   merge_sort due_le
     (overdue_object now <$>
        omap (joined db)
          (filter (fun kt => open_loan kt.2 /\ due_before_today now kt.2 = true)
                  (map_to_list (transactions db))))).

(** The views [active_loans] and [overdue_loans] of the schema (no ORDER
    BY).  In [active_loans] the CASE has no ELSE branch: a NULL due date
    gives a NULL status. *)
Definition active_loans_row (now : Z) (r : Z * Transaction * Book * Member) : LoanObject :=
  let '(id, t, b, m) := r in
  mkLoanObject id t (title b) (authors b) (name m) (member_type m)
    (match due_date t with
     | Some d => Some (if d <? day_of now then overdue else on_time)
     | None => None
     end)
    (days_overdue now t).

Definition active_loans (db : Database) (now : Z) : list LoanObject :=
  active_loans_row now <$>
    omap (joined db) (filter (fun kt => open_loan kt.2) (map_to_list (transactions db))).

Definition overdue_loans (db : Database) (now : Z) : list LoanObject :=
  filter (fun o => due_before_today now (lo_row o) = true) (active_loans db now).

(** ** IPC handlers *)

(** The fallbacks written in the handlers. *)
Definition default_lendingPeriods : gmap string Z :=
  <["student" := 14]> (<["faculty" := 30]> (<["public" := 7]> ∅)).

Definition default_fineRules : gmap string FineRule :=
  <["student" := mkFineRule (Some 5) None (Some 500)]>
    (<["faculty" := mkFineRule (Some 3) None (Some 300)]>
       (<["public" := mkFineRule (Some 10) None (Some 1000)]> ∅)).

(** [lendingPeriods[member.memberType] || 14], with [lendingPeriods] the
    setting or the fallback object. *)
Definition lending_period (s : Settings) (member : MemberObject) : Z :=
  let lendingPeriods := default default_lendingPeriods (lendingPeriods s) in
  js_or (lendingPeriods !! js_key (member_text_prop member "memberType")) 14.

(** [ipcMain.handle('transactions:lend', ...)] *)
Definition transactions_lend (db : Database) (now : Z)
    (bookId memberId : Z) (dueDate : option Z)
  : Database * Response (option TransactionObject) :=
  if (bookId =? 0) || (memberId =? 0)
  then (db, Failure (Msg "Book ID and Member ID are required"))
  else
    match getBookById db bookId with
    | None => (db, Failure (Msg "Book not found"))
    | Some book =>
        if js_le (book_number_prop book "availableCopies") 0
        then (db, Failure (Msg "Book is not available for lending"))
        else
          match getMemberById db memberId with
          | None => (db, Failure (Msg "Member not found"))
          | Some member =>
              let calculatedDueDate :=
                match dueDate with
                | Some d => d
                | None => addDays_format now (lending_period (getAllSettings db) member)
                end in
              let data :=
                transactionData.mk bookId memberId (Some calculatedDueDate)
                  (Some ("Book lent to " +:+ name (mo_row member) +:+ " (" +:+
                         js_key (member_text_prop member "memberId") +:+ ")")) in
              match createTransaction db now data with
              | Returns (db', transaction) => (db', Success transaction)
              | Throws e => (db, Failure e)
              end
          end
    end.

(** The fine computed by the return handler: [memberType] is
    [transaction.member_type], [due] is [transaction.due_date]. *)
Definition fineAmount (s : Settings) (memberType : MemberType) (due : option Z) (now : Z) : Z :=
  if due_instant due <? now then
    let daysOverdue := differenceInDays now (due_instant due) in
    if 0 <? daysOverdue then
      let fineRules := default default_fineRules (fineRules s) in
      let rule := fineRules !! member_type_text memberType in
      let dailyRate := js_or (rule ≫= dailyRate) 5 in
      let maxFine := js_or (rule ≫= maxFine) 500 in
      Z.min (daysOverdue * dailyRate) maxFine
    else 0
  else 0.

(** [ipcMain.handle('transactions:return', ...)] *)
Definition transactions_return (db : Database) (now : Z) (transactionId : Z)
  : Database * Response (option TransactionObject) :=
  if transactionId =? 0
  then (db, Failure (Msg "Transaction ID is required"))
  else
    match getTransactionById db transactionId with
    | None => (db, Failure (Msg "Transaction not found"))
    | Some transaction =>
        match return_date (to_row transaction) with
        | Some _ => (db, Failure (Msg "Book has already been returned"))
        | None =>
            let fine := fineAmount (getAllSettings db) (to_member_type transaction)
                          (due_date (to_row transaction)) now in
            match returnBook db now transactionId fine with
            | Returns (db', updatedTransaction) => (db', Success updatedTransaction)
            | Throws e => (db, Failure e)
            end
        end
    end.

(** [ipcMain.handle('books:delete', ...)] and
    [ipcMain.handle('members:delete', ...)] *)
Definition books_delete (db : Database) (id : Z) : Database * Response unit :=
  match deleteBook db id with
  | Returns (db', _) => (db', Success tt)
  | Throws e => (db, Failure e)
  end.

Definition members_delete (db : Database) (id : Z) : Database * Response unit :=
  match deleteMember db id with
  | Returns (db', _) => (db', Success tt)
  | Throws e => (db, Failure e)
  end.

(** Whether a handler answered [{ success: true, ... }]. *)
Definition succeeded {A} (r : Response A) : bool :=
  match r with
  | Success _ => true
  | Failure _ => false
  end.

(** ** Notions used in the statements *)

Definition clear_gracePeriod (r : FineRule) : FineRule :=
  mkFineRule (dailyRate r) None (maxFine r).

(** 1 when the row stored under [i], if any, satisfies [P]. *)
Definition counted {A} (P : Z * A -> Prop) `{!forall x, Decision (P x)}
    (i : Z) (o : option A) : Z :=
  match o with
  | Some y => if decide (P (i, y)) then 1 else 0
  | None => 0
  end.

Record ledger_invariant (db : Database) : Prop := mk_ledger_invariant {
  (* the copy counter agrees with the open loans *)
  inv_copies : forall id b, books db !! id = Some b ->
    available_copies b = total_copies b - count_open_book (transactions db) id;
  (* a row without return date still has type 'lend' *)
  inv_type : forall id t, transactions db !! id = Some t ->
    return_date t = None -> transaction_type t = lend;
  (* the foreign key transactions.book_id -> books.id *)
  inv_fk : forall id t, transactions db !! id = Some t -> is_Some (books db !! book_id t)
}.

(** The operations that write the ledger; of the [updateBook] calls, those
    that keep the book's [total_copies].  Whatever createMember,
    updateMember and setSetting do to the [members] and [settings] tables is
    covered by [step_members_settings]. *)
Inductive ledger_step (db : Database) : Database -> Prop :=
  | step_createBook now data db' o :
      createBook db now data = Returns (db', o) -> ledger_step db db'
  | step_updateBook_same_total now id data db' o old :
      books db !! id = Some old ->
      bookData.totalCopies data = total_copies old ->
      updateBook db now id data = Returns (db', o) -> ledger_step db db'
  | step_lend now bookId memberId dueDate db' r :
      transactions_lend db now bookId memberId dueDate = (db', Success r) ->
      ledger_step db db'
  | step_return now transactionId db' r :
      transactions_return db now transactionId = (db', Success r) ->
      ledger_step db db'
  | step_deleteBook id db' r :
      deleteBook db id = Returns (db', r) -> ledger_step db db'
  | step_deleteMember id db' r :
      deleteMember db id = Returns (db', r) -> ledger_step db db'
  | step_members_settings ms st :
      ledger_step db (mkDatabase (books db) ms (transactions db) st
                                 (seq_books db) (seq_transactions db)).

(** The states reached from a ledger without books and transactions. *)
Inductive reachable : Database -> Prop :=
  | reachable_empty ms st sb stx : reachable (mkDatabase ∅ ms ∅ st sb stx)
  | reachable_step db db' : reachable db -> ledger_step db db' -> reachable db'.

(** ** Fixtures: the seeded settings and a small ledger *)

Module fixture.
(** The [fineRules] and [lendingPeriods] rows of the sample data. *)
Definition seed_settings : Settings :=
  mkSettings
    (Some (<["student" := mkFineRule (Some 5) (Some 0) (Some 500)]>
             (<["faculty" := mkFineRule (Some 3) (Some 3) (Some 300)]>
                (<["public" := mkFineRule (Some 10) (Some 0) (Some 1000)]> ∅))))
    (Some (<["student" := 14]> (<["faculty" := 30]> (<["public" := 7]> ∅)))).

Definition ann : Member := mkMember "Ann" "F001" None None None faculty None 0 0.
Definition bob : Member := mkMember "Bob" "S001" None None None student None 0 0.

(** 2024-01-01 10:00:00 UTC, day 19723. *)
Definition day0 : Z := 19723.
Definition t0 : Z := day0 * msPerDay + 36000000.
Definition at_day (n : Z) : Z := t0 + n * msPerDay.

Definition empty_ledger : Database :=
  mkDatabase ∅ (<[1 := ann]> (<[2 := bob]> ∅)) ∅ seed_settings 0 0.

Definition book_data (copies : Z) : bookData.t :=
  bookData.mk "The Great Gatsby" ["F. Scott Fitzgerald"] (Some "9780743273565")
    (Some "Scribner") (Some 1925) ["Fiction"] None copies (Some "A1-F2") [] None None.

(** The database a service call leaves, whether it returned or threw. *)
Definition after {A} (db : Database) (r : Outcome (Database * A)) : Database :=
  match r with
  | Returns (db', _) => db'
  | Throws _ => db
  end.

(** One book with [copies] copies, created at [t0]. *)
Definition one_book (copies : Z) : Database :=
  after empty_ledger (createBook empty_ledger t0 (book_data copies)).

(** Ann borrows the book (transaction 1), due in 14 days. *)
Definition lent_once (copies : Z) : Database :=
  (transactions_lend (one_book copies) t0 1 1 None).1.

(** Bob borrows a second copy (transaction 2). *)
Definition lent_twice (copies : Z) : Database :=
  (transactions_lend (lent_once copies) t0 1 2 None).1.
End fixture.

(** Scenario A of the specification: Bob, a student (daily rate 5, cap 500,
    grace period 0), borrows the only copy on day [day0], due on
    [day0 + 14]. *)
Definition scenario_A : Database :=
  (transactions_lend (fixture.one_book 1) fixture.t0 1 2 None).1.

Definition scenario_A_loan : Transaction :=
  mkTransaction 1 2 lend fixture.t0 (Some (fixture.day0 + 14)) None 0 false
    (Some "Book lent to Bob (undefined)").

(** Scenario A after Bob has returned the book on day [day0 + 3]. *)
Definition scenario_A_returned : Database :=
  (transactions_return scenario_A (fixture.at_day 3) 1).1.

(** Noon of day [day0 + 16], two and a half days after the midnight of the
    due date of the loan of Scenario A. *)
Definition noon_day16 : Z := (fixture.day0 + 16) * msPerDay + 43200000.


(** Fine rules of a library that charges students 2 a day, 9 at most. *)
Definition low_cap_rules : Settings :=
  mkSettings (Some (<["student" := mkFineRule (Some 2) (Some 0) (Some 9)]> ∅)) None.


(** The book of [fixture.one_book 1], edited a day after its creation to
    carry 3 copies. *)
Definition edited_a_day_later : Outcome (Database * option BookObject) :=
  updateBook (fixture.one_book 1) (fixture.at_day 1) 1 (fixture.book_data 3).


(** ** Every writing operation; conditions on the stored rows *)

(** A step of the ledger, or any successful [updateBook]. *)
Inductive store_step (db : Database) : Database -> Prop :=
  | store_ledger_step db' : ledger_step db db' -> store_step db db'
  | store_updateBook now id data db' o :
      updateBook db now id data = Returns (db', o) -> store_step db db'.

Inductive store_reachable : Database -> Prop :=
  | store_reachable_empty ms st sb stx : store_reachable (mkDatabase ∅ ms ∅ st sb stx)
  | store_reachable_step db db' :
      store_reachable db -> store_step db db' -> store_reachable db'.

(** The counters and the status of a book row. *)
Definition book_row_ok (b : Book) : Prop :=
  0 < total_copies b
  /\ 0 <= available_copies b <= total_copies b
  /\ status b <> reserved
  /\ (status b = loaned <-> available_copies b = 0).

(** The dates, the type and the fine of a transaction row. *)
Definition transaction_row_ok (t : Transaction) : Prop :=
  0 <= fine_amount t
  /\ (exists d, due_date t = Some d /\ day_of (transaction_date t) < d)
  /\ (transaction_type t = lend <-> return_date t = None)
  /\ (forall r, return_date t = Some r -> transaction_date t <= r).

Record store_ok (db : Database) : Prop := mk_store_ok {
  ok_books : forall id b, books db !! id = Some b -> book_row_ok b;
  ok_transactions : forall id t, transactions db !! id = Some t -> transaction_row_ok t
}.

(** The view [member_statistics]: one row per member, over the LEFT JOIN
    with its transactions. *)
Record MemberStatistics := mkMemberStatistics {
  ms_id : Z;
  ms_name : string;
  ms_member_id : string;
  ms_member_type : MemberType;
  ms_total_transactions : Z;
  ms_active_loans : Z;
  ms_returned_books : Z;
  ms_total_fines : Z;
  ms_paid_fines : Z
}.

(** [SUM(...)] over the joined rows, under [COALESCE(..., 0)]. *)
Definition sum_of (f : Transaction -> Z) (ts : list Transaction) : Z :=
  foldr (fun t acc => f t + acc) 0 ts.

Definition transactions_of_member (db : Database) (id : Z) : list Transaction :=
  snd <$> filter (fun kt => t_member_id kt.2 = id) (map_to_list (transactions db)).

Definition member_statistics_row (db : Database) (km : Z * Member) : MemberStatistics :=
  let ts := transactions_of_member db km.1 in
  mkMemberStatistics km.1 (name km.2) (member_id km.2) (member_type km.2)
    (Z.of_nat (length ts))
    (Z.of_nat (length (filter open_loan ts)))
    (Z.of_nat (length (filter (fun t => transaction_type t = ret) ts)))
    (sum_of fine_amount ts)
    (sum_of (fun t => if fine_paid t then fine_amount t else 0) ts).

Definition member_statistics (db : Database) : list MemberStatistics :=
  member_statistics_row db <$> map_to_list (members db).

(** ** Members: constraints, service calls and handlers *)

(** What [members:create] and [members:update] receive; the member type is
    one of the three values of the interface. *)
Module memberData.
Record t := mk {
  name : string;
  memberId : string;
  email : option string;
  phone : option string;
  address : option string;
  memberType : MemberType;
  notes : option string
}.
End memberData.

(** CHECK constraints of [members], in the order of the schema;
    [chk_member_type] holds by typing. *)
Definition check_member (m : Member) : option string :=
  if negb (2 <=? String.length (name m))%nat then Some "chk_name_length"
  else if negb (3 <=? String.length (member_id m))%nat then Some "chk_member_id_length"
  else None.

(** UNIQUE(member_id) and UNIQUE(email): some other row already carries the
    value (NULL emails never collide). *)
Definition member_id_taken (ms : gmap Z Member) (self : option Z) (i : string) : bool :=
  bool_decide (map_Exists (fun k m => Some k <> self /\ member_id m = i) ms).

Definition email_taken (ms : gmap Z Member) (self : option Z) (e : option string) : bool :=
  match e with
  | None => false
  | Some _ => bool_decide (map_Exists (fun k m => Some k <> self /\ email m = e) ms)
  end.

(** The column named by SQLite's message [UNIQUE constraint failed:
    members.<column>].  When both values collide the message names the
    index that is probed first, which the schema does not fix:
    [email_first] stands for that choice of the engine. *)
Definition unique_violation (email_first : bool) (ms : gmap Z Member) (self : option Z)
    (row : Member) : option string :=
  match member_id_taken ms self (member_id row), email_taken ms self (email row) with
  | true, true => Some (if email_first then "email" else "member_id")
  | true, false => Some "member_id"
  | false, true => Some "email"
  | false, false => None
  end.

(** The catch block of createMember and updateMember: the message that
    includes ['member_id'] is tested first, then the one with ['email']. *)
Definition unique_error (column : string) : Error :=
  if bool_decide (column = "member_id") then Msg "A member with this ID already exists"
  else if bool_decide (column = "email") then Msg "A member with this email already exists"
  else UniqueFailed column.

(** The database together with the [sqlite_sequence] entry of [members]. *)
Record Store := mkStore {
  database : Database;
  seq_members : Z
}.

Definition with_database (s : Store) (db : Database) : Store :=
  mkStore db (seq_members s).

Definition with_members (db : Database) (ms : gmap Z Member) : Database :=
  mkDatabase (books db) ms (transactions db) (settings db)
             (seq_books db) (seq_transactions db).

Definition member_row (data : memberData.t) (created updated : Z) : Member :=
  mkMember (memberData.name data) (memberData.memberId data)
           (js_or_null (memberData.email data)) (js_or_null (memberData.phone data))
           (js_or_null (memberData.address data)) (memberData.memberType data)
           (js_or_null (memberData.notes data)) created updated.

Definition createMember (email_first : bool) (s : Store) (now : Z) (data : memberData.t)
  : Outcome (Store * option MemberObject) :=
  let db := database s in
  let row := member_row data now now in
  match check_member row with
  | Some c => Throws (CheckFailed c)
  | None =>
      match unique_violation email_first (members db) None row with
      | Some column => Throws (unique_error column)
      | None =>
          let id := next_rowid (seq_members s) (members db) in
          let db' := with_members db (<[id := row]> (members db)) in
          Returns (mkStore db' id, getMemberById db' id)
      end
  end.

(** [UPDATE members SET ... WHERE id = ?], followed by the trigger
    [update_members_updated_at], which writes the same timestamp again. *)
Definition updateMember (email_first : bool) (s : Store) (now : Z) (id : Z)
    (data : memberData.t) : Outcome (Store * option MemberObject) :=
  let db := database s in
  match members db !! id with
  | None => Throws (Msg "Member not found")
  | Some old =>
      let row := member_row data (m_created_at old) now in
      match check_member row with
      | Some c => Throws (CheckFailed c)
      | None =>
          match unique_violation email_first (members db) (Some id) row with
          | Some column => Throws (unique_error column)
          | None =>
              let db' := with_members db (<[id := row]> (members db)) in
              Returns (with_database s db', getMemberById db' id)
          end
      end
  end.

(** *** Text helpers of the handlers *)

(** White space and line terminators of JavaScript among 8-bit characters:
    TAB, LF, VT, FF, CR, space and the no-break space. *)
Definition is_white_space (c : ascii) : bool :=
  let n := nat_of_ascii c in
  ((9 <=? n) && (n <=? 13) || (n =? 32) || (n =? 160))%nat.

Fixpoint trimStart (s : string) : string :=
  match s with
  | EmptyString => EmptyString
  | String c s' => if is_white_space c then trimStart s' else s
  end.

Definition trimEnd (s : string) : string := String.rev (trimStart (String.rev s)).

(** [s.trim()] *)
Definition trim (s : string) : string := trimEnd (trimStart s).

(** Regular expressions, matched against a whole string (a pattern
    between [^] and [$]) by derivatives. *)
Inductive regex :=
  | re_none
  | re_empty
  | re_class (p : ascii -> bool)
  | re_seq (r1 r2 : regex)
  | re_alt (r1 r2 : regex)
  | re_star (r : regex).

(** [r+] *)
Definition re_plus (r : regex) : regex := re_seq r (re_star r).

Fixpoint nullable (r : regex) : bool :=
  match r with
  | re_none => false
  | re_empty => true
  | re_class _ => false
  | re_seq r1 r2 => nullable r1 && nullable r2
  | re_alt r1 r2 => nullable r1 || nullable r2
  | re_star _ => true
  end.

Fixpoint derive (c : ascii) (r : regex) : regex :=
  match r with
  | re_none => re_none
  | re_empty => re_none
  | re_class p => if p c then re_empty else re_none
  | re_seq r1 r2 =>
      if nullable r1 then re_alt (re_seq (derive c r1) r2) (derive c r2)
      else re_seq (derive c r1) r2
  | re_alt r1 r2 => re_alt (derive c r1) (derive c r2)
  | re_star r1 => re_seq (derive c r1) (re_star r1)
  end.

(** [/^r$/.test(s)] *)
Fixpoint regex_test (r : regex) (s : string) : bool :=
  match s with
  | EmptyString => nullable r
  | String c s' => regex_test (derive c r) s'
  end.

(** The strings a regular expression denotes. *)
Inductive matches : regex -> string -> Prop :=
  | matches_empty : matches re_empty ""
  | matches_class p c : p c = true -> matches (re_class p) (String c "")
  | matches_seq r1 r2 s1 s2 :
      matches r1 s1 -> matches r2 s2 -> matches (re_seq r1 r2) (s1 +:+ s2)
  | matches_alt_l r1 r2 s : matches r1 s -> matches (re_alt r1 r2) s
  | matches_alt_r r1 r2 s : matches r2 s -> matches (re_alt r1 r2) s
  | matches_star_nil r : matches (re_star r) ""
  | matches_star_cons r s1 s2 :
      matches r s1 -> matches (re_star r) s2 -> matches (re_star r) (s1 +:+ s2).

(** The class [[^\s@]] and a literal character. *)
Definition not_space_or_at (c : ascii) : bool :=
  negb (is_white_space c) && negb (Ascii.eqb c "@"%char).

Definition re_char (c : ascii) : regex := re_class (Ascii.eqb c).

(** [/^[^\s@]+@[^\s@]+\.[^\s@]+$/] *)
Definition emailRegex : regex :=
  re_seq (re_plus (re_class not_space_or_at))
    (re_seq (re_char "@"%char)
       (re_seq (re_plus (re_class not_space_or_at))
          (re_seq (re_char "."%char)
             (re_plus (re_class not_space_or_at))))).

Definition isValidEmail (email : string) : bool := regex_test emailRegex email.

(** *** The handlers [members:create] and [members:update] *)

(** The three tests both handlers start with; the result is the error
    message of the first one that fails. *)
Definition validate_member (data : memberData.t) : option string :=
  if bool_decide (memberData.name data = "")
     || (String.length (trim (memberData.name data)) <? 2)%nat
  then Some "Name must be at least 2 characters long"
  else if bool_decide (memberData.memberId data = "")
          || (String.length (memberData.memberId data) <? 3)%nat
  then Some "Member ID must be at least 3 characters long"
  else
    match js_or_null (memberData.email data) with
    | Some e => if isValidEmail e then None else Some "Invalid email format"
    | None => None
    end.

Definition members_create (email_first : bool) (s : Store) (now : Z) (data : memberData.t)
  : Store * Response (option MemberObject) :=
  match validate_member data with
  | Some message => (s, Failure (Msg message))
  | None =>
      match createMember email_first s now data with
      | Returns (s', member) => (s', Success member)
      | Throws e => (s, Failure e)
      end
  end.

Definition members_update (email_first : bool) (s : Store) (now : Z) (id : Z)
    (data : memberData.t) : Store * Response (option MemberObject) :=
  match validate_member data with
  | Some message => (s, Failure (Msg message))
  | None =>
      match updateMember email_first s now id data with
      | Returns (s', member) => (s', Success member)
      | Throws e => (s, Failure e)
      end
  end.

(** ** The application as a whole *)

(** One successful call of the application: the book operations of
    DatabaseService, the member and transaction handlers, and setSetting
    (which may write any settings). *)
Inductive library_step (s : Store) : Store -> Prop :=
  | lib_createBook now data db' o :
      createBook (database s) now data = Returns (db', o) ->
      library_step s (with_database s db')
  | lib_updateBook now id data db' o :
      updateBook (database s) now id data = Returns (db', o) ->
      library_step s (with_database s db')
  | lib_books_delete id db' :
      books_delete (database s) id = (db', Success tt) ->
      library_step s (with_database s db')
  | lib_members_create email_first now data s' o :
      members_create email_first s now data = (s', Success o) ->
      library_step s s'
  | lib_members_update email_first now id data s' o :
      members_update email_first s now id data = (s', Success o) ->
      library_step s s'
  | lib_members_delete id db' :
      members_delete (database s) id = (db', Success tt) ->
      library_step s (with_database s db')
  | lib_transactions_lend now bookId memberId dueDate db' r :
      transactions_lend (database s) now bookId memberId dueDate = (db', Success r) ->
      library_step s (with_database s db')
  | lib_transactions_return now transactionId db' r :
      transactions_return (database s) now transactionId = (db', Success r) ->
      library_step s (with_database s db')
  | lib_setSetting st :
      library_step s
        (with_database s
           (mkDatabase (books (database s)) (members (database s))
              (transactions (database s)) st
              (seq_books (database s)) (seq_transactions (database s)))).

(** The states the application reaches from empty tables. *)
Inductive library_reachable : Store -> Prop :=
  | library_reachable_empty st sb stx sm :
      library_reachable (mkStore (mkDatabase ∅ ∅ ∅ st sb stx) sm)
  | library_reachable_step s s' :
      library_reachable s -> library_step s s' -> library_reachable s'.

(** The UNIQUE and FOREIGN KEY constraints of the schema, the CHECK
    constraints of [members], and what the member handlers validate. *)
Record schema_ok (db : Database) : Prop := mk_schema_ok {
  ok_isbn_unique : forall i j b c,
    books db !! i = Some b -> books db !! j = Some c ->
    is_Some (isbn b) -> isbn b = isbn c -> i = j;
  ok_member_id_unique : forall i j m n,
    members db !! i = Some m -> members db !! j = Some n ->
    member_id m = member_id n -> i = j;
  ok_email_unique : forall i j m n,
    members db !! i = Some m -> members db !! j = Some n ->
    is_Some (email m) -> email m = email n -> i = j;
  ok_fk_book : forall k t,
    transactions db !! k = Some t -> is_Some (books db !! book_id t);
  ok_fk_member : forall k t,
    transactions db !! k = Some t -> is_Some (members db !! t_member_id t);
  ok_member_valid : forall i m,
    members db !! i = Some m ->
    (2 <= String.length (trim (name m)))%nat
    /\ (3 <= String.length (member_id m))%nat
    /\ (forall e, email m = Some e -> isValidEmail e = true)
}.

(** Every character of [s] belongs to the class [p]. *)
Fixpoint all_chars (p : ascii -> bool) (s : string) : bool :=
  match s with
  | EmptyString => true
  | String c s' => p c && all_chars p s'
  end.

(** ** A small library built through the handlers *)

Module desk.
Definition ann_data : memberData.t :=
  memberData.mk "Ann" "F001" (Some "ann@example.org") None None faculty None.

Definition bob_data : memberData.t :=
  memberData.mk "Bob" "S001" None None None student None.

(** Empty tables with the seeded settings. *)
Definition opened : Store :=
  mkStore (mkDatabase ∅ ∅ ∅ fixture.seed_settings 0 0) 0.

(** Ann (member 1) and Bob (member 2) are registered. *)
Definition ann_joined : Store := (members_create false opened fixture.t0 ann_data).1.
Definition both_joined : Store := (members_create false ann_joined fixture.t0 bob_data).1.

(** Book 1 with two copies. *)
Definition stocked : Store :=
  with_database both_joined
    (fixture.after (database both_joined)
       (createBook (database both_joined) fixture.t0 (fixture.book_data 2))).

(** Bob borrows a copy (transaction 1, due in 14 days), then Ann the
    other one with the due date set to the next day (transaction 2). *)
Definition lent : Store :=
  with_database stocked
    (transactions_lend (database stocked) fixture.t0 1 2 None).1.

Definition lent_both : Store :=
  with_database lent
    (transactions_lend (database lent) fixture.t0 1 1 (Some (fixture.day0 + 1))).1.
End desk.

(** ** The PIN lock: AuthService *)

(** AuthService keeps the session and the failed attempts in memory and the
    PIN hash in the [settings] table, which it reads with [getSetting] and
    writes with [setSetting].  [getSetting] hands back the stored text, that
    is the [JSON.stringify] of what [setSetting] was given.  Of the table
    the model keeps the rows under ['authPinHash'] and ['authEnabled']; the
    other keys the class writes (['authSetupDate'], ['authPinChangedDate'],
    ['authSettings'], ['authentication']) are read by none of the methods
    below.  [bcrypt.compare] is a parameter of the methods that call it, and
    the value [bcrypt.hash] returned is an argument, as the clock is. *)
Module auth.

(** The JavaScript values that occur: [null], booleans, integers and
    strings. *)
Inductive JsValue :=
  | js_null
  | js_bool (b : bool)
  | js_number (n : Z)
  | js_string (s : string).

(** [a === b] *)
Definition strict_eq (a b : JsValue) : bool :=
  match a, b with
  | js_null, js_null => true
  | js_bool x, js_bool y => Bool.eqb x y
  | js_number x, js_number y => x =? y
  | js_string x, js_string y => String.eqb x y
  | _, _ => false
  end.

(** Whether [if (v)] takes the branch. *)
Definition truthy (v : JsValue) : bool :=
  match v with
  | js_null => false
  | js_bool b => b
  | js_number n => negb (n =? 0)
  | js_string s => negb (String.eqb s "")
  end.

(** The double quote. *)
Definition quote : string := String (ascii_of_nat 34) EmptyString.

Definition hex_digit (n : nat) : ascii :=
  if (n <? 10)%nat then ascii_of_nat (48 + n) else ascii_of_nat (87 + n).

(** [JSON.stringify] of one character of a string. *)
Definition json_escape_char (c : ascii) : string :=
  let n := nat_of_ascii c in
  if (n =? 34)%nat then String "\"%char quote
  else if (n =? 92)%nat then "\\"
  else if (n =? 8)%nat then "\b"
  else if (n =? 9)%nat then "\t"
  else if (n =? 10)%nat then "\n"
  else if (n =? 12)%nat then "\f"
  else if (n =? 13)%nat then "\r"
  else if (n <? 32)%nat
       then "\u00" +:+ String (hex_digit (n / 16)) (String (hex_digit (n mod 16)) "")
  else String c "".

Fixpoint json_escape (s : string) : string :=
  match s with
  | EmptyString => EmptyString
  | String c s' => json_escape_char c +:+ json_escape s'
  end.

Definition JSON_stringify (v : JsValue) : string :=
  match v with
  | js_null => "null"
  | js_bool true => "true"
  | js_bool false => "false"
  | js_number n => pretty n
  | js_string s => quote +:+ json_escape s +:+ quote
  end.

Record Session := mkSession {
  startTime : Z;
  lastActivity : Z
}.

Record Attempts := mkAttempts {
  count : Z;
  lastAttempt : Z
}.

Record AuthService := mkAuthService {
  sessionTimeout : Z;
  maxLoginAttempts : Z;
  lockoutDuration : Z;
  currentSession : option Session;
  loginAttempts : gmap string Attempts;
  (* the rows of the settings table, key to stored text *)
  rows : gmap string string
}.

(** The constructor, over the settings rows found in the database. *)
Definition new (table : gmap string string) : AuthService :=
  mkAuthService (30 * 60 * 1000) 5 (15 * 60 * 1000) None ∅ table.

Definition with_session (a : AuthService) (s : option Session) : AuthService :=
  mkAuthService (sessionTimeout a) (maxLoginAttempts a) (lockoutDuration a) s
                (loginAttempts a) (rows a).

Definition with_attempts (a : AuthService) (l : gmap string Attempts) : AuthService :=
  mkAuthService (sessionTimeout a) (maxLoginAttempts a) (lockoutDuration a)
                (currentSession a) l (rows a).

(** [dbService.getSetting(key)]: [result ? result.value : null] *)
Definition getSetting (a : AuthService) (key : string) : JsValue :=
  match rows a !! key with
  | Some text => js_string text
  | None => js_null
  end.

(** [dbService.setSetting(key, value)] *)
Definition setSetting (a : AuthService) (key : string) (value : JsValue) : AuthService :=
  mkAuthService (sessionTimeout a) (maxLoginAttempts a) (lockoutDuration a)
                (currentSession a) (loginAttempts a)
                (<[key := JSON_stringify value]> (rows a)).

(** The string a value is used as where a string is expected; only
    strings reach such a place. *)
Definition text_of (v : JsValue) : string :=
  match v with
  | js_string s => s
  | js_bool true => "true"
  | js_bool false => "false"
  | js_number n => pretty n
  | js_null => "null"
  end.

Definition createSession (a : AuthService) (now : Z) : AuthService :=
  with_session a (Some (mkSession now now)).

Definition getClientInfo : string := "desktop_client".

Definition isLockedOut (a : AuthService) (now : Z) (clientInfo : string) : bool :=
  match loginAttempts a !! clientInfo with
  | None => false
  | Some attempts =>
      (maxLoginAttempts a <=? count attempts)
      && (now - lastAttempt attempts <? lockoutDuration a)
  end.

Definition getLockoutTimeLeft (a : AuthService) (now : Z) (clientInfo : string) : Z :=
  match loginAttempts a !! clientInfo with
  | None => 0
  | Some attempts =>
      let timeSinceLastAttempt := now - lastAttempt attempts in
      Z.max 0 (lockoutDuration a - timeSinceLastAttempt)
  end.

Definition recordFailedAttempt (a : AuthService) (now : Z) (clientInfo : string)
  : AuthService :=
  let attempts := default (mkAttempts 0 0) (loginAttempts a !! clientInfo) in
  with_attempts a (<[clientInfo := mkAttempts (count attempts + 1) now]> (loginAttempts a)).

Definition clearFailedAttempts (a : AuthService) (clientInfo : string) : AuthService :=
  with_attempts a (delete clientInfo (loginAttempts a)).

(** [Math.ceil(x / y)] on integers, [y] positive. *)
Definition ceil_div (x y : Z) : Z := - ((- x) / y).

(** [!pin || pin.length < 4 || pin.length > 8] *)
Definition bad_pin_length (pin : string) : bool :=
  String.eqb pin "" || (String.length pin <? 4)%nat || (8 <? String.length pin)%nat.

Definition setup (a : AuthService) (pin pinHash : string) : AuthService * Outcome string :=
  if bad_pin_length pin
  then (a, Throws (Msg "PIN must be between 4 and 8 characters"))
  else
    let existingPinHash := getSetting a "authPinHash" in
    if truthy existingPinHash
    then (a, Throws (Msg "Authentication is already set up"))
    else
      (setSetting (setSetting a "authPinHash" (js_string pinHash))
                  "authEnabled" (js_bool true),
       Returns "Authentication setup completed").

Definition login (bcrypt_compare : string -> string -> bool)
    (a : AuthService) (now : Z) (pin : string) : AuthService * Outcome string :=
  let authEnabled := getSetting a "authEnabled" in
  if strict_eq authEnabled (js_bool false)
  then (createSession a now, Returns "Login successful (authentication disabled)")
  else
    let clientInfo := getClientInfo in
    if isLockedOut a now clientInfo
    then
      let lockoutTimeLeft := getLockoutTimeLeft a now clientInfo in
      (a, Throws (Msg ("Account locked. Try again in "
                       +:+ pretty (ceil_div lockoutTimeLeft 60000) +:+ " minutes")))
    else
      let pinHash := getSetting a "authPinHash" in
      if negb (truthy pinHash)
      then (a, Throws (Msg "Authentication not set up"))
      else
        let isValidPin := bcrypt_compare pin (text_of pinHash) in
        if negb isValidPin
        then (recordFailedAttempt a now clientInfo, Throws (Msg "Invalid PIN"))
        else (createSession (clearFailedAttempts a clientInfo) now,
              Returns "Login successful").

Definition logout (a : AuthService) : AuthService * Outcome string :=
  (with_session a None, Returns "Logout successful").

Definition checkAuth (a : AuthService) (now : Z) : AuthService * bool :=
  let authEnabled := getSetting a "authEnabled" in
  if strict_eq authEnabled (js_bool false) then (a, true)
  else
    match currentSession a with
    | None => (a, false)
    | Some session =>
        if sessionTimeout a <? now - startTime session
        then (with_session a None, false)
        else (with_session a (Some (mkSession (startTime session) now)), true)
    end.

Definition changePin (bcrypt_compare : string -> string -> bool)
    (a : AuthService) (oldPin newPin newPinHash : string)
  : AuthService * Outcome string :=
  if bad_pin_length newPin
  then (a, Throws (Msg "New PIN must be between 4 and 8 characters"))
  else
    let pinHash := getSetting a "authPinHash" in
    if negb (truthy pinHash)
    then (a, Throws (Msg "Authentication not set up"))
    else
      let isValidOldPin := bcrypt_compare oldPin (text_of pinHash) in
      if negb isValidOldPin
      then (a, Throws (Msg "Invalid current PIN"))
      else (setSetting a "authPinHash" (js_string newPinHash),
            Returns "PIN changed successfully").

Definition enableAuthentication (a : AuthService) : AuthService * Outcome string :=
  let pinHash := getSetting a "authPinHash" in
  if negb (truthy pinHash)
  then (a, Throws (Msg "Authentication must be set up first"))
  else (setSetting a "authEnabled" (js_bool true), Returns "Authentication enabled").

Definition disableAuthentication (a : AuthService) : AuthService * Outcome string :=
  (with_session (setSetting a "authEnabled" (js_bool false)) None,
   Returns "Authentication disabled").

(** The argument of [updateAuthSettings]; a missing property is [None]. *)
Module settings.
Record t := mk {
  sessionTimeout : option Z;
  maxAttempts : option Z;
  lockoutDuration : option Z
}.
End settings.

(** [updateAuthSettings]: the three fields of the object; what it stores
    goes to keys outside the modelled rows. *)
Definition updateAuthSettings (a : AuthService) (s : settings.t)
  : AuthService * Outcome string :=
  (mkAuthService
     (match js_or_null_num (settings.sessionTimeout s) with
      | Some m => m * 60 * 1000
      | None => sessionTimeout a
      end)
     (match js_or_null_num (settings.maxAttempts s) with
      | Some n => n
      | None => maxLoginAttempts a
      end)
     (match js_or_null_num (settings.lockoutDuration s) with
      | Some m => m * 60 * 1000
      | None => lockoutDuration a
      end)
     (currentSession a) (loginAttempts a) (rows a),
   Returns "Settings updated successfully").

(** The digits of [validatePasswordStrength]: [/^\d+$/], [parseInt] of one
    character ([None] is NaN) and the loop that looks for a pair of
    neighbours that does not count up by one. *)
Definition is_digit (c : ascii) : bool :=
  let n := nat_of_ascii c in ((48 <=? n) && (n <=? 57))%nat.

Definition digits : regex := re_plus (re_class is_digit).

Definition parseInt (c : ascii) : option Z :=
  if is_digit c then Some (Z.of_nat (nat_of_ascii c) - 48) else None.

(** [a !== b + 1] on numbers that may be NaN. *)
Definition not_successor (a b : option Z) : bool :=
  match a, b with
  | Some x, Some y => negb (x =? y + 1)
  | _, _ => true
  end.

Fixpoint isSequential_from (previous : ascii) (rest : string) : bool :=
  match rest with
  | EmptyString => true
  | String c rest' =>
      if not_successor (parseInt c) (parseInt previous) then false
      else isSequential_from c rest'
  end.

Definition isSequential (password : string) : bool :=
  match password with
  | EmptyString => true
  | String c rest => isSequential_from c rest
  end.

Definition weakPins : list string :=
  ["0000"; "1111"; "1234"; "4321"; "5555"; "6666"; "7777"; "8888"; "9999"].

(** The result [{ valid, message }]. *)
Definition validatePasswordStrength (password : string) : bool * string :=
  if (String.length password <? 4)%nat
  then (false, "PIN must be at least 4 characters long")
  else if (8 <? String.length password)%nat
  then (false, "PIN must not exceed 8 characters")
  else if negb (regex_test digits password)
  then (false, "PIN must contain only numbers")
  else if bool_decide (password ∈ weakPins)
  then (false, "PIN is too common. Please choose a different PIN")
  else if isSequential password && (2 <? String.length password)%nat
  then (false, "PIN cannot contain sequential numbers")
  else (true, "PIN is valid").

(** One call on the service, or a write of the settings handler
    ([settings:set]) to the table. *)
Inductive call :=
  | call_setup (pin pinHash : string)
  | call_login (now : Z) (pin : string)
  | call_logout
  | call_checkAuth (now : Z)
  | call_changePin (oldPin newPin newPinHash : string)
  | call_enableAuthentication
  | call_disableAuthentication
  | call_updateAuthSettings (s : settings.t)
  | call_setSetting (key : string) (value : JsValue).

(** The service after a call, whether it returned or threw. *)
Definition after (bcrypt_compare : string -> string -> bool) (a : AuthService) (c : call)
  : AuthService :=
  match c with
  | call_setup pin pinHash => (setup a pin pinHash).1
  | call_login now pin => (login bcrypt_compare a now pin).1
  | call_logout => (logout a).1
  | call_checkAuth now => (checkAuth a now).1
  | call_changePin oldPin newPin newPinHash =>
      (changePin bcrypt_compare a oldPin newPin newPinHash).1
  | call_enableAuthentication => (enableAuthentication a).1
  | call_disableAuthentication => (disableAuthentication a).1
  | call_updateAuthSettings s => (updateAuthSettings a s).1
  | call_setSetting key value => setSetting a key value
  end.

Definition after_all (bcrypt_compare : string -> string -> bool) (a : AuthService)
    (cs : list call) : AuthService :=
  foldl (after bcrypt_compare) a cs.
End auth.

(** The character of a digit, and the run of [n] digits counting up from
    [k]. *)
Definition digit_char (v : nat) : ascii := ascii_of_nat (48 + v).

Fixpoint count_up (k n : nat) : string :=
  match n with
  | O => EmptyString
  | S n' => String (digit_char k) (count_up (S k) n')
  end.

(** A service for the examples: a stand-in for [bcrypt.compare] that
    accepts the PIN 2468 against any stored text, a service on which that
    PIN has been set up, and five logins with other PINs, one second
    apart. *)
Module front_door.
Definition accepts (pin text : string) : bool :=
  String.eqb pin "2468" && negb (String.eqb text "").

Definition locked : auth.AuthService :=
  (auth.setup (auth.new ∅) "2468" "$2a$12$hash.of.2468").1.

Definition stored_text : string :=
  auth.JSON_stringify (auth.js_string "$2a$12$hash.of.2468").

Definition tries : list (Z * string) :=
  [(fixture.t0, "0000"); (fixture.t0 + 1000, "1111"); (fixture.t0 + 2000, "2222");
   (fixture.t0 + 3000, "3333"); (fixture.t0 + 4000, "4444")].

Definition after_tries : auth.AuthService :=
  auth.after_all accepts locked (fmap (fun tp => auth.call_login tp.1 tp.2) tries).

(** Logged in at [t0]. *)
Definition entered : auth.AuthService := (auth.login accepts locked fixture.t0 "2468").1.

Definition minute : Z := 60000.
End front_door.

(** ** CSV import: FileService.validateImportData *)

(** The objects [processCSVRow] builds for a row of a book file and of a
    member file.  [validateImportData] reads them by property name; a
    property the object does not have is [undefined], here [None]. *)
Module import.
Record book := mk_book {
  title : option string;
  authors : list string;
  isbn : string;
  publisher : string;
  publicationYear : option Z;
  genres : list string;
  language : string;
  totalCopies : Z;
  location : string;
  tags : list string;
  description : string;
  status : string
}.

Record member := mk_member {
  name : option string;
  memberId : string;
  email : string;
  phone : string;
  address : string;
  memberType : string;
  notes : string
}.

Inductive record :=
  | of_book (b : book)
  | of_member (m : member).

Definition prop_title (r : record) : option string :=
  match r with of_book b => title b | of_member _ => None end.

Definition prop_authors (r : record) : option (list string) :=
  match r with of_book b => Some (authors b) | of_member _ => None end.

Definition prop_isbn (r : record) : option string :=
  match r with of_book b => Some (isbn b) | of_member _ => None end.

Definition prop_publicationYear (r : record) : option Z :=
  match r with of_book b => publicationYear b | of_member _ => None end.

Definition prop_totalCopies (r : record) : option Z :=
  match r with of_book b => Some (totalCopies b) | of_member _ => None end.

Definition prop_name (r : record) : option string :=
  match r with of_book _ => None | of_member m => name m end.

Definition prop_memberId (r : record) : option string :=
  match r with of_book _ => None | of_member m => Some (memberId m) end.

Definition prop_email (r : record) : option string :=
  match r with of_book _ => None | of_member m => Some (email m) end.

(** The [type] argument: ['books'], ['members'], or anything else. *)
Inductive type := books | members | other.

Record result := mk_result {
  validRecords : list record;
  validationErrors : list string;
  duplicateRecords : list string
}.

(** [`Row ${index + 1}: ${message}`] *)
Definition row_message (index : nat) (message : string) : string :=
  "Row " +:+ pretty (Z.of_nat index + 1) +:+ ": " +:+ message.

Definition push_error (acc : result) (index : nat) (message : string) : result :=
  mk_result (validRecords acc)
            (validationErrors acc ++ [row_message index message])
            (duplicateRecords acc).

Definition push_duplicate (acc : result) (index : nat) (message : string) : result :=
  mk_result (validRecords acc) (validationErrors acc)
            (duplicateRecords acc ++ [row_message index message]).

Definition push_valid (acc : result) (r : record) : result :=
  mk_result (validRecords acc ++ [r]) (validationErrors acc) (duplicateRecords acc).

(** [s] is a string that is not empty (a truthy string). *)
Definition nonempty (s : option string) : bool :=
  match js_or_null s with
  | Some _ => true
  | None => false
  end.

(** [record.isbn && record.isbn.trim() !== ''], and the same test on
    [record.email]. *)
Definition not_blank (s : option string) : bool :=
  match js_or_null s with
  | Some x => negb (String.eqb (trim x) "")
  | None => false
  end.

(** [r.memberId === record.memberId || (r.email && record.email && r.email
    === record.email)] *)
Definition same_member (record r : record) : bool :=
  bool_decide (prop_memberId r = prop_memberId record)
  || (nonempty (prop_email r) && nonempty (prop_email record)
      && bool_decide (prop_email r = prop_email record)).

(** The body of the [forEach]: one record against the valid records so
    far.  [now] is the clock that [new Date().getFullYear()] reads. *)
Definition validate_record (t : type) (now : Z) (acc : result) (index : nat) (r : record)
  : result :=
  match t with
  | books =>
      if match js_or_null (prop_title r) with
         | Some x => (String.length (trim x) =? 0)%nat
         | None => true
         end
      then push_error acc index "Title is required"
      else if match prop_authors r with
              | Some l => (length l =? 0)%nat
              | None => true
              end
      then push_error acc index "At least one author is required"
      else if not_blank (prop_isbn r)
              && bool_decide (is_Some (List.find (fun v => bool_decide (prop_isbn v = prop_isbn r))
                                         (validRecords acc)))
      then push_duplicate acc index ("Duplicate ISBN " +:+ default "" (prop_isbn r))
      else if match js_or_null_num (prop_publicationYear r) with
              | Some y => (y <? 1000) || (year_of now <? y)
              | None => false
              end
      then push_error acc index "Invalid publication year"
      else if match prop_totalCopies r with
              | Some n => (n <? 1) || (1000 <? n)
              | None => false
              end
      then push_error acc index "Total copies must be between 1 and 1000"
      else push_valid acc r
  | members =>
      if match js_or_null (prop_name r) with
         | Some x => (String.length (trim x) <? 2)%nat
         | None => true
         end
      then push_error acc index "Name must be at least 2 characters long"
      else if match js_or_null (prop_memberId r) with
              | Some x => (String.length (trim x) <? 3)%nat
              | None => true
              end
      then push_error acc index "Member ID must be at least 3 characters long"
      else if not_blank (prop_email r)
              && negb (regex_test emailRegex (default "" (prop_email r)))
      then push_error acc index "Invalid email format"
      else if bool_decide (is_Some (List.find (same_member r) (validRecords acc)))
      then push_duplicate acc index "Duplicate member ID or email"
      else push_valid acc r
  | other => push_valid acc r
  end.

(** [data.forEach((record, index) => ...)] from [index] on. *)
Fixpoint forEach (t : type) (now : Z) (index : nat) (data : list record) (acc : result)
  : result :=
  match data with
  | [] => acc
  | r :: data' => forEach t now (S index) data' (validate_record t now acc index r)
  end.

Definition validateImportData (now : Z) (data : list record) (t : type) : result :=
  forEach t now 0 data (mk_result [] [] []).
End import.

(** A member file of four rows: Ann, Bob with a one-letter name, Ann's
    member id again, and Cy with Ann's e-mail address. *)
Module import_file.
Definition row (name memberId email : string) : import.record :=
  import.of_member (import.mk_member (Some name) memberId email "" "" "public" "").

Definition rows : list import.record :=
  [row "Ann" "F001" "ann@example.org"; row "B" "S001" "";
   row "Anna" "F001" ""; row "Cy" "P001" "ann@example.org"; row "Di" "P002" ""].
End import_file.

(** * Properties *)

(** ** Finite-map lemmas: counting the rows a statement touches *)

Section counting.
Context {A : Type} (P : Z * A -> Prop) `{!forall x, Decision (P x)}.

Lemma lookup_filter_counted (m : gmap Z A) i :
  filter P m !! i = match m !! i with
                    | Some y => if decide (P (i, y)) then Some y else None
                    | None => None
                    end.
Proof.
  destruct (m !! i) as [y|] eqn:Hi.
  - destruct (decide (P (i, y))) as [Hp|Hp].
    + by apply map_lookup_filter_Some.
    + apply map_lookup_filter_None. right. intros y' Hy'. congruence.
  - apply map_lookup_filter_None. by left.
Qed.

Lemma size_pos_lookup (m : gmap Z A) i y : m !! i = Some y -> (0 < size m)%nat.
Proof.
  intros Hi. destruct (size m) eqn:Hs; [|lia].
  apply map_size_empty_iff in Hs. subst m. by rewrite lookup_empty in Hi.
Qed.

(** Writing a row under key [i] (INSERT of a fresh key, or UPDATE of an
    existing one) changes the count by the row's own contribution. *)
Lemma size_filter_insert (m : gmap Z A) i x :
  Z.of_nat (size (filter P (<[i := x]> m)))
  = Z.of_nat (size (filter P m)) - counted P i (m !! i) + counted P i (Some x).
Proof.
  rewrite map_filter_insert. cbn [counted].
  destruct (decide (P (i, x))) as [Hx|Hx].
  - rewrite map_size_insert, lookup_filter_counted.
    destruct (m !! i) as [y|] eqn:Hi; cbn [counted].
    + destruct (decide (P (i, y))); cbn [id]; lia.
    + lia.
  - rewrite map_filter_delete, map_size_delete, lookup_filter_counted.
    destruct (m !! i) as [y|] eqn:Hi; cbn [counted].
    + destruct (decide (P (i, y))) as [Hy|Hy]; cbn [id]; [|lia].
      assert (filter P m !! i = Some y) as Hf by by apply map_lookup_filter_Some.
      apply size_pos_lookup in Hf. lia.
    + cbn [id]. lia.
Qed.

Lemma size_filter_none (m : gmap Z A) :
  (forall i y, m !! i = Some y -> ~ P (i, y)) -> size (filter P m) = 0%nat.
Proof.
  intros Hn. apply map_size_empty_iff, map_empty. intros i.
  rewrite lookup_filter_counted.
  destruct (m !! i) as [y|] eqn:Hi; [|done].
  destruct (decide (P (i, y))) as [Hp|Hp]; [|done].
  by destruct (Hn i y Hi).
Qed.

Lemma size_filter_zero (m : gmap Z A) i y :
  size (filter P m) = 0%nat -> m !! i = Some y -> ~ P (i, y).
Proof.
  intros Hs Hi Hp. apply map_size_empty_iff in Hs.
  assert (filter P m !! i = Some y) as Hf by by apply map_lookup_filter_Some.
  rewrite Hs, lookup_empty in Hf. discriminate.
Qed.
End counting.

(** ** AUTOINCREMENT hands out fresh keys *)

Lemma max_key_ge {A} (m : gmap Z A) k x : m !! k = Some x -> k <= max_key m.
Proof.
  unfold max_key. rewrite map_fold_foldr.
  intros Hk. apply elem_of_map_to_list in Hk.
  induction (map_to_list m) as [|[k' x'] l IH]; [by apply elem_of_nil in Hk|].
  cbn. apply elem_of_cons in Hk as [Heq|Hin].
  - inversion Heq; subst. lia.
  - specialize (IH Hin). lia.
Qed.

Lemma next_rowid_fresh {A} (seq : Z) (m : gmap Z A) : m !! next_rowid seq m = None.
Proof.
  destruct (m !! next_rowid seq m) as [x|] eqn:Hk; [|done].
  apply max_key_ge in Hk. unfold next_rowid in Hk. lia.
Qed.

(** ** What a successful statement did *)

Lemma update_book_status_on_lend_Returns now bks id bks' :
  update_book_status_on_lend now bks id = Returns bks' ->
  match bks !! id with
  | None => bks' = bks
  | Some b =>
      bks' = <[id := set_book_counters b (available_copies b - 1)
                        (status_on_lend (available_copies b)) now]> bks
      /\ 0 <= available_copies b - 1 <= total_copies b
  end.
Proof.
  unfold update_book_status_on_lend.
  destruct (bks !! id) as [b|]; [|congruence].
  destruct (check_book_counters _) as [c|] eqn:Hc; [discriminate|].
  intros [= <-]. split; [done|].
  unfold check_book_counters in Hc. cbn in Hc.
  repeat match type of Hc with
         | (if negb ?c then _ else _) = _ => destruct c eqn:?; cbn in Hc; [|discriminate]
         end.
  lia.
Qed.

Lemma update_book_status_on_return_Returns now bks id bks' :
  update_book_status_on_return now bks id = Returns bks' ->
  match bks !! id with
  | None => bks' = bks
  | Some b =>
      bks' = <[id := set_book_counters b (available_copies b + 1) available now]> bks
      /\ 0 <= available_copies b + 1 <= total_copies b
  end.
Proof.
  unfold update_book_status_on_return.
  destruct (bks !! id) as [b|]; [|congruence].
  destruct (check_book_counters _) as [c|] eqn:Hc; [discriminate|].
  intros [= <-]. split; [done|].
  unfold check_book_counters in Hc. cbn in Hc.
  repeat match type of Hc with
         | (if negb ?c then _ else _) = _ => destruct c eqn:?; cbn in Hc; [|discriminate]
         end.
  lia.
Qed.

Lemma createTransaction_Returns db now data db' o :
  createTransaction db now data = Returns (db', o) ->
  exists b,
    books db !! transactionData.bookId data = Some b
    /\ is_Some (members db !! transactionData.memberId data)
    /\ 0 <= available_copies b - 1 <= total_copies b
    /\ books db' = <[transactionData.bookId data :=
                       set_book_counters b (available_copies b - 1)
                         (status_on_lend (available_copies b)) now]> (books db)
    /\ transactions db' = <[next_rowid (seq_transactions db) (transactions db) :=
                              lend_row now data]> (transactions db)
    /\ members db' = members db
    /\ settings db' = settings db
    /\ o = getTransactionById db' (next_rowid (seq_transactions db) (transactions db)).
Proof.
  unfold createTransaction. fold (lend_row now data).
  destruct (check_transaction _); [discriminate|].
  destruct (update_book_status_on_lend _ _ _) as [bks|e] eqn:Ht; [|discriminate].
  apply update_book_status_on_lend_Returns in Ht. cbn [book_id t_member_id lend_row] in *.
  destruct (books db !! transactionData.bookId data) as [b|]; [|discriminate].
  destruct (members db !! transactionData.memberId data) as [m|] eqn:Hm; [|discriminate].
  destruct Ht as [-> Hb]. intros [= <- <-]. exists b. cbn. eauto 10.
Qed.

Lemma returnBook_Returns db now id fine db' o :
  returnBook db now id fine = Returns (db', o) ->
  exists old,
    transactions db !! id = Some old
    /\ 0 <= fine
    /\ transactions db' = <[id := returned_row now fine old]> (transactions db)
    /\ members db' = members db
    /\ settings db' = settings db
    /\ o = getTransactionById db' id
    /\ match return_date old, books db !! book_id old with
       | None, Some b =>
           books db' = <[book_id old :=
                           set_book_counters b (available_copies b + 1) available now]> (books db)
           /\ 0 <= available_copies b + 1 <= total_copies b
       | _, _ => books db' = books db
       end.
Proof.
  unfold returnBook.
  destruct (transactions db !! id) as [old|]; [|discriminate].
  fold (returned_row now fine old).
  destruct (check_transaction_on_return _) as [c|] eqn:Hc; [discriminate|].
  assert (0 <= fine) as Hfine.
  { unfold check_transaction_on_return in Hc. cbn in Hc.
    destruct (0 <=? fine) eqn:?; cbn in Hc; [lia|discriminate]. }
  cbn [book_id returned_row].
  destruct (return_date old) as [r|] eqn:Hr.
  - intros [= <- <-]. exists old. rewrite Hr. cbn. eauto 10.
  - destruct (update_book_status_on_return _ _ _) as [bks|e] eqn:Ht; [|discriminate].
    apply update_book_status_on_return_Returns in Ht.
    intros [= <- <-]. exists old. rewrite Hr. cbn.
    destruct (books db !! book_id old) as [b|]; [destruct Ht as [-> Hb]|subst bks]; eauto 10.
Qed.

(** ** What a successful handler call did *)

Lemma transactions_lend_Success db now bookId memberId dueDate db' r :
  transactions_lend db now bookId memberId dueDate = (db', Success r) ->
  exists member due notes,
    getMemberById db memberId = Some member
    /\ due = match dueDate with
             | Some d => d
             | None => addDays_format now (lending_period (settings db) member)
             end
    /\ createTransaction db now (transactionData.mk bookId memberId (Some due) notes)
       = Returns (db', r).
Proof.
  unfold transactions_lend.
  destruct ((bookId =? 0) || (memberId =? 0)); [intros [= ]|].
  destruct (getBookById db bookId) as [book|]; [|intros [= ]].
  destruct (js_le _ _); [intros [= ]|].
  destruct (getMemberById db memberId) as [member|]; [|intros [= ]].
  destruct (createTransaction _ _ _) as [[db1 o]|e] eqn:Hc; [|intros [= ]].
  intros [= <- <-]. eauto 10.
Qed.

Lemma transactions_return_Success db now transactionId db' r :
  transactions_return db now transactionId = (db', Success r) ->
  exists t b m,
    transactionId <> 0
    /\ transactions db !! transactionId = Some t
    /\ books db !! book_id t = Some b
    /\ members db !! t_member_id t = Some m
    /\ return_date t = None
    /\ returnBook db now transactionId
         (fineAmount (settings db) (member_type m) (due_date t) now) = Returns (db', r).
Proof.
  unfold transactions_return.
  destruct (transactionId =? 0) eqn:Hz; [intros [= ]|]. apply Z.eqb_neq in Hz.
  unfold getTransactionById.
  destruct (transactions db !! transactionId) as [t|] eqn:Ht; [|intros [= ]].
  destruct (books db !! book_id t) as [b|] eqn:Hb; [|intros [= ]].
  destruct (members db !! t_member_id t) as [m|] eqn:Hm; [|intros [= ]].
  cbn [to_row to_member_type].
  destruct (return_date t) eqn:Hr; [intros [= ]|].
  destruct (returnBook _ _ _ _) as [[db1 o]|e] eqn:Hc; [|intros [= ]].
  intros [= <- <-]. exists t, b, m. unfold getAllSettings in Hc. eauto 10.
Qed.

Lemma createBook_Returns db now data db' o :
  createBook db now data = Returns (db', o) ->
  exists row,
    books db' = <[next_rowid (seq_books db) (books db) := row]> (books db)
    /\ available_copies row = total_copies row
    /\ total_copies row = bookData.totalCopies data
    /\ status row = available
    /\ transactions db' = transactions db
    /\ members db' = members db
    /\ settings db' = settings db.
Proof.
  unfold createBook.
  destruct (check_book _ _); [discriminate|].
  destruct (isbn_taken _ _ _); [discriminate|].
  intros [= <- <-]. cbn. eauto 10.
Qed.

Lemma updateBook_Returns db now id data db' o :
  updateBook db now id data = Returns (db', o) ->
  exists old,
    books db !! id = Some old
    /\ books db' =
       <[id := mkBook (bookData.title data) (bookData.authors data)
                 (js_or_null (bookData.isbn data)) (js_or_null (bookData.publisher data))
                 (js_or_null_num (bookData.publicationYear data)) (bookData.genres data)
                 (js_or_string (bookData.language data) "en")
                 (bookData.totalCopies data) (available_copies old)
                 (js_or_null (bookData.location data)) (bookData.tags data)
                 (js_or_null (bookData.description data))
                 (js_or_null (bookData.coverImagePath data))
                 (status old) (created_at old) now]> (books db)
    /\ members db' = members db
    /\ transactions db' = transactions db
    /\ settings db' = settings db
    /\ seq_books db' = seq_books db
    /\ seq_transactions db' = seq_transactions db.
Proof.
  unfold updateBook.
  destruct (books db !! id) as [old|]; [|discriminate].
  destruct (check_book_on_update _ _); [discriminate|].
  destruct (isbn_taken _ _ _); [discriminate|].
  intros [= <- <-]. exists old. cbn. done.
Qed.

Lemma deleteBook_Returns db id db' r :
  deleteBook db id = Returns (db', r) ->
  count_open_book (transactions db) id = 0
  /\ is_Some (books db !! id)
  /\ books db' = delete id (books db)
  /\ transactions db' = filter (fun kt => book_id kt.2 <> id) (transactions db)
  /\ members db' = members db
  /\ r = true.
Proof.
  unfold deleteBook.
  destruct (0 <? count_open_book _ _) eqn:Hc; [discriminate|].
  destruct (books db !! id) eqn:Hb; [|discriminate].
  intros [= <- <-]. cbn. unfold count_open_book in *. split; [lia|]. eauto 10.
Qed.

Lemma deleteMember_Returns db id db' r :
  deleteMember db id = Returns (db', r) ->
  count_open_member (transactions db) id = 0
  /\ is_Some (members db !! id)
  /\ books db' = books db
  /\ transactions db' = filter (fun kt => t_member_id kt.2 <> id) (transactions db)
  /\ members db' = delete id (members db)
  /\ r = true.
Proof.
  unfold deleteMember.
  destruct (0 <? count_open_member _ _) eqn:Hc; [discriminate|].
  destruct (members db !! id) eqn:Hb; [|discriminate].
  intros [= <- <-]. cbn. unfold count_open_member in *. split; [lia|]. eauto 10.
Qed.

(** ** Properties the row objects do not have *)

(** The row objects carry the column names of the schema: the properties
    the lend handler reads under camel-case names are undefined. *)
Lemma book_object_availableCopies o : book_number_prop o "availableCopies" = None.
Proof. reflexivity. Qed.

Lemma member_object_memberType o : member_text_prop o "memberType" = None.
Proof. reflexivity. Qed.

Lemma member_object_memberId o : member_text_prop o "memberId" = None.
Proof. reflexivity. Qed.

(** ** When a handler call succeeds *)

(** A lend goes through when both ids are given, book and member exist,
    and the store accepts the new row and the decremented counter. *)
Lemma transactions_lend_succeeds db now bookId memberId dueDate b m :
  bookId <> 0 -> memberId <> 0 ->
  books db !! bookId = Some b -> members db !! memberId = Some m ->
  day_of now < match dueDate with
               | Some d => d
               | None => addDays_format now
                           (lending_period (settings db)
                              (mkMemberObject memberId m
                                 (count_open_member (transactions db) memberId)))
               end ->
  check_book_counters (set_book_counters b (available_copies b - 1)
                         (status_on_lend (available_copies b)) now) = None ->
  exists db' r, transactions_lend db now bookId memberId dueDate = (db', Success r).
Proof.
  intros Hb0 Hm0 Hb Hm Hdue Hchk. unfold transactions_lend.
  apply Z.eqb_neq in Hb0, Hm0. rewrite Hb0, Hm0. cbn [orb].
  unfold getBookById, getMemberById. rewrite Hb, Hm, book_object_availableCopies.
  cbn [js_le]. unfold createTransaction, getAllSettings.
  set (data := transactionData.mk _ _ _ _).
  assert (check_transaction (lend_row now data) = None) as ->.
  { unfold check_transaction. cbn. apply Z.ltb_lt in Hdue. by rewrite Hdue. }
  cbn [book_id t_member_id lend_row data transactionData.bookId transactionData.memberId].
  unfold update_book_status_on_lend. rewrite Hb, Hchk, Hm. eauto.
Qed.

(** A return goes through when the id is given, the transaction exists with
    its book and member and has no return date, and the store accepts the
    closed row and the incremented counter. *)
Lemma transactions_return_succeeds db now id t b m :
  id <> 0 ->
  transactions db !! id = Some t -> return_date t = None ->
  books db !! book_id t = Some b -> members db !! t_member_id t = Some m ->
  check_transaction_on_return
    (returned_row now (fineAmount (settings db) (member_type m) (due_date t) now) t) = None ->
  check_book_counters (set_book_counters b (available_copies b + 1) available now) = None ->
  exists db' r, transactions_return db now id = (db', Success r).
Proof.
  intros Hid Ht Hr Hb Hm Hct Hcb. unfold transactions_return.
  apply Z.eqb_neq in Hid. rewrite Hid.
  unfold getTransactionById. rewrite Ht, Hb, Hm. cbn [to_row to_member_type].
  rewrite Hr. unfold returnBook, getAllSettings. rewrite Ht, Hct, Hr.
  cbn [book_id returned_row]. unfold update_book_status_on_return. rewrite Hb, Hcb. eauto.
Qed.

(** ** Open-loan counts under the statements *)

Lemma count_open_book_insert txs i x b :
  count_open_book (<[i := x]> txs) b
  = count_open_book txs b
    - counted (fun kt => book_id kt.2 = b /\ open_loan kt.2) i (txs !! i)
    + counted (fun kt => book_id kt.2 = b /\ open_loan kt.2) i (Some x).
Proof. unfold count_open_book, open_loans_of_book. apply size_filter_insert. Qed.

Lemma count_open_member_insert txs i x m :
  count_open_member (<[i := x]> txs) m
  = count_open_member txs m
    - counted (fun kt => t_member_id kt.2 = m /\ open_loan kt.2) i (txs !! i)
    + counted (fun kt => t_member_id kt.2 = m /\ open_loan kt.2) i (Some x).
Proof. unfold count_open_member, open_loans_of_member. apply size_filter_insert. Qed.

(** A lend adds one open loan to its book and to no other. *)
Lemma count_open_book_lend txs i now data b :
  txs !! i = None ->
  count_open_book (<[i := lend_row now data]> txs) b
  = count_open_book txs b + (if decide (transactionData.bookId data = b) then 1 else 0).
Proof.
  intros Hi. rewrite count_open_book_insert, Hi. cbn.
  destruct (decide (transactionData.bookId data = b)) as [Hb|Hb].
  - rewrite decide_True; [lia|]. by split.
  - rewrite decide_False; [lia|]. intros [? _]. done.
Qed.

(** A return takes one open loan from its book and from no other. *)
Lemma count_open_book_return txs i now fine old b :
  txs !! i = Some old -> open_loan old ->
  count_open_book (<[i := returned_row now fine old]> txs) b
  = count_open_book txs b - (if decide (book_id old = b) then 1 else 0).
Proof.
  intros Hi Ho. rewrite count_open_book_insert, Hi. cbn.
  rewrite (decide_False (P := _ /\ open_loan (returned_row now fine old))).
  2: { intros [_ [Ht _]]. discriminate. }
  destruct (decide (book_id old = b)) as [Hb|Hb].
  - rewrite decide_True; [lia|]. by split.
  - rewrite decide_False; [lia|]. intros [? _]. done.
Qed.

(** Rows removed by a cascade that are not open loans of [b] do not change
    the count of [b]. *)
Lemma count_open_book_cascade (Q : Z * Transaction -> Prop) `{!forall x, Decision (Q x)} txs b :
  (forall i t, txs !! i = Some t -> book_id t = b -> open_loan t -> Q (i, t)) ->
  count_open_book (filter Q txs) b = count_open_book txs b.
Proof.
  intros HQ. unfold count_open_book, open_loans_of_book. f_equal. f_equal.
  rewrite map_filter_filter. apply map_filter_ext.
  intros i t Hi. cbn. split; [tauto|]. intros [Hb Ho]. split; [done|]. by apply (HQ i t).
Qed.

(** ** The availability invariant *)

Lemma count_open_book_unreferenced txs b :
  (forall i t, txs !! i = Some t -> book_id t <> b) -> count_open_book txs b = 0.
Proof.
  intros Hn. unfold count_open_book, open_loans_of_book.
  rewrite size_filter_none; [done|]. intros i t Hi [Hb _]. by apply (Hn i t).
Qed.

(** Establish: an empty ledger, and a newly created book. *)
Lemma ledger_invariant_empty ms st sb stx : ledger_invariant (mkDatabase ∅ ms ∅ st sb stx).
Proof. split; cbn; intros id x Hx; by rewrite lookup_empty in Hx. Qed.

Lemma createBook_new_book db now data db' o :
  ledger_invariant db ->
  createBook db now data = Returns (db', o) ->
  exists id b,
    books db !! id = None /\ books db' !! id = Some b
    /\ available_copies b = total_copies b
    /\ total_copies b = bookData.totalCopies data
    /\ count_open_book (transactions db') id = 0.
Proof.
  intros Hinv (row & Hb & Ha & Ht & _ & Htx & _)%createBook_Returns.
  exists (next_rowid (seq_books db) (books db)), row.
  pose proof (next_rowid_fresh (seq_books db) (books db)) as Hfresh.
  rewrite Hb, Htx, lookup_insert_eq. repeat split; try done.
  apply count_open_book_unreferenced. intros i t Hi Heq.
  destruct (inv_fk db Hinv i t Hi) as [b' Hb']. congruence.
Qed.

Lemma createBook_preserves db now data db' o :
  ledger_invariant db -> createBook db now data = Returns (db', o) -> ledger_invariant db'.
Proof.
  intros Hinv Hc.
  destruct (createBook_new_book _ _ _ _ _ Hinv Hc) as (id & b & Hnone & Hb' & Ha & _ & Hz).
  apply createBook_Returns in Hc as (row & Hb & _ & _ & _ & Htx & _).
  assert (id = next_rowid (seq_books db) (books db)) as ->.
  { destruct (decide (id = next_rowid (seq_books db) (books db))) as [|Hne]; [done|].
    rewrite Hb, lookup_insert_ne in Hb' by done. congruence. }
  split.
  - intros i x Hx. destruct (decide (i = next_rowid (seq_books db) (books db))) as [->|Hne].
    + rewrite Hb' in Hx. injection Hx as <-. lia.
    + rewrite Hb, lookup_insert_ne in Hx by done. rewrite Htx. by apply (inv_copies db Hinv).
  - rewrite Htx. apply (inv_type db Hinv).
  - rewrite Htx. intros i t Hi. destruct (inv_fk db Hinv i t Hi) as [x Hx].
    rewrite Hb. destruct (decide (next_rowid (seq_books db) (books db) = book_id t)) as [<-|Hne].
    + rewrite lookup_insert_eq. eauto.
    + rewrite lookup_insert_ne by done. eauto.
Qed.

(** Preserve: lend. *)
Lemma createTransaction_preserves db now data db' o :
  ledger_invariant db -> createTransaction db now data = Returns (db', o) -> ledger_invariant db'.
Proof.
  intros Hinv (b & Hb & _ & _ & Hbks & Htxs & _)%createTransaction_Returns.
  pose proof (next_rowid_fresh (seq_transactions db) (transactions db)) as Hfresh.
  set (new := next_rowid (seq_transactions db) (transactions db)) in *.
  split.
  - intros i x Hx. rewrite Htxs, count_open_book_lend by done.
    rewrite Hbks in Hx.
    destruct (decide (transactionData.bookId data = i)) as [<-|Hne].
    + rewrite lookup_insert_eq in Hx. injection Hx as <-. cbn.
      pose proof (inv_copies db Hinv _ _ Hb). lia.
    + rewrite lookup_insert_ne in Hx by done.
      pose proof (inv_copies db Hinv _ _ Hx). lia.
  - intros i t. rewrite Htxs. destruct (decide (new = i)) as [<-|Hne].
    + rewrite lookup_insert_eq. by intros [= <-].
    + rewrite lookup_insert_ne by done. apply (inv_type db Hinv).
  - intros i t. rewrite Htxs, Hbks. intros Hi.
    assert (is_Some (books db !! book_id t)) as [x Hx].
    { destruct (decide (new = i)) as [<-|Hne].
      - rewrite lookup_insert_eq in Hi. injection Hi as <-. cbn. eauto.
      - rewrite lookup_insert_ne in Hi by done. by apply (inv_fk db Hinv i). }
    destruct (decide (transactionData.bookId data = book_id t)) as [<-|Hne].
    + rewrite lookup_insert_eq. eauto.
    + rewrite lookup_insert_ne by done. eauto.
Qed.

Lemma transactions_lend_preserves db now bookId memberId dueDate db' r :
  ledger_invariant db ->
  transactions_lend db now bookId memberId dueDate = (db', Success r) ->
  ledger_invariant db'.
Proof.
  intros Hinv (member & due & notes & _ & _ & Hc)%transactions_lend_Success.
  by apply (createTransaction_preserves _ _ _ _ _ Hinv Hc).
Qed.

(** Preserve: return. *)
Lemma transactions_return_preserves db now transactionId db' r :
  ledger_invariant db ->
  transactions_return db now transactionId = (db', Success r) ->
  ledger_invariant db'.
Proof.
  intros Hinv (t & b & m & _ & Ht & Hb & _ & Hr & Hret)%transactions_return_Success.
  apply returnBook_Returns in Hret as (old & Hold & _ & Htxs & _ & _ & _ & Hbks).
  rewrite Ht in Hold. injection Hold as <-. rewrite Hr, Hb in Hbks.
  destruct Hbks as [Hbks _].
  assert (open_loan t) as Hopen by (split; [by apply (inv_type db Hinv transactionId)|done]).
  split.
  - intros i x Hx. rewrite Htxs, (count_open_book_return _ _ _ _ t) by done.
    rewrite Hbks in Hx.
    destruct (decide (book_id t = i)) as [<-|Hne].
    + rewrite lookup_insert_eq in Hx. injection Hx as <-. cbn.
      pose proof (inv_copies db Hinv _ _ Hb). lia.
    + rewrite lookup_insert_ne in Hx by done.
      pose proof (inv_copies db Hinv _ _ Hx). lia.
  - intros i x. rewrite Htxs. destruct (decide (transactionId = i)) as [<-|Hne].
    + rewrite lookup_insert_eq. intros [= <-]. discriminate.
    + rewrite lookup_insert_ne by done. apply (inv_type db Hinv).
  - intros i x. rewrite Htxs, Hbks. intros Hi.
    assert (is_Some (books db !! book_id x)) as [y Hy].
    { destruct (decide (transactionId = i)) as [<-|Hne].
      - rewrite lookup_insert_eq in Hi. injection Hi as <-. cbn. eauto.
      - rewrite lookup_insert_ne in Hi by done. by apply (inv_fk db Hinv i). }
    destruct (decide (book_id t = book_id x)) as [<-|Hne].
    + rewrite lookup_insert_eq. eauto.
    + rewrite lookup_insert_ne by done. eauto.
Qed.

(** Preserve: an edit that keeps [total_copies]. *)
Lemma updateBook_preserves db now id data db' o old :
  ledger_invariant db ->
  books db !! id = Some old -> bookData.totalCopies data = total_copies old ->
  updateBook db now id data = Returns (db', o) -> ledger_invariant db'.
Proof.
  intros Hinv Hold Htot (old' & Hold' & Hbks & _ & Htxs & _)%updateBook_Returns.
  rewrite Hold in Hold'. injection Hold' as <-.
  split.
  - intros i x. rewrite Hbks, Htxs. destruct (decide (id = i)) as [<-|Hne].
    + rewrite lookup_insert_eq. intros [= <-]. cbn. rewrite Htot.
      by apply (inv_copies db Hinv).
    + rewrite lookup_insert_ne by done. by apply (inv_copies db Hinv).
  - rewrite Htxs. apply (inv_type db Hinv).
  - rewrite Htxs. intros i t Hi. destruct (inv_fk db Hinv i t Hi) as [x Hx].
    rewrite Hbks. destruct (decide (id = book_id t)) as [<-|Hne].
    + rewrite lookup_insert_eq. eauto.
    + rewrite lookup_insert_ne by done. eauto.
Qed.

(** Preserve: the two deletions, with their cascade over [transactions]. *)
Lemma deleteBook_preserves db id db' r :
  ledger_invariant db -> deleteBook db id = Returns (db', r) -> ledger_invariant db'.
Proof.
  intros Hinv (_ & _ & Hbks & Htxs & _)%deleteBook_Returns.
  split.
  - intros i x. rewrite Hbks, Htxs. intros Hx.
    apply lookup_delete_Some in Hx as [Hne Hx].
    rewrite count_open_book_cascade; [by apply (inv_copies db Hinv)|].
    intros k t _ Hk _. cbn. congruence.
  - intros i t. rewrite Htxs. intros [Hi _]%map_lookup_filter_Some.
    by apply (inv_type db Hinv i).
  - intros i t. rewrite Htxs, Hbks. intros [Hi Hne]%map_lookup_filter_Some. cbn in Hne.
    rewrite lookup_delete_ne by done. by apply (inv_fk db Hinv i).
Qed.

Lemma deleteMember_preserves db id db' r :
  ledger_invariant db -> deleteMember db id = Returns (db', r) -> ledger_invariant db'.
Proof.
  intros Hinv (Hz & _ & Hbks & Htxs & _)%deleteMember_Returns.
  split.
  - intros i x. rewrite Hbks, Htxs. intros Hx.
    rewrite count_open_book_cascade; [by apply (inv_copies db Hinv)|].
    intros k t Hk _ Ho. cbn. intros Hm.
    unfold count_open_member, open_loans_of_member in Hz.
    apply (size_filter_zero
             (fun kt : Z * Transaction => t_member_id kt.2 = id /\ open_loan kt.2)
             (transactions db) k t); [lia|done|by split].
  - intros i t. rewrite Htxs. intros [Hi _]%map_lookup_filter_Some.
    by apply (inv_type db Hinv i).
  - intros i t. rewrite Htxs, Hbks. intros [Hi _]%map_lookup_filter_Some.
    by apply (inv_fk db Hinv i).
Qed.

Lemma ledger_step_preserves db db' :
  ledger_invariant db -> ledger_step db db' -> ledger_invariant db'.
Proof.
  intros Hinv Hstep. destruct Hstep.
  - eapply createBook_preserves; eauto.
  - eapply updateBook_preserves; eauto.
  - eapply transactions_lend_preserves; eauto.
  - eapply transactions_return_preserves; eauto.
  - eapply deleteBook_preserves; eauto.
  - eapply deleteMember_preserves; eauto.
  - destruct Hinv as [H1 H2 H3]. by split.
Qed.

Lemma reachable_invariant db : reachable db -> ledger_invariant db.
Proof.
  induction 1 as [ms st sb stx|db db' _ IH Hstep].
  - apply ledger_invariant_empty.
  - by apply (ledger_step_preserves db).
Qed.

(** ** C1: availability bookkeeping *)


Lemma reachable_lent_twice : reachable (fixture.lent_twice 2).
Proof.
  apply (reachable_step (fixture.lent_once 2)).
  - apply (reachable_step (fixture.one_book 2)).
    + apply (reachable_step fixture.empty_ledger); [apply reachable_empty|].
      apply (step_createBook _ fixture.t0 (fixture.book_data 2) _
               (getBookById (fixture.one_book 2) 1)).
      vm_compute. reflexivity.
    + apply (step_lend _ fixture.t0 1 1 None _
               (getTransactionById (fixture.lent_once 2) 1)).
      vm_compute. reflexivity.
  - apply (step_lend _ fixture.t0 1 2 None _
             (getTransactionById (fixture.lent_twice 2) 2)).
    vm_compute. reflexivity.
Defined.


(** ** C2: lending a book without available copy *)

(** Lending a book whose counter is at zero (or below) fails and writes
    nothing, but the handler's own availability test never fires: the
    failure comes from an earlier or later test, in the end from the CHECK
    constraint that the trigger's decrement violates. *)
Lemma lend_without_available_copy db now bookId memberId dueDate b :
  books db !! bookId = Some b -> available_copies b <= 0 ->
  (transactions_lend db now bookId memberId dueDate).1 = db
  /\ exists e, (transactions_lend db now bookId memberId dueDate).2 = Failure e
       /\ (e = Msg "Book ID and Member ID are required"
           \/ e = Msg "Member not found"
           \/ e = CheckFailed "chk_due_date_after_lend"
           \/ e = CheckFailed "chk_available_copies").
Proof.
  intros Hb Ha. unfold transactions_lend.
  destruct ((bookId =? 0) || (memberId =? 0)); [cbn; eauto 10|].
  unfold getBookById. rewrite Hb, book_object_availableCopies. cbn [js_le].
  destruct (getMemberById db memberId) as [member|]; [|cbn; eauto 10].
  unfold createTransaction. cbn [transactionData.bookId transactionData.memberId
    transactionData.dueDate transactionData.notes].
  destruct (check_transaction _) as [c|] eqn:Hc.
  { cbn. split; [done|]. eexists. split; [done|].
    unfold check_transaction in Hc. cbn in Hc.
    destruct (_ <? _) in Hc; cbn in Hc; [discriminate|]. injection Hc as <-. tauto. }
  cbn [book_id t_member_id lend_row transactionData.bookId transactionData.memberId].
  unfold update_book_status_on_lend. rewrite Hb.
  unfold check_book_counters. cbn [total_copies available_copies set_book_counters].
  destruct (0 <=? available_copies b - 1) eqn:Hz; [lia|]. cbn. eauto 10.
Qed.

(** C2 (the code at the failing input).  Ann holds the only copy; Bob's
    lend call a day later fails and creates no transaction row, but the
    error is the store's CHECK failure, not "Book is not available for
    lending". *)
Theorem lend_unavailable_reports_check_failure :
  transactions_lend (fixture.lent_once 1) (fixture.at_day 1) 1 2 None
  = (fixture.lent_once 1, Failure (CheckFailed "chk_available_copies"))
  /\ available_copies <$> books (fixture.lent_once 1) !! 1 = Some 0.
Proof. split; vm_compute; reflexivity. Qed.

(** ** C3: the grace period *)

(** The fine does not depend on any configured grace period. *)
Lemma fineAmount_ignores_gracePeriod s memberType due now :
  fineAmount (mkSettings (fmap (M := gmap string) clear_gracePeriod <$> fineRules s)
                         (lendingPeriods s))
             memberType due now
  = fineAmount s memberType due now.
Proof.
  unfold fineAmount. cbn [fineRules].
  destruct (_ <? _); [|done]. destruct (0 <? _); [|done].
  destruct (fineRules s) as [rules|]; [|done]. cbn.
  rewrite lookup_fmap. by destruct (rules !! _).
Qed.

(** C3 (the code at the failing input).  Ann is a faculty member, whose
    seeded grace period is 3 days; she returns the book 2 whole days after
    the due date and is fined 2 * 3 = 6. *)
Theorem return_within_grace_period_is_fined :
  ((fixture.seed_settings.(fineRules) ≫= (.!! "faculty")) ≫= gracePeriod) = Some 3
  /\ due_date <$> transactions (fixture.lent_once 1) !! 1 = Some (Some (fixture.day0 + 14))
  /\ day_of (fixture.at_day 16) = fixture.day0 + 14 + 2
  /\ succeeded (transactions_return (fixture.lent_once 1) (fixture.at_day 16) 1).2 = true
  /\ fine_amount <$>
       transactions (transactions_return (fixture.lent_once 1) (fixture.at_day 16) 1).1 !! 1
     = Some 6.
Proof. repeat split; vm_compute; reflexivity. Qed.

(** ** C6: the default due date *)

(** The lending period is looked up under the key ["undefined"], whatever
    the member's type. *)
Lemma lending_period_key s member :
  lending_period s member
  = js_or (default default_lendingPeriods (lendingPeriods s) !! "undefined") 14.
Proof. unfold lending_period. by rewrite member_object_memberType. Qed.

Lemma lending_period_defaults member : lending_period (mkSettings None None) member = 14.
Proof. rewrite lending_period_key. vm_compute. reflexivity. Qed.

(** C6 (the code at the failing input).  Ann is a faculty member and the
    seeded lending period of faculty is 30 days; her loan without explicit
    due date, made on day [day0], is due on [day0 + 14]. *)
Theorem faculty_loan_due_after_14_days :
  member_type <$> members fixture.empty_ledger !! 1 = Some faculty
  /\ (lendingPeriods fixture.seed_settings ≫= (.!! "faculty")) = Some 30
  /\ (transaction_date <$> transactions (fixture.lent_once 1) !! 1) = Some fixture.t0
  /\ day_of fixture.t0 = fixture.day0
  /\ due_date <$> transactions (fixture.lent_once 1) !! 1 = Some (Some (fixture.day0 + 14)).
Proof. repeat split; vm_compute; reflexivity. Qed.

(** ** C4: the fine recorded at return time *)

(** [v || fallback] yields the configured number unless it is missing or
    0, and the fallback then. *)
Lemma js_or_in_force (v : option Z) (fallback x : Z) :
  (v = Some x /\ x <> 0) \/ ((v = None \/ v = Some 0) /\ x = fallback) ->
  js_or v fallback = x.
Proof.
  intros [[-> Hx]|[[->| ->] ->]]; cbn; [|done..].
  destruct (x =? 0) eqn:He; [lia|done].
Qed.



Lemma day_of_after_due now d : d * msPerDay < now -> d <= day_of now.
Proof.
  intros Hlt. unfold day_of, msPerDay in *.
  rewrite <- (Z.div_mul d 86400000) at 1 by lia. apply Z.div_le_mono; lia.
Qed.

Section fine_parameters.
Variables (s : Settings) (memberType : MemberType).
Variables (rule : option FineRule) (rate cap : Z).

(* the rule of the member type: its entry in the fineRules setting, or the
   built-in one where there is no such setting *)
Hypothesis Hrule :
  (exists rules, fineRules s = Some rules /\ rule = rules !! member_type_text memberType)
  \/ (fineRules s = None
      /\ rule = Some (match memberType with
                      | student => mkFineRule (Some 5) None (Some 500)
                      | faculty => mkFineRule (Some 3) None (Some 300)
                      | public => mkFineRule (Some 10) None (Some 1000)
                      end)).
(* its rate and its cap; 5 and 500 stand in for a missing or zero value *)
Hypothesis Hrate :
  (rule ≫= dailyRate = Some rate /\ rate <> 0)
  \/ ((rule ≫= dailyRate = None \/ rule ≫= dailyRate = Some 0) /\ rate = 5).
Hypothesis Hcap :
  (rule ≫= maxFine = Some cap /\ cap <> 0)
  \/ ((rule ≫= maxFine = None \/ rule ≫= maxFine = Some 0) /\ cap = 500).

Lemma fineAmount_eq due now :
  fineAmount s memberType due now
  = if due_instant due <? now then
      if 0 <? differenceInDays now (due_instant due)
      then Z.min (differenceInDays now (due_instant due) * rate) cap
      else 0
    else 0.
Proof.
  unfold fineAmount.
  destruct (due_instant due <? now); [|done].
  destruct (0 <? differenceInDays now (due_instant due)); [|done].
  cbn zeta.
  assert (default default_fineRules (fineRules s) !! member_type_text memberType = rule)
    as ->.
  { destruct Hrule as [(rules & -> & ->)|[-> ->]]; [done|].
    destruct memberType; vm_compute; reflexivity. }
  by rewrite (js_or_in_force _ 5 rate Hrate), (js_or_in_force _ 500 cap Hcap).
Qed.


End fine_parameters.


(** Scenario A, step by step: the lend leaves no copy and the status
    [loaned]; the return on day [day0 + 20], 6 days late, is fined
    [6 * 5 = 30] and leaves one copy and the status [available]. *)
Example scenario_A_trace :
  (fun b => (total_copies b, available_copies b, status b))
    <$> books (fixture.one_book 1) !! 1 = Some (1, 1, available)
  /\ (fun b => (total_copies b, available_copies b, status b))
        <$> books scenario_A !! 1 = Some (1, 0, loaned)
  /\ (fun t => (transaction_type t, due_date t, return_date t, fine_amount t))
        <$> transactions scenario_A !! 1
      = Some (lend, Some (fixture.day0 + 14), None, 0)
  /\ (fun t => (transaction_type t, due_date t, return_date t, fine_amount t))
        <$> transactions (transactions_return scenario_A (fixture.at_day 20) 1).1 !! 1
      = Some (ret, Some (fixture.day0 + 14), Some (fixture.at_day 20), 30)
  /\ (fun b => (total_copies b, available_copies b, status b))
        <$> books (transactions_return scenario_A (fixture.at_day 20) 1).1 !! 1
      = Some (1, 1, available).
Proof. repeat split; vm_compute; reflexivity. Qed.



(** ** C5: returning twice, returning what does not exist *)




(** ** C7: a return frees one copy and resets the status *)

(** C7.  A successful return of transaction [id] sets the status of the
    transaction's book to [available], whatever the number of its copies
    still on loan, and adds exactly 1 to its [available_copies]; the
    addition is stated of a counter the column holds exactly, an integer
    from 0 to below [2 ^ 63 - 1]. *)
Theorem return_frees_one_copy (db : Database) (now id : Z) (db' : Database)
    (r : option TransactionObject) :
  transactions_return db now id = (db', Success r) ->
  exists t b b',
    transactions db !! id = Some t
    /\ books db !! book_id t = Some b
    /\ books db' !! book_id t = Some b'
    /\ (0 <= available_copies b < 2 ^ 63 - 1 ->
        available_copies b' = available_copies b + 1)
    /\ status b' = available
    /\ total_copies b' = total_copies b.
Proof.
  intros (t & b & m & _ & Ht & Hb & _ & Hr & Hret)%transactions_return_Success.
  apply returnBook_Returns in Hret as (old & Hold & _ & _ & _ & _ & _ & Hbks).
  rewrite Ht in Hold. injection Hold as <-. rewrite Hr, Hb in Hbks. destruct Hbks as [Hbks _].
  exists t, b, (set_book_counters b (available_copies b + 1) available now).
  rewrite Hbks, lookup_insert_eq. by cbn.
Qed.

(** The theorem at the ledger where Ann and Bob each hold one of the two
    copies (status [loaned], no copy available): Ann returns hers, Bob's
    loan stays open, and the status is [available]. *)
Lemma return_frees_one_copy_witness :
  (exists t b b',
     transactions (fixture.lent_twice 2) !! 1 = Some t
     /\ books (fixture.lent_twice 2) !! book_id t = Some b
     /\ books (transactions_return (fixture.lent_twice 2) (fixture.at_day 3) 1).1 !! book_id t
        = Some b'
     /\ (0 <= available_copies b < 2 ^ 63 - 1 ->
         available_copies b' = available_copies b + 1)
     /\ status b' = available
     /\ total_copies b' = total_copies b)
  /\ (fun b => (available_copies b, status b)) <$> books (fixture.lent_twice 2) !! 1
     = Some (0, loaned)
  /\ (fun b => (available_copies b, status b))
       <$> books (transactions_return (fixture.lent_twice 2) (fixture.at_day 3) 1).1 !! 1
     = Some (1, available)
  /\ count_open_book
       (transactions (transactions_return (fixture.lent_twice 2) (fixture.at_day 3) 1).1) 1
     = 1.
Proof.
  split; [|split; [|split]; vm_compute; reflexivity].
  apply (return_frees_one_copy (fixture.lent_twice 2) (fixture.at_day 3) 1
           (transactions_return (fixture.lent_twice 2) (fixture.at_day 3) 1).1
           (getTransactionById
              (transactions_return (fixture.lent_twice 2) (fixture.at_day 3) 1).1 1)).
  vm_compute. reflexivity.
Defined.

(** ** C9: deleting a book or a member *)

Lemma count_open_member_return txs i now fine old m :
  txs !! i = Some old -> open_loan old ->
  count_open_member (<[i := returned_row now fine old]> txs) m
  = count_open_member txs m - (if decide (t_member_id old = m) then 1 else 0).
Proof.
  intros Hi Ho. rewrite count_open_member_insert, Hi. cbn.
  rewrite (decide_False (P := _ /\ open_loan (returned_row now fine old))).
  2: { intros [_ [Ht _]]. discriminate. }
  destruct (decide (t_member_id old = m)) as [Hb|Hb].
  - rewrite decide_True; [lia|]. by split.
  - rewrite decide_False; [lia|]. intros [? _]. done.
Qed.

(** A successful return of an open loan takes it off the open loans of its
    book and of its member, and removes neither of them. *)
Lemma return_closes_loan db now id db' r t :
  transactions_return db now id = (db', Success r) ->
  transactions db !! id = Some t -> transaction_type t = lend ->
  count_open_book (transactions db') (book_id t)
    = count_open_book (transactions db) (book_id t) - 1
  /\ count_open_member (transactions db') (t_member_id t)
    = count_open_member (transactions db) (t_member_id t) - 1
  /\ is_Some (books db' !! book_id t)
  /\ is_Some (members db' !! t_member_id t).
Proof.
  intros (t0 & b & m & _ & Ht0 & Hb & Hm & Hr & Hret)%transactions_return_Success Ht Hty.
  rewrite Ht in Ht0. injection Ht0 as <-.
  apply returnBook_Returns in Hret as (old & Hold & _ & Htxs & Hms & _ & _ & Hbks).
  rewrite Ht in Hold. injection Hold as <-. rewrite Hr, Hb in Hbks. destruct Hbks as [Hbks _].
  assert (open_loan t) as Hopen by done.
  rewrite Htxs, (count_open_book_return _ _ _ _ t), (count_open_member_return _ _ _ _ t) by done.
  rewrite !decide_True by done. rewrite Hbks, lookup_insert_eq, Hms, Hm. eauto.
Qed.

(** C9.  While a book (a member) has an open loan, deleting it fails with
    "Cannot delete book (member) with active loans" and the database is
    unchanged; once it has none, deleting the existing record succeeds and
    removes it; and each successful return of an open loan takes one off
    the open loans of its book and member, leaving both in place. *)
Theorem delete_guard (db : Database) (id : Z) :
  (0 < count_open_book (transactions db) id ->
     deleteBook db id = Throws (Msg "Cannot delete book with active loans")
     /\ books_delete db id = (db, Failure (Msg "Cannot delete book with active loans")))
  /\ (0 < count_open_member (transactions db) id ->
        deleteMember db id = Throws (Msg "Cannot delete member with active loans")
        /\ members_delete db id = (db, Failure (Msg "Cannot delete member with active loans")))
  /\ (count_open_book (transactions db) id = 0 -> is_Some (books db !! id) ->
        exists db', deleteBook db id = Returns (db', true)
                    /\ books_delete db id = (db', Success tt)
                    /\ books db' !! id = None)
  /\ (count_open_member (transactions db) id = 0 -> is_Some (members db !! id) ->
        exists db', deleteMember db id = Returns (db', true)
                    /\ members_delete db id = (db', Success tt)
                    /\ members db' !! id = None)
  /\ (forall now db' r t,
        transactions_return db now id = (db', Success r) ->
        transactions db !! id = Some t -> transaction_type t = lend ->
        count_open_book (transactions db') (book_id t)
          = count_open_book (transactions db) (book_id t) - 1
        /\ count_open_member (transactions db') (t_member_id t)
          = count_open_member (transactions db) (t_member_id t) - 1
        /\ is_Some (books db' !! book_id t)
        /\ is_Some (members db' !! t_member_id t)).
Proof.
  repeat apply conj.
  - intros Hc. unfold books_delete, deleteBook.
    apply Z.ltb_lt in Hc. by rewrite Hc.
  - intros Hc. unfold members_delete, deleteMember.
    apply Z.ltb_lt in Hc. by rewrite Hc.
  - intros Hc [b Hb]. unfold books_delete, deleteBook. rewrite Hc, Hb. cbn.
    eexists. repeat split. cbn. apply lookup_delete_eq.
  - intros Hc [m Hm]. unfold members_delete, deleteMember. rewrite Hc, Hm. cbn.
    eexists. repeat split. cbn. apply lookup_delete_eq.
  - intros now db' r t. apply return_closes_loan.
Qed.

(** The theorem at Scenario A (Scenario C of the specification): while Bob
    holds the book neither can be deleted; after the return both can. *)
Lemma delete_guard_witness :
  (deleteBook scenario_A 1 = Throws (Msg "Cannot delete book with active loans")
   /\ books_delete scenario_A 1
      = (scenario_A, Failure (Msg "Cannot delete book with active loans")))
  /\ (deleteMember scenario_A 2 = Throws (Msg "Cannot delete member with active loans")
      /\ members_delete scenario_A 2
         = (scenario_A, Failure (Msg "Cannot delete member with active loans")))
  /\ (count_open_book (transactions scenario_A_returned) (book_id scenario_A_loan)
        = count_open_book (transactions scenario_A) (book_id scenario_A_loan) - 1
      /\ count_open_member (transactions scenario_A_returned) (t_member_id scenario_A_loan)
        = count_open_member (transactions scenario_A) (t_member_id scenario_A_loan) - 1
      /\ is_Some (books scenario_A_returned !! book_id scenario_A_loan)
      /\ is_Some (members scenario_A_returned !! t_member_id scenario_A_loan))
  /\ (exists db', deleteBook scenario_A_returned 1 = Returns (db', true)
                  /\ books_delete scenario_A_returned 1 = (db', Success tt)
                  /\ books db' !! 1 = None)
  /\ (exists db', deleteMember scenario_A_returned 2 = Returns (db', true)
                  /\ members_delete scenario_A_returned 2 = (db', Success tt)
                  /\ members db' !! 2 = None).
Proof.
  repeat apply conj.
  - apply (proj1 (delete_guard scenario_A 1)). vm_compute. reflexivity.
  - apply (proj1 (delete_guard scenario_A 1)). vm_compute. reflexivity.
  - apply (proj1 (proj2 (delete_guard scenario_A 2))). vm_compute. reflexivity.
  - apply (proj1 (proj2 (delete_guard scenario_A 2))). vm_compute. reflexivity.
  - apply (proj2 (proj2 (proj2 (proj2 (delete_guard scenario_A 1)))) (fixture.at_day 3)
             scenario_A_returned (getTransactionById scenario_A_returned 1) scenario_A_loan);
      vm_compute; reflexivity.
  - apply (proj2 (proj2 (proj2 (proj2 (delete_guard scenario_A 1)))) (fixture.at_day 3)
             scenario_A_returned (getTransactionById scenario_A_returned 1) scenario_A_loan);
      vm_compute; reflexivity.
  - apply (proj2 (proj2 (proj2 (proj2 (delete_guard scenario_A 1)))) (fixture.at_day 3)
             scenario_A_returned (getTransactionById scenario_A_returned 1) scenario_A_loan);
      vm_compute; reflexivity.
  - apply (proj2 (proj2 (proj2 (proj2 (delete_guard scenario_A 1)))) (fixture.at_day 3)
             scenario_A_returned (getTransactionById scenario_A_returned 1) scenario_A_loan);
      vm_compute; reflexivity.
  - apply (proj1 (proj2 (proj2 (delete_guard scenario_A_returned 1)))).
    + vm_compute. reflexivity.
    + vm_compute. eexists. reflexivity.
  - apply (proj1 (proj2 (proj2 (proj2 (delete_guard scenario_A_returned 2))))).
    + vm_compute. reflexivity.
    + vm_compute. eexists. reflexivity.
Defined.

(** ** C8: the read-only projections *)

Lemma joined_Some db kt r :
  joined db kt = Some r <->
  exists b m, books db !! book_id kt.2 = Some b /\ members db !! t_member_id kt.2 = Some m
              /\ r = (kt.1, kt.2, b, m).
Proof.
  unfold joined. destruct (books db !! _) as [b|], (members db !! _) as [m|]; split.
  all: try (intros [= <-]; eauto).
  all: try (intros (b' & m' & [= ] & [= ] & ->); subst; done).
  all: try done.
  all: intros (b' & m' & ? & ? & _); done.
Qed.

Lemma elem_of_getOverdueTransactions db now o :
  o ∈ (getOverdueTransactions db now).2 <->
  exists id t b m,
    transactions db !! id = Some t /\ open_loan t /\ due_before_today now t = true
    /\ books db !! book_id t = Some b /\ members db !! t_member_id t = Some m
    /\ o = overdue_object now (id, t, b, m).
Proof.
  unfold getOverdueTransactions. cbn [snd]. rewrite merge_sort_Permutation, list_elem_of_fmap.
  split.
  - intros (r & -> & (kt & Hkt & Hj)%list_elem_of_omap).
    apply list_elem_of_filter in Hkt as [[Ho Hd] Hin].
    destruct kt as [id t]. apply elem_of_map_to_list in Hin.
    apply joined_Some in Hj as (b & m & Hb & Hm & ->). cbn in *. eauto 10.
  - intros (id & t & b & m & Ht & Ho & Hd & Hb & Hm & ->).
    exists (id, t, b, m). split; [done|].
    apply list_elem_of_omap. exists (id, t). split.
    + apply list_elem_of_filter. split; [done|]. by apply elem_of_map_to_list.
    + apply joined_Some. exists b, m. done.
Qed.

Lemma elem_of_overdue_loans db now o :
  o ∈ overdue_loans db now <->
  exists id t b m,
    transactions db !! id = Some t /\ open_loan t /\ due_before_today now t = true
    /\ books db !! book_id t = Some b /\ members db !! t_member_id t = Some m
    /\ o = active_loans_row now (id, t, b, m).
Proof.
  unfold overdue_loans, active_loans. rewrite list_elem_of_filter, list_elem_of_fmap.
  split.
  - intros [Hd (r & -> & (kt & Hkt & Hj)%list_elem_of_omap)].
    apply list_elem_of_filter in Hkt as [Ho Hin].
    destruct kt as [id t]. apply elem_of_map_to_list in Hin.
    apply joined_Some in Hj as (b & m & Hb & Hm & ->). cbn in *. eauto 10.
  - intros (id & t & b & m & Ht & Ho & Hd & Hb & Hm & ->). split; [done|].
    exists (id, t, b, m). split; [done|].
    apply list_elem_of_omap. exists (id, t). split.
    + apply list_elem_of_filter. split; [done|]. by apply elem_of_map_to_list.
    + apply joined_Some. exists b, m. done.
Qed.

Lemma due_before_today_spec now t :
  due_before_today now t = true <-> exists d, due_date t = Some d /\ d < day_of now.
Proof.
  unfold due_before_today. destruct (due_date t) as [d|]; split.
  - intros Hd%Z.ltb_lt. eauto.
  - intros (d' & [= <-] & Hd). by apply Z.ltb_lt.
  - done.
  - intros (d' & [= ] & _).
Qed.

(** The annotation is the time elapsed since the due day's midnight, in
    days; its whole part is the difference of the calendar days. *)
Lemma days_overdue_spec now t d :
  due_date t = Some d ->
  exists q, days_overdue now t = Some q
            /\ (q == inject_Z (now - d * msPerDay) / inject_Z msPerDay)%Q
            /\ Qfloor q = day_of now - d.
Proof.
  intros Hd. unfold days_overdue. rewrite Hd. eexists. split; [done|]. split.
  - unfold julianday_diff. apply Qmake_Qdiv.
  - unfold julianday_diff, Qfloor, day_of, msPerDay. cbn [Z.to_pos].
    replace (now - d * 86400000) with (now + (- d) * 86400000) by lia.
    rewrite Z.div_add by lia. lia.
Qed.

(** C8 (as amended).  The two projections return the database as it was.
    An open loan (with its book and member) is in the overdue projection
    exactly when its due date is strictly before the current date.  Each
    row of the overdue projection is such a loan, and its [days_overdue] is
    the time from the due date's midnight to the current instant, in
    fractional days: its whole part is current date minus due date.  The
    same holds for the view [overdue_loans]. *)
Theorem overdue_projection (db : Database) (now : Z) :
  (getActiveTransactions db now).1 = db
  /\ (getOverdueTransactions db now).1 = db
  /\ (forall id t b m,
        transactions db !! id = Some t -> open_loan t ->
        books db !! book_id t = Some b -> members db !! t_member_id t = Some m ->
        ((exists o, o ∈ (getOverdueTransactions db now).2 /\ lo_id o = id /\ lo_row o = t)
         <-> (exists d, due_date t = Some d /\ d < day_of now))
        /\ ((exists o, o ∈ overdue_loans db now /\ lo_id o = id /\ lo_row o = t)
            <-> (exists d, due_date t = Some d /\ d < day_of now)))
  /\ (forall o,
        o ∈ (getOverdueTransactions db now).2 \/ o ∈ overdue_loans db now ->
        transactions db !! lo_id o = Some (lo_row o)
        /\ open_loan (lo_row o)
        /\ exists d q,
             due_date (lo_row o) = Some d /\ d < day_of now
             /\ lo_days_overdue o = Some q
             /\ (q == inject_Z (now - d * msPerDay) / inject_Z msPerDay)%Q
             /\ Qfloor q = day_of now - d).
Proof.
  repeat apply conj; try reflexivity.
  - intros id t b m Ht Ho Hb Hm. rewrite <- due_before_today_spec. split; split.
    + intros (o & (id' & t' & b' & m' & Ht' & _ & Hd & _ & _ & ->)%elem_of_getOverdueTransactions
                & Hid & Hrow).
      cbn in Hid, Hrow. by subst.
    + intros Hd. exists (overdue_object now (id, t, b, m)). split; [|done].
      apply elem_of_getOverdueTransactions. eauto 10.
    + intros (o & (id' & t' & b' & m' & Ht' & _ & Hd & _ & _ & ->)%elem_of_overdue_loans
                & Hid & Hrow).
      cbn in Hid, Hrow. by subst.
    + intros Hd. exists (active_loans_row now (id, t, b, m)). split; [|done].
      apply elem_of_overdue_loans. eauto 10.
  - intros o Ho.
    assert (exists id t,
              transactions db !! id = Some t /\ open_loan t /\ due_before_today now t = true
              /\ lo_id o = id /\ lo_row o = t /\ lo_days_overdue o = days_overdue now t)
      as (id & t & Ht & Hopen & Hd & Hid & Hrow & Hq).
    { destruct Ho as [Ho|Ho].
      - apply elem_of_getOverdueTransactions in Ho
          as (id & t & b & m & Ht & Hopen & Hd & _ & _ & ->).
        exists id, t. done.
      - apply elem_of_overdue_loans in Ho
          as (id & t & b & m & Ht & Hopen & Hd & _ & _ & ->).
        exists id, t. done. }
    rewrite Hid, Hrow, Hq. repeat split; try done; try apply Hopen.
    apply due_before_today_spec in Hd as (d & Hd & Hlt).
    destruct (days_overdue_spec now t d Hd) as (q & Hq' & Heq & Hfl).
    exists d, q. done.
Qed.

(** The theorem at Scenario A, at noon of day [day0 + 16]. *)
Lemma overdue_projection_witness :
  (((exists o, o ∈ (getOverdueTransactions scenario_A noon_day16).2
               /\ lo_id o = 1 /\ lo_row o = scenario_A_loan)
    <-> (exists d, due_date scenario_A_loan = Some d /\ d < day_of noon_day16))
   /\ ((exists o, o ∈ overdue_loans scenario_A noon_day16
                  /\ lo_id o = 1 /\ lo_row o = scenario_A_loan)
       <-> (exists d, due_date scenario_A_loan = Some d /\ d < day_of noon_day16)))
  /\ (exists d, due_date scenario_A_loan = Some d /\ d < day_of noon_day16).
Proof.
  split.
  - pose proof (overdue_projection scenario_A noon_day16) as (_ & _ & H & _).
    eapply (H 1 scenario_A_loan).
    + vm_compute. reflexivity.
    + split; reflexivity.
    + vm_compute. reflexivity.
    + vm_compute. reflexivity.
  - exists (fixture.day0 + 14). split; [reflexivity|]. vm_compute. reflexivity.
Defined.

(** C8 (as stated) fails: at noon of day [day0 + 16] the loan due on day
    [day0 + 14] is annotated with 216000000 / 86400000 = 2.5 days, while
    current date minus due date is 2 days. *)
Lemma days_overdue_is_fractional :
  (fun o => (lo_id o, due_date (lo_row o), lo_days_overdue o))
    <$> (getOverdueTransactions scenario_A noon_day16).2
  = [(1, Some (fixture.day0 + 14), Some (216000000 # 86400000)%Q)]
  /\ day_of noon_day16 - (fixture.day0 + 14) = 2
  /\ Qeq_bool (216000000 # 86400000) (inject_Z 2) = false
  /\ Qeq_bool (216000000 # 86400000) (5 # 2) = true.
Proof. repeat split; vm_compute; reflexivity. Qed.

(** ** C10: what updateBook writes *)

(** C10.  A successful [updateBook] on book [id] writes the descriptive
    columns and [total_copies] from [bookData] and keeps [available_copies]
    and [status]; of the two timestamps of the row, which are not among
    the attributes of a book, it keeps [created_at] and sets [updated_at]
    to the current instant; every other book, and the members,
    transactions and settings, are as they were.  And whatever step writes
    the store, a book that is there before and after it has kept its
    [available_copies] and [status] unless the step is a successful lend
    of that book or a successful return of one of its loans. *)
Theorem updateBook_frame (db : Database) :
  (forall now id data db' o,
     updateBook db now id data = Returns (db', o) ->
     exists old new,
       books db !! id = Some old
       /\ books db' !! id = Some new
       /\ (forall j, j <> id -> books db' !! j = books db !! j)
       /\ members db' = members db
       /\ transactions db' = transactions db
       /\ settings db' = settings db
       /\ available_copies new = available_copies old
       /\ status new = status old
       /\ created_at new = created_at old
       /\ updated_at new = now
       /\ title new = bookData.title data
       /\ authors new = bookData.authors data
       /\ isbn new = js_or_null (bookData.isbn data)
       /\ publisher new = js_or_null (bookData.publisher data)
       /\ publication_year new = js_or_null_num (bookData.publicationYear data)
       /\ genres new = bookData.genres data
       /\ language new = js_or_string (bookData.language data) "en"
       /\ total_copies new = bookData.totalCopies data
       /\ location new = js_or_null (bookData.location data)
       /\ tags new = bookData.tags data
       /\ description new = js_or_null (bookData.description data)
       /\ cover_image_path new = js_or_null (bookData.coverImagePath data))
  /\ (forall db', store_step db db' ->
        forall j b b', books db !! j = Some b -> books db' !! j = Some b' ->
          (available_copies b' = available_copies b /\ status b' = status b)
          \/ (exists now memberId dueDate r,
                transactions_lend db now j memberId dueDate = (db', Success r))
          \/ (exists now k t r,
                transactions db !! k = Some t /\ book_id t = j
                /\ transactions_return db now k = (db', Success r))).
Proof.
  assert (forall now id data db' o,
            updateBook db now id data = Returns (db', o) ->
            forall j b b', books db !! j = Some b -> books db' !! j = Some b' ->
              available_copies b' = available_copies b /\ status b' = status b) as Hupdate.
  { intros now id data db' o (old & Hold & Hbks & _)%updateBook_Returns j b b' Hb Hb'.
    rewrite Hbks in Hb'. destruct (decide (j = id)) as [Heq|Hne].
    - rewrite Heq in Hb, Hb'. rewrite lookup_insert_eq in Hb'.
      rewrite Hold in Hb. injection Hb as <-. by injection Hb' as <-.
    - rewrite lookup_insert_ne in Hb' by done. rewrite Hb in Hb'. by injection Hb' as <-. }
  split.
  - intros now id data db' o (old & Hold & Hbks & Hms & Htxs & Hst & _)%updateBook_Returns.
    exists old. eexists. rewrite Hbks, lookup_insert_eq.
    repeat split; try done.
    intros j Hj. by rewrite lookup_insert_ne.
  - intros db' Hstep j b b' Hb Hb'.
    destruct Hstep as [db1 Hstep|now id data db1 o Hu]; [|left; by eapply Hupdate].
    destruct Hstep as [now data db1 o Hc|now id data db1 o old Hold Hsame Hu
                      |now bookId memberId dueDate db1 r Hl|now k db1 r Hr
                      |id db1 r Hd|id db1 r Hd|ms st].
    + left. apply createBook_Returns in Hc as (row & Hbks & _).
      pose proof (next_rowid_fresh (seq_books db) (books db)) as Hfresh.
      rewrite Hbks, lookup_insert_ne in Hb' by congruence.
      rewrite Hb in Hb'. by injection Hb' as <-.
    + left. by eapply Hupdate.
    + destruct (decide (j = bookId)) as [Heq|Hne].
      * right. left. rewrite Heq. eauto.
      * left. apply transactions_lend_Success in Hl as (member & due & notes & _ & _ & Hc).
        apply createTransaction_Returns in Hc as (b0 & _ & _ & _ & Hbks & _).
        cbn [transactionData.bookId] in Hbks.
        rewrite Hbks, lookup_insert_ne in Hb' by done.
        rewrite Hb in Hb'. by injection Hb' as <-.
    + pose proof Hr as (t & b0 & m & _ & Ht & Hb0 & _ & Hnone & Hret)%transactions_return_Success.
      destruct (decide (j = book_id t)) as [Heq|Hne].
      * right. right. exists now, k, t, r. done.
      * left. apply returnBook_Returns in Hret as (old & Hold & _ & _ & _ & _ & _ & Hbks).
        rewrite Ht in Hold. injection Hold as <-. rewrite Hnone, Hb0 in Hbks.
        destruct Hbks as [Hbks _].
        rewrite Hbks, lookup_insert_ne in Hb' by done.
        rewrite Hb in Hb'. by injection Hb' as <-.
    + left. apply deleteBook_Returns in Hd as (_ & _ & Hbks & _).
      rewrite Hbks in Hb'. apply lookup_delete_Some in Hb' as [_ Hb'].
      rewrite Hb in Hb'. by injection Hb' as <-.
    + left. apply deleteMember_Returns in Hd as (_ & _ & Hbks & _).
      rewrite Hbks, Hb in Hb'. by injection Hb' as <-.
    + left. cbn in Hb'. rewrite Hb in Hb'. by injection Hb' as <-.
Qed.

(** The theorem at that edit: the book has three copies, one of them
    available as before the edit. *)
Lemma updateBook_frame_witness :
  (exists old new,
     books (fixture.one_book 1) !! 1 = Some old
     /\ books (fixture.after (fixture.one_book 1) edited_a_day_later) !! 1 = Some new
     /\ (forall j, j <> 1 ->
           books (fixture.after (fixture.one_book 1) edited_a_day_later) !! j
           = books (fixture.one_book 1) !! j)
     /\ members (fixture.after (fixture.one_book 1) edited_a_day_later)
        = members (fixture.one_book 1)
     /\ transactions (fixture.after (fixture.one_book 1) edited_a_day_later)
        = transactions (fixture.one_book 1)
     /\ settings (fixture.after (fixture.one_book 1) edited_a_day_later)
        = settings (fixture.one_book 1)
     /\ available_copies new = available_copies old
     /\ status new = status old
     /\ created_at new = created_at old
     /\ updated_at new = fixture.at_day 1
     /\ title new = bookData.title (fixture.book_data 3)
     /\ authors new = bookData.authors (fixture.book_data 3)
     /\ isbn new = js_or_null (bookData.isbn (fixture.book_data 3))
     /\ publisher new = js_or_null (bookData.publisher (fixture.book_data 3))
     /\ publication_year new = js_or_null_num (bookData.publicationYear (fixture.book_data 3))
     /\ genres new = bookData.genres (fixture.book_data 3)
     /\ language new = js_or_string (bookData.language (fixture.book_data 3)) "en"
     /\ total_copies new = bookData.totalCopies (fixture.book_data 3)
     /\ location new = js_or_null (bookData.location (fixture.book_data 3))
     /\ tags new = bookData.tags (fixture.book_data 3)
     /\ description new = js_or_null (bookData.description (fixture.book_data 3))
     /\ cover_image_path new = js_or_null (bookData.coverImagePath (fixture.book_data 3)))
  /\ (fun b => (total_copies b, available_copies b, status b))
       <$> books (fixture.after (fixture.one_book 1) edited_a_day_later) !! 1
     = Some (3, 1, available).
Proof.
  split; [|vm_compute; reflexivity].
  apply (proj1 (updateBook_frame (fixture.one_book 1))
           (fixture.at_day 1) 1 (fixture.book_data 3)
           (fixture.after (fixture.one_book 1) edited_a_day_later)
           (getBookById (fixture.after (fixture.one_book 1) edited_a_day_later) 1)).
  vm_compute. reflexivity.
Defined.

(** * Further properties of the ledger *)

(** ** What the CHECK constraints give *)

Lemma check_book_None now b :
  check_book now b = None ->
  0 < total_copies b /\ 0 <= available_copies b <= total_copies b.
Proof.
  unfold check_book. intros Hc.
  repeat match type of Hc with
         | (if negb ?c then _ else _) = _ => destruct c eqn:?; cbn in Hc; [|discriminate]
         end.
  lia.
Qed.

Lemma check_transaction_None t :
  check_transaction t = None ->
  0 <= fine_amount t
  /\ (forall d, due_date t = Some d -> day_of (transaction_date t) < d)
  /\ (forall r, return_date t = Some r -> transaction_date t <= r).
Proof.
  unfold check_transaction. intros Hc.
  destruct (0 <=? fine_amount t) eqn:Hf; cbn in Hc; [|discriminate].
  destruct (due_date t) as [d|].
  - destruct (day_of (transaction_date t) <? d) eqn:Hd; cbn in Hc; [|discriminate].
    destruct (return_date t) as [r|].
    + destruct (transaction_date t <=? r) eqn:Hr; cbn in Hc; [|discriminate].
      repeat split; [lia| |]; intros ? [= <-]; lia.
    + repeat split; [lia| |]; intros ? [= ]. lia.
  - destruct (return_date t) as [r|].
    + destruct (transaction_date t <=? r) eqn:Hr; cbn in Hc; [|discriminate].
      repeat split; [lia| |]; intros ? [= ]. lia.
    + repeat split; [lia| |]; intros ? [= ].
Qed.

Lemma createBook_checked db now data db' o :
  createBook db now data = Returns (db', o) ->
  0 < bookData.totalCopies data.
Proof.
  unfold createBook.
  destruct (check_book _ _) eqn:Hc; [discriminate|]. intros _.
  apply check_book_None in Hc. cbn in Hc. lia.
Qed.

Lemma createTransaction_checked db now data db' o :
  createTransaction db now data = Returns (db', o) ->
  check_transaction (lend_row now data) = None.
Proof.
  unfold createTransaction. cbn zeta.
  by destruct (check_transaction _).
Qed.

Lemma returnBook_checked db now id fine db' o old :
  returnBook db now id fine = Returns (db', o) ->
  transactions db !! id = Some old ->
  0 <= fine /\ transaction_date old <= now.
Proof.
  unfold returnBook. intros Hr Hold. rewrite Hold in Hr. cbn zeta in Hr.
  destruct (check_transaction_on_return _) eqn:Hc; [discriminate|].
  unfold check_transaction_on_return in Hc. cbn in Hc.
  destruct (0 <=? fine) eqn:Hf; cbn in Hc; [|discriminate].
  destruct (transaction_date old <=? now) eqn:Hd; cbn in Hc; [|discriminate].
  lia.
Qed.

Lemma updateBook_checked db now id data db' o old :
  updateBook db now id data = Returns (db', o) ->
  books db !! id = Some old ->
  0 < bookData.totalCopies data
  /\ available_copies old <= bookData.totalCopies data.
Proof.
  unfold updateBook. intros Hu Hold. rewrite Hold in Hu.
  destruct (check_book_on_update _ _) eqn:Hc; [discriminate|].
  unfold check_book_on_update in Hc. cbn in Hc.
  repeat match type of Hc with
         | (if negb ?c then _ else _) = _ => destruct c eqn:?; cbn in Hc; [|discriminate]
         end.
  lia.
Qed.

(** ** The row conditions hold in every reachable state *)

Lemma status_on_lend_ok a :
  0 <= a - 1 ->
  status_on_lend a <> reserved /\ (status_on_lend a = loaned <-> a - 1 = 0).
Proof.
  intros Ha. unfold status_on_lend.
  destruct (a - 1 =? 0) eqn:Hz.
  - apply Z.eqb_eq in Hz. split; [discriminate|]. split; done.
  - apply Z.eqb_neq in Hz. destruct (0 <? a - 1) eqn:Hp; [|lia].
    split; [discriminate|]. split; [discriminate|lia].
Qed.

Lemma store_ok_empty ms st sb stx : store_ok (mkDatabase ∅ ms ∅ st sb stx).
Proof. split; cbn; intros id x Hx; by rewrite lookup_empty in Hx. Qed.

Lemma store_ok_createBook db now data db' o :
  store_ok db -> createBook db now data = Returns (db', o) -> store_ok db'.
Proof.
  intros [Hbk Htx] Hc. pose proof (createBook_checked _ _ _ _ _ Hc) as Htot.
  apply createBook_Returns in Hc as (row & Hb & Ha & Ht & Hs & Htxs & _).
  split.
  - intros i x. rewrite Hb. destruct (decide (next_rowid (seq_books db) (books db) = i)) as [<-|Hne].
    + rewrite lookup_insert_eq. intros [= <-]. unfold book_row_ok. rewrite Ha, Ht, Hs.
      repeat split; try lia; try discriminate.
    + rewrite lookup_insert_ne by done. apply Hbk.
  - rewrite Htxs. apply Htx.
Qed.

Lemma store_ok_updateBook db now id data db' o :
  store_ok db -> updateBook db now id data = Returns (db', o) -> store_ok db'.
Proof.
  intros [Hbk Htx] Hu.
  pose proof Hu as (old & Hold & Hb & _ & Htxs & _)%updateBook_Returns.
  pose proof (updateBook_checked _ _ _ _ _ _ _ Hu Hold) as [Htot Hav].
  destruct (Hbk id old Hold) as (_ & [Hav0 _] & Hres & Hloan).
  split.
  - intros i x. rewrite Hb. destruct (decide (id = i)) as [<-|Hne].
    + rewrite lookup_insert_eq. intros [= <-]. unfold book_row_ok. cbn. done.
    + rewrite lookup_insert_ne by done. apply Hbk.
  - rewrite Htxs. apply Htx.
Qed.

Lemma store_ok_lend db now bookId memberId dueDate db' r :
  store_ok db ->
  transactions_lend db now bookId memberId dueDate = (db', Success r) -> store_ok db'.
Proof.
  intros [Hbk Htx] (member & due & notes & _ & _ & Hc)%transactions_lend_Success.
  pose proof (createTransaction_checked _ _ _ _ _ Hc) as Hchk.
  apply check_transaction_None in Hchk as (Hf & Hd & _).
  apply createTransaction_Returns in Hc as (b & Hb & _ & Hav & Hbks & Htxs & _).
  cbn [transactionData.bookId] in *.
  split.
  - intros i x. rewrite Hbks. destruct (decide (bookId = i)) as [<-|Hne].
    + rewrite lookup_insert_eq. intros [= <-].
      destruct (Hbk bookId b Hb) as (Htot & _ & _ & _).
      destruct (status_on_lend_ok (available_copies b)) as [Hres Hloan]; [lia|].
      unfold book_row_ok. cbn. done.
    + rewrite lookup_insert_ne by done. apply Hbk.
  - intros i x. rewrite Htxs.
    destruct (decide (next_rowid (seq_transactions db) (transactions db) = i)) as [<-|Hne].
    + rewrite lookup_insert_eq. intros [= <-]. unfold transaction_row_ok. cbn.
      repeat split; try done.
      exists due. split; [done|]. by apply Hd.
    + rewrite lookup_insert_ne by done. apply Htx.
Qed.

Lemma store_ok_return db now id db' r :
  store_ok db ->
  transactions_return db now id = (db', Success r) -> store_ok db'.
Proof.
  intros [Hbk Htx] (t & b & m & _ & Ht & Hb & _ & Hr & Hret)%transactions_return_Success.
  pose proof (returnBook_checked _ _ _ _ _ _ _ Hret Ht) as [Hf Hdate].
  apply returnBook_Returns in Hret as (old & Hold & _ & Htxs & _ & _ & _ & Hbks).
  rewrite Ht in Hold. injection Hold as <-. rewrite Hr, Hb in Hbks.
  destruct Hbks as [Hbks Hav].
  split.
  - intros i x. rewrite Hbks. destruct (decide (book_id t = i)) as [<-|Hne].
    + rewrite lookup_insert_eq. intros [= <-].
      destruct (Hbk (book_id t) b Hb) as (Htot & Hb0 & _ & _).
      unfold book_row_ok. cbn. repeat split; try lia; try discriminate.
    + rewrite lookup_insert_ne by done. apply Hbk.
  - intros i x. rewrite Htxs. destruct (decide (id = i)) as [<-|Hne].
    + rewrite lookup_insert_eq. intros [= <-].
      destruct (Htx id t Ht) as (_ & Hdue & _ & _).
      unfold transaction_row_ok. cbn. repeat split; try done;
        by intros r' [= <-].
    + rewrite lookup_insert_ne by done. apply Htx.
Qed.

Lemma store_ok_step db db' : store_ok db -> store_step db db' -> store_ok db'.
Proof.
  intros Hok [db1 Hstep|now id data db1 o Hu].
  - destruct Hstep.
    + eapply store_ok_createBook; eauto.
    + eapply store_ok_updateBook; eauto.
    + eapply store_ok_lend; eauto.
    + eapply store_ok_return; eauto.
    + match goal with H : deleteBook _ _ = _ |- _ =>
        apply deleteBook_Returns in H as (_ & _ & Hb & Ht & _) end.
      destruct Hok as [Hbk Htx]. split.
      * intros i x. rewrite Hb. intros [_ Hx]%lookup_delete_Some. by apply (Hbk i).
      * intros i x. rewrite Ht. intros [Hx _]%map_lookup_filter_Some. by apply (Htx i).
    + match goal with H : deleteMember _ _ = _ |- _ =>
        apply deleteMember_Returns in H as (_ & _ & Hb & Ht & _) end.
      destruct Hok as [Hbk Htx]. split.
      * rewrite Hb. apply Hbk.
      * intros i x. rewrite Ht. intros [Hx _]%map_lookup_filter_Some. by apply (Htx i).
    + destruct Hok as [Hbk Htx]. by split.
  - eapply store_ok_updateBook; eauto.
Qed.

Lemma store_reachable_ok db : store_reachable db -> store_ok db.
Proof.
  induction 1 as [ms st sb stx|db db' _ IH Hstep].
  - apply store_ok_empty.
  - by apply (store_ok_step db).
Qed.

Lemma reachable_store_reachable db : reachable db -> store_reachable db.
Proof.
  induction 1 as [ms st sb stx|db db' _ IH Hstep].
  - apply store_reachable_empty.
  - apply (store_reachable_step db); [done|]. by apply store_ledger_step.
Qed.

(** The ledger of Scenario A after the return is reached through a
    creation, a lend and a return. *)
Lemma store_reachable_scenario_A_returned : store_reachable scenario_A_returned.
Proof.
  apply (store_reachable_step scenario_A).
  - apply (store_reachable_step (fixture.one_book 1)).
    + apply (store_reachable_step fixture.empty_ledger); [apply store_reachable_empty|].
      apply store_ledger_step.
      apply (step_createBook _ fixture.t0 (fixture.book_data 1) _
               (getBookById (fixture.one_book 1) 1)).
      vm_compute. reflexivity.
    + apply store_ledger_step.
      apply (step_lend _ fixture.t0 1 2 None _ (getTransactionById scenario_A 1)).
      vm_compute. reflexivity.
  - apply store_ledger_step.
    apply (step_return _ (fixture.at_day 3) 1 _ (getTransactionById scenario_A_returned 1)).
    vm_compute. reflexivity.
Defined.

(** X2.  In every state reached by the writing operations, [updateBook]
    of any kind included, each transaction row has a non-negative fine,
    the type ['lend'] exactly when it has no return date, and a return
    date, if any, not before the lending instant. *)
Theorem transaction_rows_stay_well_formed (db : Database) (id : Z) (t : Transaction) :
  store_reachable db -> transactions db !! id = Some t ->
  0 <= fine_amount t
  /\ (transaction_type t = lend <-> return_date t = None)
  /\ (forall r, return_date t = Some r -> transaction_date t <= r).
Proof.
  intros Hr Ht.
  by destruct (ok_transactions db (store_reachable_ok db Hr) id t Ht) as (? & _ & ? & ?).
Qed.

(** The theorem at the closed loan of Scenario A. *)
Lemma transaction_rows_stay_well_formed_witness :
  exists t,
    transactions scenario_A_returned !! 1 = Some t
    /\ (0 <= fine_amount t
        /\ (transaction_type t = lend <-> return_date t = None)
        /\ (forall r, return_date t = Some r -> transaction_date t <= r))
    /\ (transaction_type t, return_date t) = (ret, Some (fixture.at_day 3)).
Proof.
  eexists. split; [vm_compute; reflexivity|]. split; [|vm_compute; reflexivity].
  apply (transaction_rows_stay_well_formed scenario_A_returned 1 _
           store_reachable_scenario_A_returned).
  vm_compute. reflexivity.
Defined.

(** X3.  No oversell: in every state reached without an [updateBook] that
    changes [total_copies], the open loans of a book whose [total_copies]
    is a count the column holds exactly, below [2 ^ 63], number
    [total_copies - available_copies], at least 0 and at most
    [total_copies]. *)
Theorem open_loans_within_total (db : Database) (id : Z) (b : Book) :
  reachable db -> books db !! id = Some b -> total_copies b < 2 ^ 63 ->
  count_open_book (transactions db) id = total_copies b - available_copies b
  /\ 0 <= count_open_book (transactions db) id <= total_copies b.
Proof.
  intros Hr Hb _.
  pose proof (inv_copies db (reachable_invariant db Hr) id b Hb) as Heq.
  destruct (ok_books db (store_reachable_ok db (reachable_store_reachable db Hr)) id b Hb)
    as (_ & Hav & _).
  lia.
Qed.

Lemma open_loans_within_total_witness :
  exists b,
    books (fixture.lent_twice 2) !! 1 = Some b
    /\ (count_open_book (transactions (fixture.lent_twice 2)) 1
        = total_copies b - available_copies b
        /\ 0 <= count_open_book (transactions (fixture.lent_twice 2)) 1 <= total_copies b)
    /\ (total_copies b, available_copies b) = (2, 0).
Proof.
  eexists. split; [vm_compute; reflexivity|]. split; [|vm_compute; reflexivity].
  apply (open_loans_within_total (fixture.lent_twice 2) 1 _ reachable_lent_twice).
  - vm_compute. reflexivity.
  - vm_compute. reflexivity.
Defined.

(** ** Lending and returning compose *)

(** X4.  Lend, then return that loan: the book has its [available_copies]
    and [total_copies] back, the status [available], and as many open loans
    as before; every other book is as it was. *)
Theorem lend_then_return_restores (db : Database) (now bookId memberId : Z)
    (dueDate : option Z) (db1 : Database) (tx : TransactionObject)
    (now' : Z) (db2 : Database) (r : option TransactionObject) (b : Book) :
  transactions_lend db now bookId memberId dueDate = (db1, Success (Some tx)) ->
  transactions_return db1 now' (to_id tx) = (db2, Success r) ->
  books db !! bookId = Some b ->
  (exists b2,
     books db2 !! bookId = Some b2
     /\ available_copies b2 = available_copies b
     /\ total_copies b2 = total_copies b
     /\ status b2 = available)
  /\ count_open_book (transactions db2) bookId = count_open_book (transactions db) bookId
  /\ (forall j, j <> bookId -> books db2 !! j = books db !! j).
Proof.
  intros (member & due & notes & _ & _ & Hc)%transactions_lend_Success Hret Hb.
  apply createTransaction_Returns in Hc as (b0 & Hb0 & _ & _ & Hbks1 & Htxs1 & _ & _ & Ho).
  cbn [transactionData.bookId] in *. rewrite Hb in Hb0. injection Hb0 as <-.
  pose proof (next_rowid_fresh (seq_transactions db) (transactions db)) as Hfresh.
  set (new := next_rowid (seq_transactions db) (transactions db)) in *.
  assert (to_id tx = new) as Hid.
  { symmetry in Ho. unfold getTransactionById in Ho.
    destruct (transactions db1 !! new); [|discriminate].
    destruct (books db1 !! _); [|discriminate].
    destruct (members db1 !! _); [|discriminate].
    by injection Ho as <-. }
  rewrite Hid in Hret.
  apply transactions_return_Success in Hret as (t & b1 & m & _ & Ht & Hb1 & _ & Hr & Hret).
  rewrite Htxs1, lookup_insert_eq in Ht. injection Ht as <-.
  cbn [book_id lend_row transactionData.bookId] in Hb1.
  rewrite Hbks1, lookup_insert_eq in Hb1. injection Hb1 as <-.
  apply returnBook_Returns in Hret as (old & Hold & _ & Htxs2 & _ & _ & _ & Hbks2).
  rewrite Htxs1, lookup_insert_eq in Hold. injection Hold as <-.
  cbn [return_date book_id lend_row transactionData.bookId] in Hbks2.
  rewrite Hbks1, lookup_insert_eq in Hbks2. destruct Hbks2 as [Hbks2 _].
  repeat apply conj.
  - eexists. rewrite Hbks2, lookup_insert_eq. split; [done|]. cbn. repeat split. lia.
  - rewrite Htxs2, Htxs1.
    rewrite (count_open_book_return _ _ _ _ (lend_row now _)).
    + rewrite count_open_book_lend by done. cbn. rewrite !decide_True by done. lia.
    + apply lookup_insert_eq.
    + by split.
  - intros j Hj. rewrite Hbks2, !lookup_insert_ne by done. done.
Qed.

(** The theorem at the only copy of [fixture.one_book 1]: Bob borrows it
    and returns it three days later. *)
Lemma lend_then_return_restores_witness :
  exists tx b,
    transactions_lend (fixture.one_book 1) fixture.t0 1 2 None
    = (scenario_A, Success (Some tx))
    /\ books (fixture.one_book 1) !! 1 = Some b
    /\ ((exists b2,
           books scenario_A_returned !! 1 = Some b2
           /\ available_copies b2 = available_copies b
           /\ total_copies b2 = total_copies b
           /\ status b2 = available)
        /\ count_open_book (transactions scenario_A_returned) 1
           = count_open_book (transactions (fixture.one_book 1)) 1
        /\ (forall j, j <> 1 ->
              books scenario_A_returned !! j = books (fixture.one_book 1) !! j)).
Proof.
  eexists. eexists. split; [vm_compute; reflexivity|]. split; [vm_compute; reflexivity|].
  eapply (lend_then_return_restores (fixture.one_book 1) fixture.t0 1 2 None scenario_A _
            (fixture.at_day 3) scenario_A_returned
            (getTransactionById scenario_A_returned 1)).
  - vm_compute. reflexivity.
  - vm_compute. reflexivity.
  - vm_compute. reflexivity.
Defined.

(** ** The fine as a function of the return instant *)

Lemma differenceInDays_mono a a' b :
  a <= a' -> differenceInDays a b <= differenceInDays a' b.
Proof.
  intros Hle. unfold differenceInDays, msPerDay. apply Z.quot_le_mono; lia.
Qed.

(** X5.  With a non-negative daily rate and cap, the fine is never
    negative, never above the cap, and never decreases when the return is
    made later.  Rate and cap are those in force for the member type: the
    values configured in the [fineRules] setting, with 5 and 500 standing
    in for a value that is missing or 0, and those of the built-in rules
    where there is no such setting. *)
Theorem fine_bounded_and_monotone (s : Settings) (memberType : MemberType)
    (due : option Z) (now now' : Z) (rule : option FineRule) (rate cap : Z) :
  (exists rules, fineRules s = Some rules /\ rule = rules !! member_type_text memberType)
  \/ (fineRules s = None
      /\ rule = Some (match memberType with
                      | student => mkFineRule (Some 5) None (Some 500)
                      | faculty => mkFineRule (Some 3) None (Some 300)
                      | public => mkFineRule (Some 10) None (Some 1000)
                      end)) ->
  (rule ≫= dailyRate = Some rate /\ rate <> 0)
  \/ ((rule ≫= dailyRate = None \/ rule ≫= dailyRate = Some 0) /\ rate = 5) ->
  (rule ≫= maxFine = Some cap /\ cap <> 0)
  \/ ((rule ≫= maxFine = None \/ rule ≫= maxFine = Some 0) /\ cap = 500) ->
  0 <= rate -> 0 <= cap -> now <= now' ->
  0 <= fineAmount s memberType due now
  /\ fineAmount s memberType due now <= fineAmount s memberType due now'
  /\ fineAmount s memberType due now' <= cap.
Proof.
  intros Hrule Hrate Hcap Hr Hm Hle.
  rewrite !(fineAmount_eq s memberType rule rate cap Hrule Hrate Hcap).
  pose proof (differenceInDays_mono now now' (due_instant due) Hle) as Hmono.
  destruct (due_instant due <? now) eqn:H1.
  - apply Z.ltb_lt in H1.
    destruct (due_instant due <? now') eqn:H1'; [|apply Z.ltb_ge in H1'; lia].
    destruct (0 <? differenceInDays now (due_instant due)) eqn:H2.
    + apply Z.ltb_lt in H2.
      destruct (0 <? differenceInDays now' (due_instant due)) eqn:H2';
        [|apply Z.ltb_ge in H2'; lia].
      repeat split; [nia| |lia]. apply Z.min_le_compat_r. nia.
    + destruct (0 <? differenceInDays now' (due_instant due)) eqn:H2'; [|lia].
      apply Z.ltb_lt in H2'. repeat split; [lia|nia|lia].
  - destruct (due_instant due <? now') eqn:H1'; [|lia].
    destruct (0 <? differenceInDays now' (due_instant due)) eqn:H2'; [|lia].
    apply Z.ltb_lt in H2'. repeat split; [lia|nia|lia].
Qed.

(** The theorem for a student under rules that charge 2 a day and 9 at
    most, 1 and 6 days after the due date of Scenario A: the fines are 2
    and 9. *)
Lemma fine_bounded_and_monotone_witness :
  (0 <= fineAmount low_cap_rules student (Some (fixture.day0 + 14)) (fixture.at_day 15)
   /\ fineAmount low_cap_rules student (Some (fixture.day0 + 14)) (fixture.at_day 15)
      <= fineAmount low_cap_rules student (Some (fixture.day0 + 14)) (fixture.at_day 20)
   /\ fineAmount low_cap_rules student (Some (fixture.day0 + 14)) (fixture.at_day 20) <= 9)
  /\ fineAmount low_cap_rules student (Some (fixture.day0 + 14)) (fixture.at_day 15) = 2
  /\ fineAmount low_cap_rules student (Some (fixture.day0 + 14)) (fixture.at_day 20) = 9.
Proof.
  split; [|split; vm_compute; reflexivity].
  apply (fine_bounded_and_monotone low_cap_rules student (Some (fixture.day0 + 14))
           (fixture.at_day 15) (fixture.at_day 20)
           (Some (mkFineRule (Some 2) (Some 0) (Some 9))) 2 9).
  - left. eexists. split; [reflexivity|]. vm_compute. reflexivity.
  - left. split; [reflexivity|discriminate].
  - left. split; [reflexivity|discriminate].
  - vm_compute. discriminate.
  - vm_compute. discriminate.
  - vm_compute. discriminate.
Defined.

(** ** Deletions and their cascade *)

Lemma count_open_member_cascade (Q : Z * Transaction -> Prop) `{!forall x, Decision (Q x)} txs m :
  (forall i t, txs !! i = Some t -> t_member_id t = m -> open_loan t -> Q (i, t)) ->
  count_open_member (filter Q txs) m = count_open_member txs m.
Proof.
  intros HQ. unfold count_open_member, open_loans_of_member. f_equal. f_equal.
  rewrite map_filter_filter. apply map_filter_ext.
  intros i t Hi. cbn. split; [tauto|]. intros [Hb Ho]. split; [done|]. by apply (HQ i t).
Qed.

(** X6.  A successful [deleteBook] removes the book and exactly the
    transactions of that book, none of which is an open loan; it changes no
    other book, no member, and no member's number of open loans. *)
Theorem deleteBook_cascade (db : Database) (id : Z) (db' : Database) (r : bool) :
  deleteBook db id = Returns (db', r) ->
  books db' !! id = None
  /\ (forall j, j <> id -> books db' !! j = books db !! j)
  /\ members db' = members db
  /\ (forall k t, transactions db' !! k = Some t <->
                  transactions db !! k = Some t /\ book_id t <> id)
  /\ (forall k t, transactions db !! k = Some t -> book_id t = id -> ~ open_loan t)
  /\ (forall m, count_open_member (transactions db') m = count_open_member (transactions db) m).
Proof.
  intros (Hz & _ & Hbks & Htxs & Hms & _)%deleteBook_Returns.
  assert (forall k t, transactions db !! k = Some t -> book_id t = id -> ~ open_loan t)
    as Hclosed.
  { intros k t Hk Hb Ho. unfold count_open_book, open_loans_of_book in Hz.
    apply (size_filter_zero
             (fun kt : Z * Transaction => book_id kt.2 = id /\ open_loan kt.2)
             (transactions db) k t); [lia|done|by split]. }
  repeat apply conj; try done.
  - rewrite Hbks. apply lookup_delete_eq.
  - intros j Hj. rewrite Hbks. by apply lookup_delete_ne.
  - intros k t. rewrite Htxs. apply map_lookup_filter_Some.
  - intros m. rewrite Htxs. apply count_open_member_cascade.
    intros k t Hk _ Ho. cbn. intros Hb. by apply (Hclosed k t).
Qed.

(** Scenario A after the return and the deletion of the book. *)
Lemma deleteBook_cascade_witness :
  exists db',
    deleteBook scenario_A_returned 1 = Returns (db', true)
    /\ (books db' !! 1 = None
        /\ (forall j, j <> 1 -> books db' !! j = books scenario_A_returned !! j)
        /\ members db' = members scenario_A_returned
        /\ (forall k t, transactions db' !! k = Some t <->
                        transactions scenario_A_returned !! k = Some t /\ book_id t <> 1)
        /\ (forall k t, transactions scenario_A_returned !! k = Some t ->
                        book_id t = 1 -> ~ open_loan t)
        /\ (forall m, count_open_member (transactions db') m
                      = count_open_member (transactions scenario_A_returned) m)).
Proof.
  eexists. split; [vm_compute; reflexivity|].
  eapply (deleteBook_cascade scenario_A_returned 1 _ true).
  vm_compute. reflexivity.
Defined.

(** X7.  A successful [deleteMember] removes the member and exactly the
    transactions of that member, none of which is an open loan; it changes
    no book row, no other member, and no book's number of open loans. *)
Theorem deleteMember_cascade (db : Database) (id : Z) (db' : Database) (r : bool) :
  deleteMember db id = Returns (db', r) ->
  members db' !! id = None
  /\ (forall j, j <> id -> members db' !! j = members db !! j)
  /\ books db' = books db
  /\ (forall k t, transactions db' !! k = Some t <->
                  transactions db !! k = Some t /\ t_member_id t <> id)
  /\ (forall k t, transactions db !! k = Some t -> t_member_id t = id -> ~ open_loan t)
  /\ (forall b, count_open_book (transactions db') b = count_open_book (transactions db) b).
Proof.
  intros (Hz & _ & Hbks & Htxs & Hms & _)%deleteMember_Returns.
  assert (forall k t, transactions db !! k = Some t -> t_member_id t = id -> ~ open_loan t)
    as Hclosed.
  { intros k t Hk Hb Ho. unfold count_open_member, open_loans_of_member in Hz.
    apply (size_filter_zero
             (fun kt : Z * Transaction => t_member_id kt.2 = id /\ open_loan kt.2)
             (transactions db) k t); [lia|done|by split]. }
  repeat apply conj; try done.
  - rewrite Hms. apply lookup_delete_eq.
  - intros j Hj. rewrite Hms. by apply lookup_delete_ne.
  - intros k t. rewrite Htxs. apply map_lookup_filter_Some.
  - intros b. rewrite Htxs. apply count_open_book_cascade.
    intros k t Hk _ Ho. cbn. intros Hb. by apply (Hclosed k t).
Qed.

Lemma deleteMember_cascade_witness :
  exists db',
    deleteMember scenario_A_returned 2 = Returns (db', true)
    /\ (members db' !! 2 = None
        /\ (forall j, j <> 2 -> members db' !! j = members scenario_A_returned !! j)
        /\ books db' = books scenario_A_returned
        /\ (forall k t, transactions db' !! k = Some t <->
                        transactions scenario_A_returned !! k = Some t /\ t_member_id t <> 2)
        /\ (forall k t, transactions scenario_A_returned !! k = Some t ->
                        t_member_id t = 2 -> ~ open_loan t)
        /\ (forall b, count_open_book (transactions db') b
                      = count_open_book (transactions scenario_A_returned) b)).
Proof.
  eexists. split; [vm_compute; reflexivity|].
  eapply (deleteMember_cascade scenario_A_returned 2 _ true).
  vm_compute. reflexivity.
Defined.

(** ** The view member_statistics *)

Lemma size_filter_map_to_list {A} (P : Z * A -> Prop) `{!forall x, Decision (P x)}
    (m : gmap Z A) :
  size (filter P m) = length (filter P (map_to_list m)).
Proof.
  rewrite map_filter_alt, map_size_list_to_map; [done|].
  eapply sublist_NoDup; [apply (NoDup_fst_map_to_list m)|].
  apply fmap_sublist, sublist_filter.
Qed.

Lemma length_filter_snd {A} (P1 : Z * A -> Prop) (P2 : A -> Prop)
    `{!forall x, Decision (P1 x)} `{!forall x, Decision (P2 x)} (l : list (Z * A)) :
  length (filter P2 (snd <$> filter P1 l))
  = length (filter (fun kt => P1 kt /\ P2 kt.2) l).
Proof.
  induction l as [|kt l IH]; [done|].
  rewrite !filter_cons. destruct (decide (P1 kt)) as [H1|H1].
  - cbn [fmap list_fmap]. rewrite filter_cons.
    destruct (decide (P2 kt.2)) as [H2|H2].
    + rewrite decide_True by done. cbn. by rewrite IH.
    + rewrite decide_False by tauto. done.
  - rewrite decide_False by tauto. done.
Qed.

Lemma length_open_or_returned (ts : list Transaction) :
  (forall t, t ∈ ts -> (transaction_type t = lend <-> return_date t = None)) ->
  (length (filter open_loan ts)
   + length (filter (fun t => transaction_type t = ret) ts) = length ts)%nat.
Proof.
  induction ts as [|t ts IH]; [done|]. intros Hall.
  rewrite !filter_cons. cbn [length].
  assert (forall t', t' ∈ ts -> (transaction_type t' = lend <-> return_date t' = None))
    as Hall' by (intros t' Ht'; apply Hall; by right).
  specialize (IH Hall'). pose proof (Hall t ltac:(by left)) as Ht.
  destruct (transaction_type t) eqn:Hty.
  - rewrite decide_True by (split; [done|by apply Ht]).
    rewrite decide_False by done. cbn [length]. lia.
  - rewrite decide_False by (intros [? _]; congruence).
    rewrite decide_True by done. cbn [length]. lia.
Qed.

Lemma sum_of_paid_range (ts : list Transaction) :
  (forall t, t ∈ ts -> 0 <= fine_amount t) ->
  0 <= sum_of (fun t => if fine_paid t then fine_amount t else 0) ts
    <= sum_of fine_amount ts.
Proof.
  induction ts as [|t ts IH]; [cbn; lia|]. intros Hall.
  assert (forall t', t' ∈ ts -> 0 <= fine_amount t') as Hall'
      by (intros t' Ht'; apply Hall; by right).
  specialize (IH Hall'). pose proof (Hall t ltac:(by left)) as Ht.
  unfold sum_of in *. cbn [foldr]. destruct (fine_paid t); lia.
Qed.

Lemma elem_of_transactions_of_member db id t :
  t ∈ transactions_of_member db id ->
  exists k, transactions db !! k = Some t /\ t_member_id t = id.
Proof.
  unfold transactions_of_member. intros ([k t'] & -> & Hin)%list_elem_of_fmap.
  apply list_elem_of_filter in Hin as [Hm Hin]. apply elem_of_map_to_list in Hin.
  exists k. done.
Qed.

(** X8.  In every reachable state each row of the view [member_statistics]
    describes a stored member, its [active_loans] is that member's number
    of open loans, [active_loans + returned_books = total_transactions],
    and [0 <= paid_fines <= total_fines]. *)
Theorem member_statistics_consistent (db : Database) (row : MemberStatistics) :
  store_reachable db -> row ∈ member_statistics db ->
  (exists m, members db !! ms_id row = Some m
             /\ ms_name row = name m /\ ms_member_id row = member_id m
             /\ ms_member_type row = member_type m)
  /\ ms_active_loans row = count_open_member (transactions db) (ms_id row)
  /\ ms_active_loans row + ms_returned_books row = ms_total_transactions row
  /\ 0 <= ms_paid_fines row <= ms_total_fines row.
Proof.
  intros Hok%store_reachable_ok ([id m] & -> & Hin)%list_elem_of_fmap.
  apply elem_of_map_to_list in Hin. cbn.
  assert (forall t, t ∈ transactions_of_member db id -> transaction_row_ok t) as Hrows.
  { intros t (k & Hk & _)%elem_of_transactions_of_member. by apply (ok_transactions db Hok k). }
  repeat apply conj.
  - exists m. done.
  - unfold count_open_member, open_loans_of_member, transactions_of_member.
    by rewrite size_filter_map_to_list, length_filter_snd.
  - rewrite <- Nat2Z.inj_add. f_equal. apply length_open_or_returned.
    intros t Ht. apply (Hrows t Ht).
  - apply sum_of_paid_range. intros t Ht. apply (Hrows t Ht).
  - apply sum_of_paid_range. intros t Ht. apply (Hrows t Ht).
Qed.

(** Bob's row after he has returned the book of Scenario A. *)
Lemma member_statistics_consistent_witness :
  member_statistics_row scenario_A_returned (2, fixture.bob)
    ∈ member_statistics scenario_A_returned
  /\ ((exists m, members scenario_A_returned
                   !! ms_id (member_statistics_row scenario_A_returned (2, fixture.bob))
                 = Some m
                 /\ ms_name (member_statistics_row scenario_A_returned (2, fixture.bob)) = name m
                 /\ ms_member_id (member_statistics_row scenario_A_returned (2, fixture.bob))
                    = member_id m
                 /\ ms_member_type (member_statistics_row scenario_A_returned (2, fixture.bob))
                    = member_type m)
      /\ ms_active_loans (member_statistics_row scenario_A_returned (2, fixture.bob))
         = count_open_member (transactions scenario_A_returned)
             (ms_id (member_statistics_row scenario_A_returned (2, fixture.bob)))
      /\ ms_active_loans (member_statistics_row scenario_A_returned (2, fixture.bob))
         + ms_returned_books (member_statistics_row scenario_A_returned (2, fixture.bob))
         = ms_total_transactions (member_statistics_row scenario_A_returned (2, fixture.bob))
      /\ 0 <= ms_paid_fines (member_statistics_row scenario_A_returned (2, fixture.bob))
           <= ms_total_fines (member_statistics_row scenario_A_returned (2, fixture.bob))).
Proof.
  assert (member_statistics_row scenario_A_returned (2, fixture.bob)
            ∈ member_statistics scenario_A_returned) as Hin.
  { apply list_elem_of_fmap. exists (2, fixture.bob). split; [done|].
    apply elem_of_map_to_list. vm_compute. reflexivity. }
  split; [exact Hin|].
  exact (member_statistics_consistent scenario_A_returned _
           store_reachable_scenario_A_returned Hin).
Defined.

(** * Members and the application as a whole *)

(** ** Regular expressions *)

Lemma append_nil_inv (s1 s2 : string) : s1 +:+ s2 = "" -> s1 = "" /\ s2 = "".
Proof. destruct s1; [done|discriminate]. Qed.

Lemma nullable_spec r : nullable r = true <-> matches r "".
Proof.
  split.
  - induction r; cbn; intros H; try discriminate.
    + constructor.
    + apply andb_prop in H as [H1 H2].
      change "" with ("" +:+ ""). constructor; auto.
    + apply orb_prop in H as [H|H]; [apply matches_alt_l|apply matches_alt_r]; auto.
    + constructor.
  - intros H. remember "" as s eqn:Hs. induction H; cbn; try done.
    + apply append_nil_inv in Hs as [-> ->]. rewrite IHmatches1, IHmatches2; done.
    + rewrite IHmatches; done.
    + rewrite IHmatches, orb_true_r; done.
Qed.

Lemma derive_sound c r s : matches (derive c r) s -> matches r (String c s).
Proof.
  revert s. induction r; cbn; intros s H.
  - inversion H.
  - inversion H.
  - destruct (p c) eqn:Hp; inversion H; subst. by constructor.
  - destruct (nullable r1) eqn:Hn.
    + inversion H as [| | | ? ? ? H' | ? ? ? H' | |]; subst.
      * inversion H' as [| |? ? s1 s2 H1 H2| | | |]; subst.
        change (String c (s1 +:+ s2)) with (String c s1 +:+ s2). constructor; auto.
      * change (String c s) with ("" +:+ String c s). constructor; auto.
        by apply nullable_spec.
    + inversion H as [| |? ? s1 s2 H1 H2| | | |]; subst.
      change (String c (s1 +:+ s2)) with (String c s1 +:+ s2). constructor; auto.
  - inversion H; subst; [apply matches_alt_l|apply matches_alt_r]; auto.
  - inversion H as [| |? ? s1 s2 H1 H2| | | |]; subst.
    change (String c (s1 +:+ s2)) with (String c s1 +:+ s2). constructor; auto.
Qed.

Lemma derive_complete c r s : matches r (String c s) -> matches (derive c r) s.
Proof.
  intros H. remember (String c s) as cs eqn:Hcs. revert s Hcs.
  induction H as [|p a Hp|r1 r2 s1 s2 H1 IH1 H2 IH2|r1 r2 s0 H1 IH1|r1 r2 s0 H2 IH2|
                  |r1 s1 s2 H1 IH1 H2 IH2]; intros tl Hcs; cbn.
  - discriminate.
  - injection Hcs as -> <-. rewrite Hp. constructor.
  - destruct s1 as [|a s1].
    + change ("" +:+ s2) with s2 in Hcs. subst s2.
      assert (nullable r1 = true) as -> by by apply nullable_spec.
      apply matches_alt_r. by apply IH2.
    + change (String a s1 +:+ s2) with (String a (s1 +:+ s2)) in Hcs.
      injection Hcs as -> <-.
      destruct (nullable r1).
      * apply matches_alt_l. constructor; auto.
      * constructor; auto.
  - apply matches_alt_l; auto.
  - apply matches_alt_r; auto.
  - discriminate.
  - destruct s1 as [|a s1].
    + change ("" +:+ s2) with s2 in Hcs. by apply IH2.
    + change (String a s1 +:+ s2) with (String a (s1 +:+ s2)) in Hcs.
      injection Hcs as -> <-. constructor; auto.
Qed.

Lemma regex_test_spec r s : regex_test r s = true <-> matches r s.
Proof.
  revert r. induction s as [|c s IH]; intros r; cbn.
  - apply nullable_spec.
  - rewrite IH. split; [apply derive_sound|apply derive_complete].
Qed.

(** ** Text helpers *)

Lemma length_rev_app s1 s2 :
  String.length (String.rev_app s1 s2) = (String.length s1 + String.length s2)%nat.
Proof.
  revert s2. induction s1 as [|c s1 IH]; intros s2; cbn; [done|].
  rewrite IH. cbn. lia.
Qed.

Lemma length_rev s : String.length (String.rev s) = String.length s.
Proof. unfold String.rev. rewrite length_rev_app. cbn. lia. Qed.

Lemma length_trimStart s : (String.length (trimStart s) <= String.length s)%nat.
Proof.
  induction s as [|c s IH]; cbn; [done|].
  destruct (is_white_space c); cbn; lia.
Qed.

Lemma length_trim s : (String.length (trim s) <= String.length s)%nat.
Proof.
  unfold trim, trimEnd. rewrite length_rev.
  etrans; [apply length_trimStart|]. rewrite length_rev. apply length_trimStart.
Qed.

(** ** Uniqueness tests *)

Lemma isbn_taken_false bks self i :
  isbn_taken bks self i = false ->
  forall k b, bks !! k = Some b -> Some k <> self -> is_Some i -> isbn b <> i.
Proof.
  intros Ht k b Hk Hself [x ->] Hb. cbn in Ht.
  apply bool_decide_eq_false in Ht. apply Ht. exists k, b. done.
Qed.

Lemma member_id_taken_false ms self i :
  member_id_taken ms self i = false ->
  forall k m, ms !! k = Some m -> Some k <> self -> member_id m <> i.
Proof.
  intros Ht k m Hk Hself Hm.
  apply bool_decide_eq_false in Ht. apply Ht. exists k, m. done.
Qed.

Lemma email_taken_false ms self e :
  email_taken ms self e = false ->
  forall k m, ms !! k = Some m -> Some k <> self -> is_Some e -> email m <> e.
Proof.
  intros Ht k m Hk Hself [x ->] Hm. cbn in Ht.
  apply bool_decide_eq_false in Ht. apply Ht. exists k, m. done.
Qed.

Lemma member_id_taken_true ms self i :
  member_id_taken ms self i = true <->
  exists k m, ms !! k = Some m /\ Some k <> self /\ member_id m = i.
Proof.
  unfold member_id_taken. rewrite bool_decide_eq_true. unfold map_Exists.
  split; intros (k & m & H); by exists k, m.
Qed.

Lemma email_taken_true ms self e :
  email_taken ms self e = true <->
  is_Some e /\ exists k m, ms !! k = Some m /\ Some k <> self /\ email m = e.
Proof.
  unfold email_taken. destruct e as [x|].
  - rewrite bool_decide_eq_true. unfold map_Exists. split.
    + intros (k & m & Hk & Hs & He). split; [by eexists|]. by exists k, m.
    + intros (_ & k & m & Hk & Hs & He). by exists k, m.
  - split; [done|]. by intros [[? [=]] _].
Qed.

Lemma unique_violation_None email_first ms self row :
  unique_violation email_first ms self row = None <->
  member_id_taken ms self (member_id row) = false
  /\ email_taken ms self (email row) = false.
Proof.
  unfold unique_violation.
  destruct (member_id_taken _ _ _), (email_taken _ _ _);
    (split; [done || by intros [= ]|by intros [[= ] [= ]]]).
Qed.

(** ** Inversion of the member calls *)

Lemma validate_member_None data :
  validate_member data = None <->
  (2 <= String.length (trim (memberData.name data)))%nat
  /\ (3 <= String.length (memberData.memberId data))%nat
  /\ (forall e, js_or_null (memberData.email data) = Some e -> isValidEmail e = true).
Proof.
  unfold validate_member.
  destruct (bool_decide_reflect (memberData.name data = "")) as [Hn|Hn]; cbn [orb].
  { rewrite Hn. split; [done|]. intros [H _]. vm_compute in H. lia. }
  destruct (Nat.ltb_spec (String.length (trim (memberData.name data))) 2) as [H1|H1].
  { split; [done|]. intros [H _]. lia. }
  destruct (bool_decide_reflect (memberData.memberId data = "")) as [Hi|Hi]; cbn [orb].
  { rewrite Hi. split; [done|]. intros (_ & H & _). cbn in H. lia. }
  destruct (Nat.ltb_spec (String.length (memberData.memberId data)) 3) as [H2|H2].
  { split; [done|]. intros (_ & H & _). lia. }
  destruct (js_or_null (memberData.email data)) as [e|].
  - destruct (isValidEmail e) eqn:He.
    + split; [|done]. intros _. repeat split; try lia. by intros ? [= <-].
    + split; [done|]. intros (_ & _ & H). specialize (H e eq_refl). congruence.
  - split; [|done]. intros _. repeat split; try lia. done.
Qed.

Lemma check_member_validated data created updated :
  validate_member data = None -> check_member (member_row data created updated) = None.
Proof.
  intros (H1 & H2 & _)%validate_member_None.
  pose proof (length_trim (memberData.name data)) as Ht.
  unfold check_member, member_row. cbn [name member_id].
  rewrite (proj2 (Nat.leb_le 2 _)) by lia.
  rewrite (proj2 (Nat.leb_le 3 _)) by lia. done.
Qed.

Lemma createMember_Returns email_first s now data s' o :
  createMember email_first s now data = Returns (s', o) ->
  check_member (member_row data now now) = None
  /\ member_id_taken (members (database s)) None (memberData.memberId data) = false
  /\ email_taken (members (database s)) None (js_or_null (memberData.email data)) = false
  /\ s' = mkStore (with_members (database s)
                     (<[next_rowid (seq_members s) (members (database s)) :=
                          member_row data now now]> (members (database s))))
                  (next_rowid (seq_members s) (members (database s)))
  /\ o = getMemberById (database s') (next_rowid (seq_members s) (members (database s))).
Proof.
  unfold createMember.
  destruct (check_member _) eqn:Hc; [discriminate|].
  destruct (unique_violation _ _ _ _) eqn:Hu; [discriminate|].
  apply unique_violation_None in Hu as [Hi He]. intros [= <- <-]. done.
Qed.

Lemma updateMember_Returns email_first s now id data s' o :
  updateMember email_first s now id data = Returns (s', o) ->
  exists old,
    members (database s) !! id = Some old
    /\ check_member (member_row data (m_created_at old) now) = None
    /\ member_id_taken (members (database s)) (Some id) (memberData.memberId data) = false
    /\ email_taken (members (database s)) (Some id) (js_or_null (memberData.email data)) = false
    /\ s' = with_database s (with_members (database s)
              (<[id := member_row data (m_created_at old) now]> (members (database s))))
    /\ o = getMemberById (database s') id.
Proof.
  unfold updateMember.
  destruct (members (database s) !! id) as [old|]; [|discriminate].
  destruct (check_member _) eqn:Hc; [discriminate|].
  destruct (unique_violation _ _ _ _) eqn:Hu; [discriminate|].
  apply unique_violation_None in Hu as [Hi He]. intros [= <- <-]. exists old. done.
Qed.

Lemma members_create_Success email_first s now data s' o :
  members_create email_first s now data = (s', Success o) ->
  validate_member data = None
  /\ createMember email_first s now data = Returns (s', o).
Proof.
  unfold members_create. destruct (validate_member data); [discriminate|].
  destruct (createMember _ _ _ _) as [[s'' o']|e]; [|discriminate].
  by intros [= <- <-].
Qed.

Lemma members_update_Success email_first s now id data s' o :
  members_update email_first s now id data = (s', Success o) ->
  validate_member data = None
  /\ updateMember email_first s now id data = Returns (s', o).
Proof.
  unfold members_update. destruct (validate_member data); [discriminate|].
  destruct (updateMember _ _ _ _ _) as [[s'' o']|e]; [|discriminate].
  by intros [= <- <-].
Qed.

Lemma books_delete_Success db id db' :
  books_delete db id = (db', Success tt) -> deleteBook db id = Returns (db', true).
Proof.
  unfold books_delete. destruct (deleteBook db id) as [[db'' r]|e] eqn:Hd; [|discriminate].
  intros [= <-]. by destruct (deleteBook_Returns _ _ _ _ Hd) as (_ & _ & _ & _ & _ & ->).
Qed.

Lemma members_delete_Success db id db' :
  members_delete db id = (db', Success tt) -> deleteMember db id = Returns (db', true).
Proof.
  unfold members_delete. destruct (deleteMember db id) as [[db'' r]|e] eqn:Hd; [|discriminate].
  intros [= <-]. by destruct (deleteMember_Returns _ _ _ _ Hd) as (_ & _ & _ & _ & _ & ->).
Qed.

Lemma createBook_unique db now data db' o :
  createBook db now data = Returns (db', o) ->
  exists row,
    books db' = <[next_rowid (seq_books db) (books db) := row]> (books db)
    /\ isbn_taken (books db) None (isbn row) = false
    /\ transactions db' = transactions db
    /\ members db' = members db.
Proof.
  unfold createBook.
  destruct (check_book _ _); [discriminate|].
  destruct (isbn_taken _ _ _) eqn:Hi; [discriminate|].
  intros [= <- <-]. eexists. split; [reflexivity|]. done.
Qed.

Lemma updateBook_unique db now id data db' o :
  updateBook db now id data = Returns (db', o) ->
  exists old row,
    books db !! id = Some old
    /\ books db' = <[id := row]> (books db)
    /\ isbn_taken (books db) (Some id) (isbn row) = false
    /\ transactions db' = transactions db
    /\ members db' = members db.
Proof.
  unfold updateBook.
  destruct (books db !! id) as [old|]; [|discriminate].
  destruct (check_book_on_update _ _); [discriminate|].
  destruct (isbn_taken _ _ _) eqn:Hi; [discriminate|].
  intros [= <- <-]. eexists _, _. split; [reflexivity|]. split; [reflexivity|]. done.
Qed.

(** ** The constraints of the schema are invariants *)

Section unique.
Context {A B : Type} (f : A -> option B).

Lemma unique_insert (m : gmap Z A) (id : Z) (x : A) :
  (forall i j a b, m !! i = Some a -> m !! j = Some b ->
                   is_Some (f a) -> f a = f b -> i = j) ->
  (forall k a, m !! k = Some a -> k <> id -> is_Some (f x) -> f a <> f x) ->
  forall i j a b, <[id := x]> m !! i = Some a -> <[id := x]> m !! j = Some b ->
                  is_Some (f a) -> f a = f b -> i = j.
Proof.
  intros Hm Hx i j a b Hi Hj Ha Hab.
  destruct (decide (i = id)) as [->|Hni], (decide (j = id)) as [->|Hnj]; [done|..].
  - rewrite lookup_insert_eq in Hi. rewrite lookup_insert_ne in Hj by done.
    injection Hi as <-. by destruct (Hx j b Hj Hnj Ha).
  - rewrite lookup_insert_ne in Hi by done. rewrite lookup_insert_eq in Hj.
    injection Hj as <-. destruct (Hx i a Hi Hni); [|done]. by rewrite <- Hab.
  - rewrite lookup_insert_ne in Hi, Hj by done. eauto.
Qed.

Lemma unique_replace (m : gmap Z A) (id : Z) (old x : A) :
  (forall i j a b, m !! i = Some a -> m !! j = Some b ->
                   is_Some (f a) -> f a = f b -> i = j) ->
  m !! id = Some old -> f x = f old ->
  forall i j a b, <[id := x]> m !! i = Some a -> <[id := x]> m !! j = Some b ->
                  is_Some (f a) -> f a = f b -> i = j.
Proof.
  intros Hm Hold Hf. apply unique_insert; [done|].
  intros k a Hk Hne Hx Ha. apply Hne. apply (Hm k id a old); [done..| |congruence].
  by rewrite Ha.
Qed.

Lemma unique_subseteq (m m' : gmap Z A) :
  (forall i j a b, m !! i = Some a -> m !! j = Some b ->
                   is_Some (f a) -> f a = f b -> i = j) ->
  m' ⊆ m ->
  forall i j a b, m' !! i = Some a -> m' !! j = Some b ->
                  is_Some (f a) -> f a = f b -> i = j.
Proof.
  intros Hm Hsub i j a b Hi Hj. apply Hm; by eapply lookup_weaken.
Qed.
End unique.

Lemma schema_ok_empty st sb stx : schema_ok (mkDatabase ∅ ∅ ∅ st sb stx).
Proof. split; cbn; intros *; by rewrite ?lookup_empty. Qed.

Lemma schema_ok_settings db st :
  schema_ok db ->
  schema_ok (mkDatabase (books db) (members db) (transactions db) st
               (seq_books db) (seq_transactions db)).
Proof. intros [H1 H2 H3 H4 H5 H6]. by split. Qed.

Lemma schema_ok_createBook db now data db' o :
  createBook db now data = Returns (db', o) -> schema_ok db -> schema_ok db'.
Proof.
  intros (row & Hbks & Hisbn & Htxs & Hms)%createBook_unique [H1 H2 H3 H4 H5 H6].
  split; rewrite ?Hbks, ?Htxs, ?Hms; try done.
  - apply (unique_insert isbn); [done|].
    intros k b Hk _ Hrow. by apply (isbn_taken_false _ _ _ Hisbn k b).
  - intros k t Hk. destruct (H4 k t Hk) as [b Hb].
    destruct (decide (book_id t = next_rowid (seq_books db) (books db))) as [Heq|Hne].
    + by rewrite Heq, next_rowid_fresh in Hb.
    + rewrite lookup_insert_ne by done. by exists b.
Qed.

Lemma schema_ok_updateBook db now id data db' o :
  updateBook db now id data = Returns (db', o) -> schema_ok db -> schema_ok db'.
Proof.
  intros (old & row & Hold & Hbks & Hisbn & Htxs & Hms)%updateBook_unique
         [H1 H2 H3 H4 H5 H6].
  split; rewrite ?Hbks, ?Htxs, ?Hms; try done.
  - apply (unique_insert isbn); [done|].
    intros k b Hk Hne Hrow. apply (isbn_taken_false _ _ _ Hisbn k b); [done| |done].
    congruence.
  - intros k t Hk. destruct (decide (book_id t = id)) as [->|Hne].
    + rewrite lookup_insert_eq. by eexists.
    + rewrite lookup_insert_ne by done. by apply (H4 k t).
Qed.

Lemma schema_ok_deleteBook db id db' r :
  deleteBook db id = Returns (db', r) -> schema_ok db -> schema_ok db'.
Proof.
  intros (_ & _ & Hbks & Htxs & Hms & _)%deleteBook_Returns [H1 H2 H3 H4 H5 H6].
  split; rewrite ?Hbks, ?Htxs, ?Hms; try done.
  - apply (unique_subseteq isbn (books db)); [done|]. apply delete_subseteq.
  - intros k t [Hk Hne]%map_lookup_filter_Some. cbn in Hne.
    rewrite lookup_delete_ne by done. by apply (H4 k t).
  - intros k t [Hk _]%map_lookup_filter_Some. by apply (H5 k t).
Qed.

Lemma schema_ok_deleteMember db id db' r :
  deleteMember db id = Returns (db', r) -> schema_ok db -> schema_ok db'.
Proof.
  intros (_ & _ & Hbks & Htxs & Hms & _)%deleteMember_Returns [H1 H2 H3 H4 H5 H6].
  split; rewrite ?Hbks, ?Htxs, ?Hms; try done.
  - intros i j m n Hi Hj. apply (H2 i j m n); by eapply lookup_weaken, delete_subseteq.
  - apply (unique_subseteq email (members db)); [done|]. apply delete_subseteq.
  - intros k t [Hk _]%map_lookup_filter_Some. by apply (H4 k t).
  - intros k t [Hk Hne]%map_lookup_filter_Some. cbn in Hne.
    rewrite lookup_delete_ne by done. by apply (H5 k t).
  - intros i m Hi. apply (H6 i m). by eapply lookup_weaken, delete_subseteq.
Qed.

Lemma schema_ok_createTransaction db now data db' o :
  createTransaction db now data = Returns (db', o) -> schema_ok db -> schema_ok db'.
Proof.
  intros (b & Hb & Hm & _ & Hbks & Htxs & Hms & _ & _)%createTransaction_Returns
         [H1 H2 H3 H4 H5 H6].
  assert (forall k, is_Some (books db !! k) -> is_Some (books db' !! k)) as Hkeys.
  { intros k Hk. rewrite Hbks.
    destruct (decide (k = transactionData.bookId data)) as [->|Hne].
    - rewrite lookup_insert_eq. by eexists.
    - by rewrite lookup_insert_ne. }
  split; rewrite ?Hms; try done.
  - rewrite Hbks. by apply (unique_replace isbn _ _ b).
  - intros k t. rewrite Htxs. intros [[_ <-]|[_ Hk]]%lookup_insert_Some.
    + apply Hkeys. cbn. by rewrite Hb.
    + apply Hkeys. by apply (H4 k t).
  - intros k t. rewrite Htxs. intros [[_ <-]|[_ Hk]]%lookup_insert_Some.
    + done.
    + by apply (H5 k t).
Qed.

Lemma schema_ok_returnBook db now id fine db' o :
  returnBook db now id fine = Returns (db', o) -> schema_ok db -> schema_ok db'.
Proof.
  intros (old & Hold & _ & Htxs & Hms & _ & _ & Hbks)%returnBook_Returns
         [H1 H2 H3 H4 H5 H6].
  assert (forall k, is_Some (books db !! k) -> is_Some (books db' !! k)) as Hkeys.
  { intros k Hk. destruct (return_date old), (books db !! book_id old) as [b|] eqn:Hb;
      try (by rewrite Hbks).
    destruct Hbks as [-> _].
    destruct (decide (k = book_id old)) as [->|Hne].
    - rewrite lookup_insert_eq. by eexists.
    - by rewrite lookup_insert_ne. }
  split; rewrite ?Hms; try done.
  - destruct (return_date old), (books db !! book_id old) as [b|] eqn:Hb;
      try (by rewrite Hbks).
    destruct Hbks as [-> _]. by apply (unique_replace isbn _ _ b).
  - intros k t. rewrite Htxs. intros [[_ <-]|[_ Hk]]%lookup_insert_Some.
    + apply Hkeys. by apply (H4 id old).
    + apply Hkeys. by apply (H4 k t).
  - intros k t. rewrite Htxs. intros [[_ <-]|[_ Hk]]%lookup_insert_Some.
    + by apply (H5 id old).
    + by apply (H5 k t).
Qed.

Lemma schema_ok_member_row db id data created updated :
  schema_ok db ->
  validate_member data = None ->
  (forall k m, members db !! k = Some m -> k <> id ->
               member_id m <> memberData.memberId data) ->
  (forall k m, members db !! k = Some m -> k <> id ->
               is_Some (js_or_null (memberData.email data)) ->
               email m <> js_or_null (memberData.email data)) ->
  (forall k t, transactions db !! k = Some t -> t_member_id t = id ->
               is_Some (members db !! id)) ->
  schema_ok (with_members db (<[id := member_row data created updated]> (members db))).
Proof.
  intros [H1 H2 H3 H4 H5 H6] (Hn & Hi & He)%validate_member_None Hid Hemail Hfk.
  split; cbn [with_members books members transactions]; try done.
  - intros i j m n Hi' Hj' Hmn.
    apply (unique_insert (fun m => Some (member_id m)) (members db) id
             (member_row data created updated)) with (a := m) (b := n); try done.
    + intros i0 j0 a b Ha Hb _ [= Hab]. by apply (H2 i0 j0 a b).
    + intros k a Hk Hne _ [= Hab]. by apply (Hid k a).
    + by rewrite Hmn.
  - apply (unique_insert email); [done|]. intros k a Hk Hne Hrow. by apply (Hemail k a).
  - intros k t Hk. destruct (decide (t_member_id t = id)) as [->|Hne].
    + rewrite lookup_insert_eq. by eexists.
    + rewrite lookup_insert_ne by done. by apply (H5 k t).
  - intros i m. intros [[_ <-]|[_ Hm]]%lookup_insert_Some; [|by apply (H6 i m)].
    cbn. done.
Qed.

Lemma schema_ok_members_create email_first s now data s' o :
  members_create email_first s now data = (s', Success o) ->
  schema_ok (database s) -> schema_ok (database s').
Proof.
  intros [Hv (_ & Hid & He & -> & _)%createMember_Returns]%members_create_Success Hok.
  cbn [database]. apply schema_ok_member_row; try done.
  - intros k m Hk _. by apply (member_id_taken_false _ _ _ Hid k m).
  - intros k m Hk _. by apply (email_taken_false _ _ _ He k m).
  - intros k t Hk Ht. rewrite <- Ht. by apply (ok_fk_member _ Hok k t).
Qed.

Lemma schema_ok_members_update email_first s now id data s' o :
  members_update email_first s now id data = (s', Success o) ->
  schema_ok (database s) -> schema_ok (database s').
Proof.
  intros [Hv (old & Hold & _ & Hid & He & -> & _)%updateMember_Returns]%members_update_Success
         Hok.
  cbn [database with_database]. apply schema_ok_member_row; try done.
  - intros k m Hk Hne. apply (member_id_taken_false _ _ _ Hid k m); [done|congruence].
  - intros k m Hk Hne. apply (email_taken_false _ _ _ He k m); [done|congruence].
Qed.

Lemma schema_ok_step s s' :
  library_step s s' -> schema_ok (database s) -> schema_ok (database s').
Proof.
  intros [now data db' o H|now id data db' o H|id db' H|ef now data s'' o H
         |ef now id data s'' o H|id db' H|now bookId memberId dueDate db' r H
         |now transactionId db' r H|st] Hok; cbn [database with_database].
  - by eapply schema_ok_createBook.
  - by eapply schema_ok_updateBook.
  - apply books_delete_Success in H. by eapply schema_ok_deleteBook.
  - by eapply schema_ok_members_create.
  - by eapply schema_ok_members_update.
  - apply members_delete_Success in H. by eapply schema_ok_deleteMember.
  - apply transactions_lend_Success in H as (member & due & notes & _ & _ & H).
    by eapply schema_ok_createTransaction.
  - apply transactions_return_Success in H as (t & b & m & _ & _ & _ & _ & _ & H).
    by eapply schema_ok_returnBook.
  - by apply schema_ok_settings.
Qed.

Lemma library_reachable_schema_ok s : library_reachable s -> schema_ok (database s).
Proof.
  induction 1 as [st sb stx sm|s s' _ IH Hstep].
  - apply schema_ok_empty.
  - by apply (schema_ok_step s s').
Qed.

(** Every step of the application is a step of the store. *)
Lemma library_step_store_step s s' :
  library_step s s' -> store_step (database s) (database s').
Proof.
  intros [now data db' o H|now id data db' o H|id db' H|ef now data s'' o H
         |ef now id data s'' o H|id db' H|now bookId memberId dueDate db' r H
         |now transactionId db' r H|st]; cbn [database with_database].
  - apply store_ledger_step. by eapply step_createBook.
  - by eapply store_updateBook.
  - apply books_delete_Success in H. apply store_ledger_step. by eapply step_deleteBook.
  - apply members_create_Success in H as [_ (_ & _ & _ & -> & _)%createMember_Returns].
    apply store_ledger_step. apply step_members_settings.
  - apply members_update_Success in H
      as [_ (old & _ & _ & _ & _ & -> & _)%updateMember_Returns].
    apply store_ledger_step. apply step_members_settings.
  - apply members_delete_Success in H. apply store_ledger_step. by eapply step_deleteMember.
  - apply store_ledger_step. by eapply step_lend.
  - apply store_ledger_step. by eapply step_return.
  - apply store_ledger_step. apply step_members_settings.
Qed.

Lemma library_reachable_store_reachable s :
  library_reachable s -> store_reachable (database s).
Proof.
  induction 1 as [st sb stx sm|s s' _ IH Hstep].
  - apply store_reachable_empty.
  - eapply store_reachable_step; [done|]. by apply library_step_store_step.
Qed.

Lemma library_reachable_desk : library_reachable desk.lent_both.
Proof.
  apply (library_reachable_step desk.lent).
  - apply (library_reachable_step desk.stocked).
    + apply (library_reachable_step desk.both_joined).
      * apply (library_reachable_step desk.ann_joined).
        -- apply (library_reachable_step desk.opened); [apply library_reachable_empty|].
           apply (lib_members_create _ false fixture.t0 desk.ann_data _
                    (getMemberById (database desk.ann_joined) 1)).
           vm_compute. reflexivity.
        -- apply (lib_members_create _ false fixture.t0 desk.bob_data _
                    (getMemberById (database desk.both_joined) 2)).
           vm_compute. reflexivity.
      * apply (lib_createBook desk.both_joined fixture.t0 (fixture.book_data 2)
                 (database desk.stocked) (getBookById (database desk.stocked) 1)).
        vm_compute. reflexivity.
    + apply (lib_transactions_lend desk.stocked fixture.t0 1 2 None
               (database desk.lent) (getTransactionById (database desk.lent) 1)).
      vm_compute. reflexivity.
  - apply (lib_transactions_lend desk.lent fixture.t0 1 1 (Some (fixture.day0 + 1))
             (database desk.lent_both) (getTransactionById (database desk.lent_both) 2)).
    vm_compute. reflexivity.
Defined.

(** ** Unique columns *)

(** X9.  In every state the application reaches, no two books carry the
    same ISBN, no two members the same member id, and no two members the
    same e-mail address. *)
Theorem unique_columns_stay_unique (s : Store) :
  library_reachable s ->
  (forall i j b c, books (database s) !! i = Some b -> books (database s) !! j = Some c ->
                   i <> j -> is_Some (isbn b) -> isbn b <> isbn c)
  /\ (forall i j m n, members (database s) !! i = Some m ->
                      members (database s) !! j = Some n -> i <> j ->
                      member_id m <> member_id n
                      /\ (is_Some (email m) -> email m <> email n)).
Proof.
  intros [H1 H2 H3 _ _ _]%library_reachable_schema_ok. split.
  - intros i j b c Hi Hj Hne Hb Hbc. by apply Hne, (H1 i j b c).
  - intros i j m n Hi Hj Hne. split.
    + intros Hmn. by apply Hne, (H2 i j m n).
    + intros Hm Hmn. by apply Hne, (H3 i j m n).
Qed.

Lemma unique_columns_stay_unique_witness :
  library_reachable desk.lent_both
  /\ (forall i j b c, books (database desk.lent_both) !! i = Some b ->
                      books (database desk.lent_both) !! j = Some c ->
                      i <> j -> is_Some (isbn b) -> isbn b <> isbn c)
  /\ (forall i j m n, members (database desk.lent_both) !! i = Some m ->
                      members (database desk.lent_both) !! j = Some n -> i <> j ->
                      member_id m <> member_id n
                      /\ (is_Some (email m) -> email m <> email n)).
Proof.
  split; [exact library_reachable_desk|].
  exact (unique_columns_stay_unique desk.lent_both library_reachable_desk).
Defined.

(** ** Referential integrity *)

(** X10.  In every state the application reaches, the book and the member
    of each stored transaction exist, so [getTransactionById] finds every
    stored transaction. *)
Theorem referential_integrity (s : Store) (k : Z) (t : Transaction) :
  library_reachable s -> transactions (database s) !! k = Some t ->
  exists b m,
    books (database s) !! book_id t = Some b
    /\ members (database s) !! t_member_id t = Some m
    /\ getTransactionById (database s) k
       = Some (mkTransactionObject k t (title b) (name m) (member_type m)).
Proof.
  intros Hok%library_reachable_schema_ok Hk.
  destruct (ok_fk_book _ Hok k t Hk) as [b Hb].
  destruct (ok_fk_member _ Hok k t Hk) as [m Hm].
  exists b, m. unfold getTransactionById. by rewrite Hk, Hb, Hm.
Qed.

Lemma referential_integrity_witness :
  exists b m,
    books (database desk.lent_both) !! book_id scenario_A_loan = Some b
    /\ members (database desk.lent_both) !! t_member_id scenario_A_loan = Some m
    /\ getTransactionById (database desk.lent_both) 1
       = Some (mkTransactionObject 1 scenario_A_loan (title b) (name m) (member_type m)).
Proof.
  apply (referential_integrity desk.lent_both 1 scenario_A_loan library_reachable_desk).
  vm_compute. reflexivity.
Defined.

(** ** The list of active loans *)

Lemma elem_of_getActiveTransactions db now o :
  o ∈ (getActiveTransactions db now).2 <->
  exists id t b m,
    transactions db !! id = Some t /\ open_loan t
    /\ books db !! book_id t = Some b /\ members db !! t_member_id t = Some m
    /\ o = active_object now (id, t, b, m).
Proof.
  unfold getActiveTransactions. cbn [snd]. rewrite merge_sort_Permutation, list_elem_of_fmap.
  split.
  - intros (r & -> & (kt & Hkt & Hj)%list_elem_of_omap).
    apply list_elem_of_filter in Hkt as [Ho Hin].
    destruct kt as [id t]. apply elem_of_map_to_list in Hin.
    apply joined_Some in Hj as (b & m & Hb & Hm & ->). cbn in *. eauto 10.
  - intros (id & t & b & m & Ht & Ho & Hb & Hm & ->).
    exists (id, t, b, m). split; [done|].
    apply list_elem_of_omap. exists (id, t). split.
    + apply list_elem_of_filter. split; [done|]. by apply elem_of_map_to_list.
    + apply joined_Some. exists b, m. done.
Qed.

Lemma active_ids_sublist db now (l : list (Z * Transaction)) :
  lo_id <$> (active_object now <$> omap (joined db) l) `sublist_of` l.*1.
Proof.
  induction l as [|kt l IH]; [done|]. cbn.
  destruct (joined db kt) as [r|] eqn:Hj.
  - apply joined_Some in Hj as (b & m & _ & _ & ->). cbn. by constructor.
  - by constructor.
Qed.

Lemma length_joined db (l : list (Z * Transaction)) :
  (forall kt, kt ∈ l -> is_Some (books db !! book_id kt.2)
                        /\ is_Some (members db !! t_member_id kt.2)) ->
  length (omap (joined db) l) = length l.
Proof.
  induction l as [|kt l IH]; [done|]. intros Hall. cbn.
  destruct (Hall kt ltac:(by left)) as [[b Hb] [m Hm]].
  unfold joined at 1. rewrite Hb, Hm. cbn. f_equal. apply IH.
  intros kt' Hin. apply Hall. by right.
Qed.

#[local] Instance due_le_total : Total due_le.
Proof.
  intros x y. unfold due_le.
  destruct (due_date (lo_row x)), (due_date (lo_row y)); try tauto. lia.
Qed.

(** X11.  In every state the application reaches, [getActiveTransactions]
    lists each open loan exactly once and nothing else, flags exactly the
    loans due before today as overdue, and is sorted by due date. *)
Theorem active_transactions_complete (s : Store) (now : Z) :
  library_reachable s ->
  NoDup (lo_id <$> (getActiveTransactions (database s) now).2)
  /\ (forall k t, transactions (database s) !! k = Some t -> open_loan t ->
        exists o, o ∈ (getActiveTransactions (database s) now).2
                  /\ lo_id o = k /\ lo_row o = t)
  /\ (forall o, o ∈ (getActiveTransactions (database s) now).2 ->
        transactions (database s) !! lo_id o = Some (lo_row o)
        /\ open_loan (lo_row o)
        /\ lo_status o
           = Some (if due_before_today now (lo_row o) then overdue else on_time))
  /\ length (getActiveTransactions (database s) now).2
     = size (filter (fun kt => open_loan kt.2) (transactions (database s)))
  /\ Sorted due_le (getActiveTransactions (database s) now).2.
Proof.
  intros Hok%library_reachable_schema_ok. repeat apply conj.
  - unfold getActiveTransactions. cbn [snd]. rewrite merge_sort_Permutation.
    eapply sublist_NoDup; [|apply active_ids_sublist].
    eapply sublist_NoDup; [apply (NoDup_fst_map_to_list (transactions (database s)))|].
    apply fmap_sublist, sublist_filter.
  - intros k t Hk Ho.
    destruct (ok_fk_book _ Hok k t Hk) as [b Hb].
    destruct (ok_fk_member _ Hok k t Hk) as [m Hm].
    exists (active_object now (k, t, b, m)). split; [|done].
    apply elem_of_getActiveTransactions. eauto 10.
  - intros o (id & t & b & m & Ht & Ho & _ & _ & ->)%elem_of_getActiveTransactions. done.
  - unfold getActiveTransactions. cbn [snd].
    rewrite merge_sort_Permutation, length_fmap, length_joined.
    + symmetry. apply size_filter_map_to_list.
    + intros [k t] [_ Hin%elem_of_map_to_list]%list_elem_of_filter. cbn.
      split; [by apply (ok_fk_book _ Hok k t)|by apply (ok_fk_member _ Hok k t)].
  - apply (Sorted_merge_sort due_le).
Qed.

(** Two loans are open at the desk; on day [day0 + 3] the one due on
    [day0 + 1] is overdue and listed first. *)
Lemma active_transactions_complete_witness :
  (lo_id <$> (getActiveTransactions (database desk.lent_both) (fixture.at_day 3)).2
   = [2; 1])
  /\ (lo_status <$> (getActiveTransactions (database desk.lent_both) (fixture.at_day 3)).2
      = [Some overdue; Some on_time])
  /\ Sorted due_le (getActiveTransactions (database desk.lent_both) (fixture.at_day 3)).2.
Proof.
  split; [vm_compute; reflexivity|]. split; [vm_compute; reflexivity|].
  apply (active_transactions_complete desk.lent_both (fixture.at_day 3)
           library_reachable_desk).
Defined.

(** ** Registering members *)

Lemma count_open_member_unreferenced txs id :
  (forall k t, txs !! k = Some t -> t_member_id t <> id) ->
  count_open_member txs id = 0.
Proof.
  intros Hno. unfold count_open_member, open_loans_of_member.
  rewrite size_filter_none; [done|]. intros k t Hk [Hid _]. by apply (Hno k t).
Qed.

(** X12.  A successful [members:create] in a reachable state stores the
    submitted data under an id above every id in use, touches no other
    member, book, transaction or setting, and answers with the new member
    and zero active loans. *)
Theorem members_create_result (email_first : bool) (s s' : Store) (now : Z)
    (data : memberData.t) (o : option MemberObject) :
  library_reachable s ->
  members_create email_first s now data = (s', Success o) ->
  exists id,
    (forall k, is_Some (members (database s) !! k) -> k < id)
    /\ seq_members s < id /\ seq_members s' = id
    /\ members (database s') = <[id := member_row data now now]> (members (database s))
    /\ books (database s') = books (database s)
    /\ transactions (database s') = transactions (database s)
    /\ settings (database s') = settings (database s)
    /\ o = Some (mkMemberObject id (member_row data now now) 0).
Proof.
  intros Hok%library_reachable_schema_ok
         [_ (_ & _ & _ & -> & ->)%createMember_Returns]%members_create_Success.
  exists (next_rowid (seq_members s) (members (database s))).
  cbn [database seq_members with_members members books transactions settings].
  repeat apply conj; try done.
  - intros k [m Hk]. apply max_key_ge in Hk. unfold next_rowid. lia.
  - unfold next_rowid. lia.
  - unfold getMemberById. cbn [members transactions with_members].
    rewrite lookup_insert_eq. do 2 f_equal.
    apply count_open_member_unreferenced. intros k t Hk Hid.
    destruct (ok_fk_member _ Hok k t Hk) as [m Hm].
    by rewrite Hid, next_rowid_fresh in Hm.
Qed.

Lemma members_create_result_witness :
  exists id,
    (forall k, is_Some (members (database desk.ann_joined) !! k) -> k < id)
    /\ seq_members desk.ann_joined < id /\ seq_members desk.both_joined = id
    /\ members (database desk.both_joined)
       = <[id := member_row desk.bob_data fixture.t0 fixture.t0]>
           (members (database desk.ann_joined))
    /\ books (database desk.both_joined) = books (database desk.ann_joined)
    /\ transactions (database desk.both_joined) = transactions (database desk.ann_joined)
    /\ settings (database desk.both_joined) = settings (database desk.ann_joined)
    /\ getMemberById (database desk.both_joined) 2
       = Some (mkMemberObject id (member_row desk.bob_data fixture.t0 fixture.t0) 0).
Proof.
  apply (members_create_result false desk.ann_joined desk.both_joined fixture.t0
           desk.bob_data).
  - apply (library_reachable_step desk.opened); [apply library_reachable_empty|].
    apply (lib_members_create _ false fixture.t0 desk.ann_data _
             (getMemberById (database desk.ann_joined) 1)).
    vm_compute. reflexivity.
  - vm_compute. reflexivity.
Defined.

(** X13.  Every member the application has stored passed the handlers'
    validation and satisfies the CHECK constraints of the table: the
    trimmed name has at least two characters, the member id at least
    three, and a stored e-mail address is non-empty and well formed. *)
Theorem stored_members_valid (s : Store) (i : Z) (m : Member) :
  library_reachable s -> members (database s) !! i = Some m ->
  (2 <= String.length (trim (name m)))%nat
  /\ (3 <= String.length (member_id m))%nat
  /\ check_member m = None
  /\ (forall e, email m = Some e -> e <> "" /\ isValidEmail e = true).
Proof.
  intros Hok%library_reachable_schema_ok Hm.
  destruct (ok_member_valid _ Hok i m Hm) as (Hn & Hi & He).
  pose proof (length_trim (name m)) as Ht.
  repeat apply conj; try done.
  - unfold check_member.
    rewrite (proj2 (Nat.leb_le 2 _)) by lia.
    rewrite (proj2 (Nat.leb_le 3 _)) by lia. done.
  - intros e Hem. split; [|by apply He].
    intros ->. specialize (He "" Hem). vm_compute in He. discriminate.
Qed.

Lemma stored_members_valid_witness :
  (2 <= String.length (trim (name (member_row desk.ann_data fixture.t0 fixture.t0))))%nat
  /\ (3 <= String.length (member_id (member_row desk.ann_data fixture.t0 fixture.t0)))%nat
  /\ check_member (member_row desk.ann_data fixture.t0 fixture.t0) = None
  /\ (forall e, email (member_row desk.ann_data fixture.t0 fixture.t0) = Some e ->
                e <> "" /\ isValidEmail e = true).
Proof.
  apply (stored_members_valid desk.lent_both 1 _ library_reachable_desk).
  vm_compute. reflexivity.
Defined.

(** ** The e-mail pattern *)

Lemma matches_seq_inv r1 r2 s :
  matches (re_seq r1 r2) s <->
  exists s1 s2, s = s1 +:+ s2 /\ matches r1 s1 /\ matches r2 s2.
Proof.
  split.
  - inversion 1; subst. eauto.
  - intros (s1 & s2 & -> & H1 & H2). by constructor.
Qed.

Lemma matches_class_inv p s :
  matches (re_class p) s <-> exists c, s = String c "" /\ p c = true.
Proof.
  split.
  - inversion 1; subst. eauto.
  - intros (c & -> & Hc). by constructor.
Qed.

Lemma matches_char_inv c s : matches (re_char c) s <-> s = String c "".
Proof.
  unfold re_char. rewrite matches_class_inv. split.
  - intros (x & -> & ->%Ascii.eqb_eq). done.
  - intros ->. exists c. by rewrite Ascii.eqb_refl.
Qed.

Lemma matches_star_class p s :
  matches (re_star (re_class p)) s <-> all_chars p s = true.
Proof.
  split.
  - intros H. remember (re_star (re_class p)) as r eqn:Hr.
    induction H as [| | | | | |r1 s1 s2 H1 _ H2 IH2]; try discriminate; [done|].
    injection Hr as ->. apply matches_class_inv in H1 as (c & -> & Hc).
    change (String c "" +:+ s2) with (String c s2). cbn [all_chars].
    rewrite Hc. by apply IH2.
  - induction s as [|c s IH]; cbn; [constructor|].
    intros [Hc Hs]%andb_prop. change (String c s) with (String c "" +:+ s).
    constructor; [by constructor|by apply IH].
Qed.

Lemma matches_plus_class p s :
  matches (re_plus (re_class p)) s <-> s <> "" /\ all_chars p s = true.
Proof.
  unfold re_plus. rewrite matches_seq_inv. split.
  - intros (s1 & s2 & -> & (c & -> & Hc)%matches_class_inv & H2%matches_star_class).
    change (String c "" +:+ s2) with (String c s2). split; [done|].
    cbn [all_chars]. by rewrite Hc.
  - intros [Hne Hall]. destruct s as [|c s]; [done|]. cbn in Hall.
    apply andb_prop in Hall as [Hc Hs].
    exists (String c ""), s. split; [done|]. split; [by constructor|].
    by apply matches_star_class.
Qed.

(** X14.  [isValidEmail] accepts exactly the strings [a@b.c] in which
    [a], [b] and [c] are non-empty and contain neither white space nor
    [@]: one [@], and after it a dot with text on both sides. *)
Theorem isValidEmail_spec (email : string) :
  isValidEmail email = true <->
  exists a b c,
    email = a +:+ "@" +:+ b +:+ "." +:+ c
    /\ a <> "" /\ b <> "" /\ c <> ""
    /\ all_chars not_space_or_at a = true
    /\ all_chars not_space_or_at b = true
    /\ all_chars not_space_or_at c = true.
Proof.
  unfold isValidEmail, emailRegex. rewrite regex_test_spec. split.
  - intros (a & ? & -> & [Ha Ha']%matches_plus_class
            & (? & ? & -> & ->%matches_char_inv
               & (b & ? & -> & [Hb Hb']%matches_plus_class
                  & (? & c & -> & ->%matches_char_inv
                     & [Hc Hc']%matches_plus_class)%matches_seq_inv
                 )%matches_seq_inv)%matches_seq_inv)%matches_seq_inv.
    exists a, b, c. done.
  - intros (a & b & c & -> & Ha & Hb & Hc & Ha' & Hb' & Hc').
    constructor; [by apply matches_plus_class|].
    constructor; [by apply matches_char_inv|].
    constructor; [by apply matches_plus_class|].
    constructor; [by apply matches_char_inv|].
    by apply matches_plus_class.
Qed.

(** ** Duplicate member ids and e-mail addresses *)

(** X15.  [members:create] with valid data whose member id or e-mail
    address is already carried by a member fails, stores nothing, and
    reports a collision that exists: 'A member with this ID already
    exists' only when the id is taken, 'A member with this email already
    exists' only when the address is. *)
Theorem members_create_rejects_duplicates (email_first : bool) (s : Store) (now : Z)
    (data : memberData.t) (k : Z) (m : Member) :
  validate_member data = None ->
  members (database s) !! k = Some m ->
  member_id m = memberData.memberId data
  \/ (is_Some (email m) /\ email m = js_or_null (memberData.email data)) ->
  (members_create email_first s now data
   = (s, Failure (Msg "A member with this ID already exists"))
   /\ exists k' m', members (database s) !! k' = Some m'
                    /\ member_id m' = memberData.memberId data)
  \/ (members_create email_first s now data
      = (s, Failure (Msg "A member with this email already exists"))
      /\ exists k' m', members (database s) !! k' = Some m'
                       /\ is_Some (email m')
                       /\ email m' = js_or_null (memberData.email data)).
Proof.
  intros Hv Hk Hdup. unfold members_create, createMember. rewrite Hv.
  rewrite (check_member_validated _ _ _ Hv). unfold unique_violation.
  cbn [member_row member_id email].
  destruct (member_id_taken _ _ _) eqn:Hi, (email_taken _ _ _) eqn:He.
  - destruct email_first; cbn.
    + right. split; [done|].
      apply email_taken_true in He as (Hs & k' & m' & Hk' & _ & Hm').
      exists k', m'. by rewrite Hm'.
    + left. split; [done|].
      apply member_id_taken_true in Hi as (k' & m' & Hk' & _ & Hm'). by exists k', m'.
  - left. split; [done|].
    apply member_id_taken_true in Hi as (k' & m' & Hk' & _ & Hm'). by exists k', m'.
  - right. split; [done|].
    apply email_taken_true in He as (Hs & k' & m' & Hk' & _ & Hm').
    exists k', m'. by rewrite Hm'.
  - exfalso. destruct Hdup as [Hd|[Hs Hd]].
    + by apply (member_id_taken_false _ _ _ Hi k m).
    + apply (email_taken_false _ _ _ He k m); [done..| |done]. by rewrite <- Hd.
Qed.

(** Registering Ann a second time, under another e-mail address. *)
Lemma members_create_rejects_duplicates_witness :
  (members_create true desk.lent_both fixture.t0
     (memberData.mk "Ann B." "F001" (Some "annb@example.org") None None student None)
   = (desk.lent_both, Failure (Msg "A member with this ID already exists"))
   /\ exists k' m', members (database desk.lent_both) !! k' = Some m'
                    /\ member_id m' = "F001")
  \/ (members_create true desk.lent_both fixture.t0
        (memberData.mk "Ann B." "F001" (Some "annb@example.org") None None student None)
      = (desk.lent_both, Failure (Msg "A member with this email already exists"))
      /\ exists k' m', members (database desk.lent_both) !! k' = Some m'
                       /\ is_Some (email m')
                       /\ email m' = Some "annb@example.org").
Proof.
  apply (members_create_rejects_duplicates true desk.lent_both fixture.t0
           (memberData.mk "Ann B." "F001" (Some "annb@example.org") None None student None)
           1 (member_row desk.ann_data fixture.t0 fixture.t0)).
  - vm_compute. reflexivity.
  - vm_compute. reflexivity.
  - left. reflexivity.
Defined.

(** X16.  In a reachable state, [members:update] with valid data that
    keeps the member's own member id and e-mail address succeeds: a row
    never collides with itself.  The call rewrites that member's row only
    and leaves books and transactions alone.  This is stated of a name and
    a member id without NUL character, the texts whose characters the
    handler and the CHECK constraints of the table count alike. *)
Theorem members_update_keeps_identity (email_first : bool) (s : Store) (now id : Z)
    (data : memberData.t) (old : Member) :
  library_reachable s ->
  members (database s) !! id = Some old ->
  validate_member data = None ->
  all_chars (fun c => negb (Ascii.eqb c Ascii.zero)) (memberData.name data) = true ->
  all_chars (fun c => negb (Ascii.eqb c Ascii.zero)) (memberData.memberId data) = true ->
  memberData.memberId data = member_id old ->
  js_or_null (memberData.email data) = email old ->
  exists s',
    members_update email_first s now id data
    = (s', Success (Some (mkMemberObject id (member_row data (m_created_at old) now)
                            (count_open_member (transactions (database s)) id))))
    /\ members (database s')
       = <[id := member_row data (m_created_at old) now]> (members (database s))
    /\ books (database s') = books (database s)
    /\ transactions (database s') = transactions (database s)
    /\ seq_members s' = seq_members s.
Proof.
  intros Hok%library_reachable_schema_ok Hold Hv _ _ Hid Hemail.
  unfold members_update, updateMember. rewrite Hv, Hold.
  rewrite (check_member_validated _ _ _ Hv).
  assert (unique_violation email_first (members (database s)) (Some id)
            (member_row data (m_created_at old) now) = None) as ->.
  { apply unique_violation_None. cbn [member_row member_id email]. split.
    - destruct (member_id_taken _ _ _) eqn:Ht; [|done].
      apply member_id_taken_true in Ht as (k & m & Hk & Hne & Hm).
      destruct Hne. f_equal.
      apply (ok_member_id_unique _ Hok k id m old); [done..|congruence].
    - destruct (email_taken _ _ _) eqn:Ht; [|done].
      apply email_taken_true in Ht as (Hs & k & m & Hk & Hne & Hm).
      destruct Hne. f_equal.
      apply (ok_email_unique _ Hok k id m old); [done..| |congruence].
      by rewrite Hm. }
  eexists. split.
  - unfold getMemberById. cbn [with_members members transactions].
    by rewrite lookup_insert_eq.
  - done.
Qed.

(** Ann moves from faculty to public and keeps id and address. *)
Lemma members_update_keeps_identity_witness :
  exists s',
    members_update false desk.lent_both (fixture.at_day 1) 1
      (memberData.mk "Ann" "F001" (Some "ann@example.org") None None public None)
    = (s', Success (Some (mkMemberObject 1
                            (member_row
                               (memberData.mk "Ann" "F001" (Some "ann@example.org")
                                  None None public None)
                               (m_created_at (member_row desk.ann_data fixture.t0 fixture.t0))
                               (fixture.at_day 1))
                            (count_open_member (transactions (database desk.lent_both)) 1))))
    /\ members (database s')
       = <[1 := member_row
                  (memberData.mk "Ann" "F001" (Some "ann@example.org") None None public None)
                  (m_created_at (member_row desk.ann_data fixture.t0 fixture.t0))
                  (fixture.at_day 1)]> (members (database desk.lent_both))
    /\ books (database s') = books (database desk.lent_both)
    /\ transactions (database s') = transactions (database desk.lent_both)
    /\ seq_members s' = seq_members desk.lent_both.
Proof.
  apply (members_update_keeps_identity false desk.lent_both (fixture.at_day 1) 1
           (memberData.mk "Ann" "F001" (Some "ann@example.org") None None public None)
           (member_row desk.ann_data fixture.t0 fixture.t0) library_reachable_desk).
  - vm_compute. reflexivity.
  - vm_compute. reflexivity.
  - vm_compute. reflexivity.
  - vm_compute. reflexivity.
  - reflexivity.
  - reflexivity.
Defined.

(** * The PIN lock *)

Lemma getSetting_not_false a key :
  auth.strict_eq (auth.getSetting a key) (auth.js_bool false) = false.
Proof. unfold auth.getSetting. by destruct (auth.rows a !! key). Qed.

Lemma pretty_N_go_nonempty (x : N) (s : string) : s <> "" -> pretty_N_go x s <> "".
Proof.
  revert s. induction (N.lt_wf_0 x) as [x _ IH]. intros s Hs.
  destruct (decide (x = 0%N)) as [->|Hx].
  - by rewrite pretty_N_go_0.
  - rewrite pretty_N_go_step by lia. apply IH; [|done].
    apply N.div_lt; lia.
Qed.

Lemma pretty_Z_nonempty (n : Z) : pretty n <> "".
Proof.
  destruct n as [|p|p]; [done| |done].
  change (pretty (Z.pos p)) with (pretty_N_go (N.pos p) "").
  rewrite pretty_N_go_step by lia. by apply pretty_N_go_nonempty.
Qed.

Lemma JSON_stringify_nonempty v : auth.JSON_stringify v <> "".
Proof.
  destruct v as [|[]|n|s]; try done. apply pretty_Z_nonempty.
Qed.

Lemma string_length_app (s1 s2 : string) :
  String.length (s1 +:+ s2) = (String.length s1 + String.length s2)%nat.
Proof. induction s1 as [|c s1 IH]; [done|]. cbn. by rewrite <- IH. Qed.

Lemma length_json_escape s : (String.length s <= String.length (auth.json_escape s))%nat.
Proof.
  induction s as [|c s IH]; [done|]. cbn [auth.json_escape]. rewrite string_length_app.
  assert (1 <= String.length (auth.json_escape_char c))%nat as Hc.
  { unfold auth.json_escape_char. repeat case_match; cbn [String.length]; try lia.
    rewrite string_length_app. cbn [String.length]. lia. }
  cbn [String.length]. lia.
Qed.

(** ** Lock-out *)

Lemma login_wrong_pin bcrypt_compare a now pin text :
  auth.rows a !! "authPinHash" = Some text -> text <> "" ->
  auth.isLockedOut a now auth.getClientInfo = false ->
  bcrypt_compare pin text = false ->
  auth.login bcrypt_compare a now pin
  = (auth.recordFailedAttempt a now auth.getClientInfo, Throws (Msg "Invalid PIN")).
Proof.
  intros Hrow Htext Hlock Hcmp. unfold auth.login.
  rewrite getSetting_not_false, Hlock. unfold auth.getSetting. rewrite Hrow. cbn.
  destruct (String.eqb_spec text ""); [done|]. cbn. by rewrite Hcmp.
Qed.

Lemma failed_logins_count bcrypt_compare text (tries : list (Z * string)) :
  Forall (fun tp => bcrypt_compare tp.2 text = false) tries ->
  forall a c a',
    auth.rows a !! "authPinHash" = Some text -> text <> "" ->
    match auth.loginAttempts a !! auth.getClientInfo with
    | Some attempts => auth.count attempts = c
    | None => c = 0
    end ->
    c + Z.of_nat (length tries) <= auth.maxLoginAttempts a ->
    tries <> [] ->
    a' = auth.after_all bcrypt_compare a
           (fmap (fun tp => auth.call_login tp.1 tp.2) tries) ->
    auth.loginAttempts a' !! auth.getClientInfo
    = Some (auth.mkAttempts (c + Z.of_nat (length tries))
              (default 0 (last (tries.*1))))
    /\ auth.maxLoginAttempts a' = auth.maxLoginAttempts a
    /\ auth.lockoutDuration a' = auth.lockoutDuration a
    /\ auth.sessionTimeout a' = auth.sessionTimeout a
    /\ auth.currentSession a' = auth.currentSession a
    /\ auth.rows a' = auth.rows a.
Proof.
  induction 1 as [|[t1 pin1] tries Hcmp _ IH]; intros a c a' Hrow Htext Hatt Hmax Hne ->;
    [done|].
  cbn [length] in Hmax. cbn [fst snd] in Hcmp.
  unfold auth.after_all. cbn [fmap list_fmap foldl auth.after fst snd].
  assert (auth.isLockedOut a t1 auth.getClientInfo = false) as Hlock.
  { unfold auth.isLockedOut. destruct (auth.loginAttempts a !! _) as [att|]; [|done].
    destruct (Z.leb_spec (auth.maxLoginAttempts a) (auth.count att)); [lia|done]. }
  rewrite (login_wrong_pin _ _ _ _ _ Hrow Htext Hlock Hcmp). cbn [fst].
  assert (auth.loginAttempts (auth.recordFailedAttempt a t1 auth.getClientInfo)
            !! auth.getClientInfo = Some (auth.mkAttempts (c + 1) t1)) as Hatt'.
  { unfold auth.recordFailedAttempt. cbn. rewrite lookup_insert_eq.
    destruct (auth.loginAttempts a !! _) as [att|]; cbn; by subst. }
  destruct tries as [|tp tries].
  - cbn [fmap list_fmap foldl]. rewrite Hatt'. repeat split; try done.
  - assert (c + 1 + Z.of_nat (length (tp :: tries))
            <= auth.maxLoginAttempts (auth.recordFailedAttempt a t1 auth.getClientInfo))
      as Hmax' by (cbn [length] in *; cbn; lia).
    assert (match auth.loginAttempts (auth.recordFailedAttempt a t1 auth.getClientInfo)
                  !! auth.getClientInfo with
            | Some attempts => auth.count attempts = c + 1
            | None => c + 1 = 0
            end) as Hc' by by rewrite Hatt'.
    destruct (IH (auth.recordFailedAttempt a t1 auth.getClientInfo) (c + 1) _
                Hrow Htext Hc' Hmax' ltac:(done) eq_refl)
      as (H1 & H2 & H3 & H4 & H5 & H6).
    unfold auth.after_all in *. cbn [fmap list_fmap] in *.
    rewrite H1, H2, H3, H4, H5, H6. repeat split; try done.
    f_equal. f_equal. cbn [length]. lia.
Qed.

(** X17.  After [maxLoginAttempts] logins in a row with PINs that bcrypt
    rejects, each answered 'Invalid PIN', every login in the next
    [lockoutDuration] milliseconds after the last of them is refused with
    'Account locked', whatever PIN it carries, and is not counted. *)
Theorem failed_logins_lock_out (bcrypt_compare : string -> string -> bool)
    (a : auth.AuthService) (text : string) (tries : list (Z * string))
    (last_try now : Z) (pin : string) :
  auth.rows a !! "authPinHash" = Some text -> text <> "" ->
  auth.loginAttempts a !! auth.getClientInfo = None ->
  Forall (fun tp => bcrypt_compare tp.2 text = false) tries ->
  Z.of_nat (length tries) = auth.maxLoginAttempts a ->
  last (tries.*1) = Some last_try ->
  now - last_try < auth.lockoutDuration a ->
  auth.login bcrypt_compare
    (auth.after_all bcrypt_compare a (fmap (fun tp => auth.call_login tp.1 tp.2) tries))
    now pin
  = (auth.after_all bcrypt_compare a (fmap (fun tp => auth.call_login tp.1 tp.2) tries),
     Throws (Msg ("Account locked. Try again in "
                  +:+ pretty (auth.ceil_div
                                (Z.max 0 (auth.lockoutDuration a - (now - last_try))) 60000)
                  +:+ " minutes"))).
Proof.
  intros Hrow Htext Hnone Hcmp Hlen Hlast Hnow.
  assert (tries <> []) as Hne by (intros ->; discriminate).
  assert (match auth.loginAttempts a !! auth.getClientInfo with
          | Some attempts => auth.count attempts = 0
          | None => 0 = 0
          end) as Hc by by rewrite Hnone.
  destruct (failed_logins_count bcrypt_compare text tries Hcmp a 0 _ Hrow Htext Hc
              ltac:(lia) Hne eq_refl) as (H1 & H2 & H3 & _ & _ & _).
  rewrite Hlast in H1. cbn [default] in H1.
  unfold auth.login. rewrite getSetting_not_false.
  unfold auth.isLockedOut, auth.getLockoutTimeLeft. rewrite H1, H2, H3. cbn.
  destruct (Z.leb_spec (auth.maxLoginAttempts a) (0 + Z.of_nat (length tries))); [|lia].
  destruct (Z.ltb_spec (now - last_try) (auth.lockoutDuration a)); [|lia]. done.
Qed.

(** ** Sessions *)

Lemma checkAuth_session a now session :
  auth.currentSession a = Some session ->
  auth.checkAuth a now
  = if auth.sessionTimeout a <? now - auth.startTime session
    then (auth.with_session a None, false)
    else (auth.with_session a (Some (auth.mkSession (auth.startTime session) now)), true).
Proof. intros Hs. unfold auth.checkAuth. by rewrite getSetting_not_false, Hs. Qed.

Lemma checkAuth_no_session a now :
  auth.currentSession a = None -> auth.checkAuth a now = (a, false).
Proof. intros Hs. unfold auth.checkAuth. by rewrite getSetting_not_false, Hs. Qed.

Lemma checkAuth_run bcrypt_compare (times : list Z) :
  forall a start last,
    auth.currentSession a = Some (auth.mkSession start last) ->
    (auth.sessionTimeout (auth.after_all bcrypt_compare a (auth.call_checkAuth <$> times))
     = auth.sessionTimeout a)
    /\ (auth.currentSession (auth.after_all bcrypt_compare a (auth.call_checkAuth <$> times))
        = None
        \/ exists last',
             auth.currentSession
               (auth.after_all bcrypt_compare a (auth.call_checkAuth <$> times))
             = Some (auth.mkSession start last'))
    /\ (Forall (fun t => t - start <= auth.sessionTimeout a) times ->
        exists last',
          auth.currentSession
            (auth.after_all bcrypt_compare a (auth.call_checkAuth <$> times))
          = Some (auth.mkSession start last')).
Proof.
  unfold auth.after_all.
  induction times as [|t times IH]; intros a start last Hs; cbn [fmap list_fmap foldl].
  { split; [done|]. split; [right|]; eauto. }
  cbn [auth.after]. rewrite (checkAuth_session _ _ _ Hs). cbn [auth.startTime].
  destruct (Z.ltb_spec (auth.sessionTimeout a) (t - start)) as [Hlt|Hle]; cbn [fst].
  - assert (forall b, auth.currentSession b = None ->
              foldl (auth.after bcrypt_compare) b (auth.call_checkAuth <$> times) = b)
      as Hstay.
    { clear. induction times as [|t times IH]; intros b Hb; [done|].
      cbn [fmap list_fmap foldl auth.after]. rewrite (checkAuth_no_session _ _ Hb).
      by apply IH. }
    rewrite Hstay by done. split; [done|]. split; [by left|].
    intros [Ht _]%Forall_cons. lia.
  - destruct (IH (auth.with_session a (Some (auth.mkSession start t))) start t eq_refl)
      as (H1 & H2 & H3).
    split; [done|]. split; [done|]. intros [_ Hts]%Forall_cons. by apply H3.
Qed.

(** X18.  A session lives for [sessionTimeout] milliseconds from the login
    that created it, and activity does not extend it: after any number of
    [checkAuth] calls, a [checkAuth] later than that answers false, and one
    within it, all earlier calls being within it too, answers true. *)
Theorem session_expires_absolutely (bcrypt_compare : string -> string -> bool)
    (a : auth.AuthService) (start last : Z) (times : list Z) (now : Z) :
  auth.currentSession a = Some (auth.mkSession start last) ->
  (auth.sessionTimeout a < now - start ->
   (auth.checkAuth (auth.after_all bcrypt_compare a (auth.call_checkAuth <$> times)) now).2
   = false)
  /\ (Forall (fun t => t - start <= auth.sessionTimeout a) times ->
      now - start <= auth.sessionTimeout a ->
      (auth.checkAuth (auth.after_all bcrypt_compare a (auth.call_checkAuth <$> times))
         now).2
      = true).
Proof.
  intros Hs. destruct (checkAuth_run bcrypt_compare times a start last Hs) as (H1 & H2 & H3).
  split.
  - intros Hlate. destruct H2 as [H2|[last' H2]].
    + by rewrite (checkAuth_no_session _ _ H2).
    + rewrite (checkAuth_session _ _ _ H2), H1. cbn [auth.startTime].
      destruct (Z.ltb_spec (auth.sessionTimeout a) (now - start)); [done|lia].
  - intros Hall Hnow. destruct (H3 Hall) as [last' H3'].
    rewrite (checkAuth_session _ _ _ H3'), H1. cbn [auth.startTime].
    destruct (Z.ltb_spec (auth.sessionTimeout a) (now - start)); [lia|done].
Qed.

(** ** What a login takes *)

Lemma login_Returns bcrypt_compare a now pin a' m :
  auth.login bcrypt_compare a now pin = (a', Returns m) ->
  auth.isLockedOut a now auth.getClientInfo = false
  /\ (exists text, auth.rows a !! "authPinHash" = Some text /\ text <> ""
                   /\ bcrypt_compare pin text = true)
  /\ m = "Login successful"
  /\ a' = auth.createSession (auth.clearFailedAttempts a auth.getClientInfo) now.
Proof.
  unfold auth.login. rewrite getSetting_not_false.
  destruct (auth.isLockedOut a now _); [discriminate|].
  unfold auth.getSetting. destruct (auth.rows a !! "authPinHash") as [text|]; [|discriminate].
  cbn. destruct (String.eqb_spec text ""); [discriminate|]. cbn.
  destruct (bcrypt_compare pin text) eqn:Hc; [|discriminate]. cbn.
  intros [= <- <-]. eauto 10.
Qed.

Lemma login_keeps_no_session bcrypt_compare a now pin :
  (forall text, bcrypt_compare pin text = false) ->
  auth.currentSession a = None ->
  auth.currentSession (auth.login bcrypt_compare a now pin).1 = None.
Proof.
  intros Hcmp Hs. unfold auth.login. rewrite getSetting_not_false.
  destruct (auth.isLockedOut a now _); [done|].
  destruct (negb (auth.truthy _)); [done|]. by rewrite Hcmp.
Qed.

(** X19.  Without a PIN that bcrypt accepts nobody gets in: starting
    without a session, after any calls on the service and any writes of
    the settings handler, [disableAuthentication] and a stored
    [authEnabled = false] included, [checkAuth] answers false. *)
Theorem no_session_without_pin (bcrypt_compare : string -> string -> bool)
    (a : auth.AuthService) (cs : list auth.call) (now : Z) :
  auth.currentSession a = None ->
  Forall (fun c => match c with
                   | auth.call_login _ pin => forall text, bcrypt_compare pin text = false
                   | _ => True
                   end) cs ->
  auth.checkAuth (auth.after_all bcrypt_compare a cs) now
  = (auth.after_all bcrypt_compare a cs, false).
Proof.
  intros Hs Hcs. apply checkAuth_no_session. revert a Hs. unfold auth.after_all.
  induction Hcs as [|c cs Hc _ IH]; intros a Hs; [done|].
  cbn [foldl]. apply IH.
  destruct c; cbn [auth.after]; try done.
  - unfold auth.setup. by repeat case_match.
  - by apply login_keeps_no_session.
  - by rewrite checkAuth_no_session.
  - unfold auth.changePin. by repeat case_match.
  - unfold auth.enableAuthentication. by repeat case_match.
Qed.

(** ** Setting the PIN up *)

Lemma setup_Returns a pin pinHash a' m :
  auth.setup a pin pinHash = (a', Returns m) ->
  auth.bad_pin_length pin = false
  /\ a' = auth.setSetting (auth.setSetting a "authPinHash" (auth.js_string pinHash))
            "authEnabled" (auth.js_bool true).
Proof.
  unfold auth.setup. destruct (auth.bad_pin_length pin); [discriminate|].
  destruct (auth.truthy _); [discriminate|]. by intros [= <- <-].
Qed.

Lemma pin_hash_stays bcrypt_compare a c :
  (exists text, auth.rows a !! "authPinHash" = Some text /\ text <> "") ->
  exists text, auth.rows (auth.after bcrypt_compare a c) !! "authPinHash" = Some text
               /\ text <> "".
Proof.
  intros (text & Hrow & Htext).
  destruct c; cbn [auth.after].
  - unfold auth.setup. destruct (auth.bad_pin_length pin); [by eauto|].
    unfold auth.getSetting. rewrite Hrow. cbn.
    destruct (String.eqb_spec text ""); [done|]. cbn. eauto.
  - unfold auth.login. repeat case_match; cbn; eauto.
  - cbn. eauto.
  - unfold auth.checkAuth. repeat case_match; cbn; eauto.
  - unfold auth.changePin. repeat case_match; cbn [fst]; eauto.
    cbn. rewrite lookup_insert_eq. eexists. split; [done|]. done.
  - unfold auth.enableAuthentication. repeat case_match; cbn [fst]; eauto.
    cbn. rewrite lookup_insert_ne by done. eauto.
  - cbn. rewrite lookup_insert_ne by done. eauto.
  - cbn. eauto.
  - cbn. destruct (decide (key = "authPinHash")) as [->|Hne].
    + rewrite lookup_insert_eq. eexists. split; [done|]. apply JSON_stringify_nonempty.
    + rewrite lookup_insert_ne by done. eauto.
Qed.

Lemma pin_hash_stays_all bcrypt_compare cs :
  forall a,
    (exists text, auth.rows a !! "authPinHash" = Some text /\ text <> "") ->
    exists text, auth.rows (auth.after_all bcrypt_compare a cs) !! "authPinHash" = Some text
                 /\ text <> "".
Proof.
  unfold auth.after_all. induction cs as [|c cs IH]; intros a Ha; [done|].
  cbn [foldl]. by apply IH, pin_hash_stays.
Qed.

(** X20.  The PIN is set up once: after a [setup] that succeeded, whatever
    calls follow, every [setup] with a PIN of 4 to 8 characters fails with
    'Authentication is already set up' and changes nothing. *)
Theorem setup_only_once (bcrypt_compare : string -> string -> bool)
    (a a1 : auth.AuthService) (pin pinHash m : string) (cs : list auth.call)
    (pin' pinHash' : string) :
  auth.setup a pin pinHash = (a1, Returns m) ->
  auth.bad_pin_length pin' = false ->
  auth.setup (auth.after_all bcrypt_compare a1 cs) pin' pinHash'
  = (auth.after_all bcrypt_compare a1 cs, Throws (Msg "Authentication is already set up")).
Proof.
  intros [_ ->]%setup_Returns Hlen.
  assert (exists text,
            auth.rows (auth.after_all bcrypt_compare
                         (auth.setSetting
                            (auth.setSetting a "authPinHash" (auth.js_string pinHash))
                            "authEnabled" (auth.js_bool true)) cs)
              !! "authPinHash" = Some text /\ text <> "") as (text & Hrow & Htext).
  { apply pin_hash_stays_all. cbn. rewrite lookup_insert_ne by done.
    rewrite lookup_insert_eq. eexists. split; [done|].
    apply (JSON_stringify_nonempty (auth.js_string pinHash)). }
  unfold auth.setup. rewrite Hlen. unfold auth.getSetting. rewrite Hrow. cbn.
  by destruct (String.eqb_spec text "").
Qed.

(** X21.  The PIN of a login is compared with the text the settings table
    holds, which is the JSON text of the hash [setup] stored (the hash
    between double quotes) and never the hash itself: right after a
    [setup], a login that is not locked out succeeds exactly when bcrypt
    accepts the PIN against that text. *)
Theorem setup_then_login (bcrypt_compare : string -> string -> bool)
    (a a1 : auth.AuthService) (pin pinHash m : string) (now : Z) (pin' : string) :
  auth.setup a pin pinHash = (a1, Returns m) ->
  auth.isLockedOut a now auth.getClientInfo = false ->
  ((exists a2, auth.login bcrypt_compare a1 now pin' = (a2, Returns "Login successful"))
   <-> bcrypt_compare pin' (auth.quote +:+ auth.json_escape pinHash +:+ auth.quote) = true)
  /\ auth.quote +:+ auth.json_escape pinHash +:+ auth.quote <> pinHash
  /\ (String.length pinHash + 2
      <= String.length (auth.quote +:+ auth.json_escape pinHash +:+ auth.quote))%nat.
Proof.
  intros [_ ->]%setup_Returns Hlock.
  assert (String.length pinHash + 2
          <= String.length (auth.quote +:+ auth.json_escape pinHash +:+ auth.quote))%nat
    as Hlen.
  { rewrite !string_length_app. pose proof (length_json_escape pinHash). cbn. lia. }
  split; [|split; [|done]].
  - unfold auth.login. rewrite getSetting_not_false.
    replace (auth.isLockedOut _ now _) with false by done.
    unfold auth.getSetting. cbn [auth.setSetting auth.rows].
    rewrite lookup_insert_ne by done. rewrite lookup_insert_eq.
    cbn [auth.JSON_stringify auth.truthy auth.text_of].
    destruct (String.eqb_spec (auth.quote +:+ auth.json_escape pinHash +:+ auth.quote) "")
      as [He|_]; [done|]. cbn [negb].
    destruct (bcrypt_compare pin' _); cbn [negb]; split; try done.
    + eauto.
    + by intros [a2 [= ]].
  - intros Heq. rewrite Heq in Hlen. lia.
Qed.

(** ** PIN strength *)

Lemma is_digit_inv c :
  auth.is_digit c = true ->
  exists v, (v <= 9)%nat /\ c = digit_char v /\ auth.parseInt c = Some (Z.of_nat v).
Proof.
  intros Hd. unfold auth.parseInt. rewrite Hd. unfold auth.is_digit in Hd.
  apply andb_prop in Hd as [H1%Nat.leb_le H2%Nat.leb_le].
  exists (nat_of_ascii c - 48)%nat. split; [lia|]. split.
  - unfold digit_char. replace (48 + (nat_of_ascii c - 48))%nat with (nat_of_ascii c) by lia.
    by rewrite ascii_nat_embedding.
  - f_equal. lia.
Qed.

Lemma digit_char_spec v :
  (v <= 9)%nat ->
  auth.is_digit (digit_char v) = true /\ auth.parseInt (digit_char v) = Some (Z.of_nat v).
Proof.
  intros Hv. do 10 (destruct v as [|v]; [by vm_compute|]). lia.
Qed.

Lemma length_count_up k n : String.length (count_up k n) = n.
Proof. revert k. induction n as [|n IH]; intros k; cbn; [done|]. by rewrite IH. Qed.

Lemma isSequential_from_spec rest :
  forall previous v,
    (v <= 9)%nat -> previous = digit_char v ->
    all_chars auth.is_digit rest = true ->
    auth.isSequential_from previous rest = true
    <-> (v + String.length rest <= 9)%nat
        /\ rest = count_up (S v) (String.length rest).
Proof.
  induction rest as [|c rest IH]; intros previous v Hv -> Hall.
  { cbn. split; [|done]. intros _. split; [lia|done]. }
  cbn [all_chars] in Hall. apply andb_prop in Hall as [Hc Hrest].
  destruct (is_digit_inv c Hc) as (w & Hw & -> & Hpw).
  destruct (digit_char_spec v Hv) as [_ Hpv].
  cbn [auth.isSequential_from String.length count_up]. rewrite Hpw, Hpv.
  cbn [auth.not_successor].
  destruct (Z.eqb_spec (Z.of_nat w) (Z.of_nat v + 1)) as [Heq|Hne]; cbn [negb].
  - assert (w = S v) as -> by lia.
    rewrite (IH (digit_char (S v)) (S v) Hw eq_refl Hrest). split.
    + intros [Hlen Hr]. split; [lia|]. by rewrite <- Hr.
    + intros [Hlen [= Hr]]. split; [lia|done].
  - split; [done|]. intros [Hlen [= Hr]]. destruct Hne.
    assert (auth.parseInt (digit_char w) = auth.parseInt (digit_char (S v))) as Hp
      by by rewrite Hr.
    destruct (digit_char_spec (S v) ltac:(lia)) as [_ Hps].
    rewrite Hpw, Hps in Hp. injection Hp. lia.
Qed.

Lemma isSequential_spec password :
  password <> "" -> all_chars auth.is_digit password = true ->
  auth.isSequential password = true
  <-> exists k, (k + String.length password <= 10)%nat
                /\ password = count_up k (String.length password).
Proof.
  destruct password as [|c rest]; [done|]. intros _ Hall.
  cbn [all_chars] in Hall. apply andb_prop in Hall as [Hc Hrest].
  destruct (is_digit_inv c Hc) as (v & Hv & -> & _).
  cbn [auth.isSequential String.length count_up].
  rewrite (isSequential_from_spec rest (digit_char v) v Hv eq_refl Hrest). split.
  - intros [Hlen Hr]. exists v. split; [lia|]. by rewrite <- Hr.
  - intros (k & Hlen & [= Hk Hr]).
    assert (k = v) as ->.
    { destruct (digit_char_spec k ltac:(lia)) as [_ Hpk].
      destruct (digit_char_spec v Hv) as [_ Hpv].
      rewrite <- Hk, Hpv in Hpk. injection Hpk. lia. }
    split; [lia|done].
Qed.

Lemma count_up_substring k n :
  (k + n <= 10)%nat -> count_up k n = String.substring k n "0123456789".
Proof.
  intros Hkn.
  assert (forallb (fun k => forallb (fun n =>
            (10 <? k + n)%nat
            || String.eqb (count_up k n) (String.substring k n "0123456789"))
            (seq 0 11)) (seq 0 11) = true) as Hall by by vm_compute.
  rewrite forallb_forall in Hall. specialize (Hall k).
  rewrite forallb_forall in Hall.
  assert (In k (seq 0 11)) as Hk by (apply in_seq; lia).
  assert (In n (seq 0 11)) as Hn by (apply in_seq; lia).
  specialize (Hall Hk n Hn). apply orb_prop in Hall as [Hlt|Heq].
  - apply Nat.ltb_lt in Hlt. lia.
  - by apply String.eqb_eq.
Qed.

Lemma substring_beyond k n s :
  (0 < n)%nat -> (String.length s < k + n)%nat ->
  (String.length (String.substring k n s) < n)%nat.
Proof.
  revert k n. induction s as [|c s IH]; intros k n Hn.
  - destruct k, n; cbn; lia.
  - destruct k as [|k]; cbn [String.length].
    + destruct n as [|n]; [lia|]. cbn. intros H.
      destruct n as [|n]; [destruct s; cbn; lia|].
      specialize (IH 0%nat (S n) ltac:(lia)). lia.
    + intros H. cbn. apply IH; lia.
Qed.

(** X22.  [validatePasswordStrength] accepts exactly the PINs of 4 to 8
    decimal digits that are not on the list of common PINs and are not a
    piece of [0123456789], that is, do not count up by one from digit to
    digit. *)
Theorem validatePasswordStrength_spec (password : string) :
  auth.validatePasswordStrength password = (true, "PIN is valid")
  <-> (4 <= String.length password <= 8)%nat
      /\ all_chars auth.is_digit password = true
      /\ (password ∉ auth.weakPins)
      /\ (forall k, String.substring k (String.length password) "0123456789" <> password).
Proof.
  unfold auth.validatePasswordStrength.
  destruct (Nat.ltb_spec (String.length password) 4) as [H4|H4].
  { split; [done|]. intros [? _]. lia. }
  destruct (Nat.ltb_spec 8 (String.length password)) as [H8|H8].
  { split; [done|]. intros [? _]. lia. }
  assert (password <> "") as Hne by (intros ->; cbn in H4; lia).
  destruct (regex_test auth.digits password) eqn:Hd; cbn [negb].
  2:{ split; [done|]. intros (_ & Hall & _).
      assert (regex_test auth.digits password = true) as Hd'; [|congruence].
      apply regex_test_spec, matches_plus_class. done. }
  apply regex_test_spec, matches_plus_class in Hd as [_ Hall].
  destruct (bool_decide_reflect (password ∈ auth.weakPins)) as [Hw|Hw].
  { split; [done|]. intros (_ & _ & Hnw & _). done. }
  destruct (Nat.ltb_spec 2 (String.length password)) as [_|?]; [|lia].
  rewrite andb_true_r.
  destruct (auth.isSequential password) eqn:Hs.
  - split; [done|]. intros (_ & _ & _ & Hrun).
    apply (isSequential_spec _ Hne Hall) in Hs as (k & Hk & Hp).
    destruct (Hrun k). rewrite <- count_up_substring by done. done.
  - split; [|done]. intros _. repeat split; try done.
    intros k Hk.
    assert (auth.isSequential password = true) as Hs'; [|congruence].
    apply (isSequential_spec _ Hne Hall).
    destruct (decide (k + String.length password <= 10)%nat) as [Hle|Hgt].
    + exists k. split; [done|]. rewrite count_up_substring by done. done.
    + pose proof (substring_beyond k (String.length password) "0123456789"
                    ltac:(lia)) as Hb.
      cbn [String.length] in Hb. rewrite Hk in Hb. lia.
Qed.

(** ** Examples at the front door *)

(** One second after the fifth wrong PIN the right PIN is refused. *)
Lemma failed_logins_lock_out_witness :
  auth.login front_door.accepts front_door.after_tries (fixture.t0 + 5000) "2468"
  = (front_door.after_tries,
     Throws (Msg "Account locked. Try again in 15 minutes")).
Proof.
  apply (failed_logins_lock_out front_door.accepts front_door.locked
           front_door.stored_text front_door.tries (fixture.t0 + 4000)
           (fixture.t0 + 5000) "2468").
  - vm_compute. reflexivity.
  - apply JSON_stringify_nonempty.
  - vm_compute. reflexivity.
  - repeat constructor.
  - vm_compute. reflexivity.
  - vm_compute. reflexivity.
  - vm_compute. reflexivity.
Defined.

(** Logged in at [t0] and active after 10 and 20 minutes: still in after
    30 minutes, out after 31. *)
Lemma session_expires_absolutely_witness :
  (auth.checkAuth
     (auth.after_all front_door.accepts front_door.entered
        (auth.call_checkAuth <$> [fixture.t0 + 10 * front_door.minute;
                                  fixture.t0 + 20 * front_door.minute]))
     (fixture.t0 + 31 * front_door.minute)).2 = false
  /\ (auth.checkAuth
        (auth.after_all front_door.accepts front_door.entered
           (auth.call_checkAuth <$> [fixture.t0 + 10 * front_door.minute;
                                     fixture.t0 + 20 * front_door.minute]))
        (fixture.t0 + 30 * front_door.minute)).2 = true.
Proof.
  split.
  - apply (session_expires_absolutely front_door.accepts front_door.entered
             fixture.t0 fixture.t0); [vm_compute; reflexivity|].
    vm_compute. reflexivity.
  - apply (session_expires_absolutely front_door.accepts front_door.entered
             fixture.t0 fixture.t0); [vm_compute; reflexivity| |].
    + repeat constructor; vm_compute; discriminate.
    + vm_compute. discriminate.
Defined.

(** Disabling authentication, writing [authEnabled = false] through the
    settings handler and a login with a wrong PIN let nobody in. *)
Lemma no_session_without_pin_witness :
  auth.checkAuth
    (auth.after_all front_door.accepts front_door.locked
       [auth.call_disableAuthentication;
        auth.call_setSetting "authEnabled" (auth.js_bool false);
        auth.call_login fixture.t0 "0000"])
    (fixture.t0 + 1000)
  = (auth.after_all front_door.accepts front_door.locked
       [auth.call_disableAuthentication;
        auth.call_setSetting "authEnabled" (auth.js_bool false);
        auth.call_login fixture.t0 "0000"],
     false).
Proof.
  apply (no_session_without_pin front_door.accepts front_door.locked).
  - vm_compute. reflexivity.
  - repeat constructor.
Defined.

(** After a change of PIN and a write of [null] under ['authPinHash'], a
    second [setup] is still refused. *)
Lemma setup_only_once_witness :
  auth.setup
    (auth.after_all front_door.accepts front_door.locked
       [auth.call_changePin "2468" "1357" "$2a$12$hash.of.1357";
        auth.call_setSetting "authPinHash" auth.js_null])
    "9753" "$2a$12$hash.of.9753"
  = (auth.after_all front_door.accepts front_door.locked
       [auth.call_changePin "2468" "1357" "$2a$12$hash.of.1357";
        auth.call_setSetting "authPinHash" auth.js_null],
     Throws (Msg "Authentication is already set up")).
Proof.
  apply (setup_only_once front_door.accepts (auth.new ∅) front_door.locked
           "2468" "$2a$12$hash.of.2468" "Authentication setup completed").
  - vm_compute. reflexivity.
  - vm_compute. reflexivity.
Defined.

Lemma setup_then_login_witness :
  ((exists a2, auth.login front_door.accepts front_door.locked fixture.t0 "2468"
               = (a2, Returns "Login successful"))
   <-> front_door.accepts "2468"
         (auth.quote +:+ auth.json_escape "$2a$12$hash.of.2468" +:+ auth.quote) = true)
  /\ auth.quote +:+ auth.json_escape "$2a$12$hash.of.2468" +:+ auth.quote
     <> "$2a$12$hash.of.2468"
  /\ (String.length "$2a$12$hash.of.2468" + 2
      <= String.length
           (auth.quote +:+ auth.json_escape "$2a$12$hash.of.2468" +:+ auth.quote))%nat.
Proof.
  apply (setup_then_login front_door.accepts (auth.new ∅) front_door.locked
           "2468" "$2a$12$hash.of.2468" "Authentication setup completed" fixture.t0 "2468").
  - vm_compute. reflexivity.
  - vm_compute. reflexivity.
Defined.

(** * CSV import *)

Lemma forEach_prefix_ind t now (I : list import.record -> import.result -> Prop) :
  (forall pre acc r,
     I pre acc -> I (pre ++ [r])%list (import.validate_record t now acc (length pre) r)) ->
  forall data pre acc,
    I pre acc -> I (pre ++ data)%list (import.forEach t now (length pre) data acc).
Proof.
  intros Hstep. induction data as [|r data IH]; intros pre acc Hacc; cbn [import.forEach].
  - by rewrite app_nil_r.
  - replace (pre ++ r :: data)%list with ((pre ++ [r]) ++ data)%list
      by by rewrite <- app_assoc.
    replace (S (length pre)) with (length (pre ++ [r])%list)
      by (rewrite List.length_app; cbn; lia).
    apply IH. by apply Hstep.
Qed.

Lemma validate_record_cases t now acc index r :
  import.validate_record t now acc index r = import.push_valid acc r
  \/ (exists message,
        import.validate_record t now acc index r = import.push_error acc index message)
  \/ (exists message,
        import.validate_record t now acc index r
        = import.push_duplicate acc index message).
Proof.
  unfold import.validate_record. destruct t; repeat case_match; eauto.
Qed.

(** X23.  [validateImportData] sorts every record of the import into
    exactly one of its three lists, and the valid records are records of
    the import, in the order of the file. *)
Theorem import_partition (now : Z) (data : list import.record) (t : import.type) :
  (length (import.validRecords (import.validateImportData now data t))
   + length (import.validationErrors (import.validateImportData now data t))
   + length (import.duplicateRecords (import.validateImportData now data t))
   = length data)%nat
  /\ import.validRecords (import.validateImportData now data t) `sublist_of` data.
Proof.
  unfold import.validateImportData.
  set (I := fun (pre : list import.record) (acc : import.result) =>
              (length (import.validRecords acc) + length (import.validationErrors acc)
               + length (import.duplicateRecords acc) = length pre)%nat
              /\ import.validRecords acc `sublist_of` pre).
  change (I data (import.forEach t now 0 data (import.mk_result [] [] []))).
  apply (forEach_prefix_ind t now I) with (pre := []); unfold I; clear I.
  - intros pre acc r [Hlen Hsub].
    destruct (validate_record_cases t now acc (length pre) r) as [->|[[m ->]|[m ->]]];
      cbn; rewrite ?List.length_app; cbn; (split; [lia|]).
    + by apply sublist_app.
    + by apply sublist_inserts_r.
    + by apply sublist_inserts_r.
  - done.
Qed.

Lemma find_is_Some_false {A} (f : A -> bool) (l : list A) :
  bool_decide (is_Some (List.find f l)) = false -> forall x, x ∈ l -> f x = false.
Proof.
  intros H%bool_decide_eq_false x Hx. apply find_none with (l := l).
  - destruct (List.find f l); [|done]. destruct H. by eexists.
  - by apply list_elem_of_In.
Qed.

(** X24.  The valid records of a member import are member rows with a name
    of at least two and a member id of at least three characters after
    trimming, and an e-mail address that is blank or well formed; no two
    of them share a member id or a non-empty e-mail address. *)
Theorem import_members_valid (now : Z) (data : list import.record) :
  (forall r, r ∈ import.validRecords (import.validateImportData now data import.members) ->
     exists m n,
       r = import.of_member m /\ import.name m = Some n
       /\ (2 <= String.length (trim n))%nat
       /\ (3 <= String.length (trim (import.memberId m)))%nat
       /\ (trim (import.email m) = "" \/ isValidEmail (import.email m) = true))
  /\ NoDup (import.prop_memberId
              <$> import.validRecords (import.validateImportData now data import.members))
  /\ NoDup (filter (fun e => import.nonempty e = true)
              (import.prop_email
                 <$> import.validRecords
                       (import.validateImportData now data import.members))).
Proof.
  unfold import.validateImportData.
  set (I := fun (_ : list import.record) (acc : import.result) =>
              (forall r, r ∈ import.validRecords acc ->
                 exists m n,
                   r = import.of_member m /\ import.name m = Some n
                   /\ (2 <= String.length (trim n))%nat
                   /\ (3 <= String.length (trim (import.memberId m)))%nat
                   /\ (trim (import.email m) = "" \/ isValidEmail (import.email m) = true))
              /\ NoDup (import.prop_memberId <$> import.validRecords acc)
              /\ NoDup (filter (fun e => import.nonempty e = true)
                          (import.prop_email <$> import.validRecords acc))).
  change (I data (import.forEach import.members now 0 data (import.mk_result [] [] []))).
  apply (forEach_prefix_ind import.members now I) with (pre := []); unfold I; clear I.
  - intros pre acc r (Hall & Hid & Hemail).
    cbn [import.validate_record].
    destruct (js_or_null (import.prop_name r)) as [n|] eqn:Hn; [|done].
    destruct (Nat.ltb_spec (String.length (trim n)) 2) as [|Hn2]; [done|].
    destruct (js_or_null (import.prop_memberId r)) as [i|] eqn:Hi; [|done].
    destruct (Nat.ltb_spec (String.length (trim i)) 3) as [|Hi3]; [done|].
    destruct (import.not_blank (import.prop_email r)
              && negb (regex_test emailRegex (default "" (import.prop_email r))))
      eqn:He; [done|].
    destruct (bool_decide (is_Some (List.find _ _))) eqn:Hd; [done|].
    pose proof (find_is_Some_false _ _ Hd) as Hnew. clear Hd.
    destruct r as [b|m]; [done|]. cbn in Hn, Hi, He.
    assert (import.name m = Some n) as Hname.
    { destruct (import.name m) as [x|]; [|done]. cbn in Hn.
      destruct (bool_decide (x = "")); congruence. }
    assert (import.memberId m = i) as Hmid.
    { destruct (bool_decide (import.memberId m = "")); congruence. }
    cbn [import.push_valid import.validRecords]. repeat apply conj.
    + intros r' [Hr'| ->%list_elem_of_singleton]%elem_of_app; [by apply Hall|].
      exists m, n. repeat split; try done; [by rewrite Hmid|].
      apply andb_false_iff in He as [He|He].
      * left. unfold import.not_blank in He. cbn in He.
        destruct (bool_decide_reflect (import.email m = "")) as [->|_]; [done|].
        apply negb_false_iff in He. by apply String.eqb_eq.
      * right. apply negb_false_iff in He. done.
    + rewrite fmap_app. apply NoDup_app. split; [done|]. split; [|apply NoDup_singleton].
      intros x (v & -> & Hv)%list_elem_of_fmap Hin. cbn in Hin.
      apply list_elem_of_singleton in Hin.
      specialize (Hnew v Hv). unfold import.same_member in Hnew.
      apply orb_false_iff in Hnew as [Hnew%bool_decide_eq_false _]. done.
    + rewrite fmap_app, filter_app. apply NoDup_app. split; [done|]. split.
      * intros x [Hx (v & -> & Hv)%list_elem_of_fmap]%list_elem_of_filter
               [Hx' Heq%list_elem_of_singleton]%list_elem_of_filter.
        specialize (Hnew v Hv). unfold import.same_member in Hnew.
        apply orb_false_iff in Hnew as [_ Hnew].
        rewrite Hx in Hnew. rewrite Heq in Hx. rewrite Hx in Hnew.
        cbn [andb] in Hnew. apply bool_decide_eq_false in Hnew. done.
      * cbn. destruct (decide (import.nonempty _ = true));
          [apply NoDup_singleton|apply NoDup_nil_2].
  - cbn. split; [by intros r Hr%elem_of_nil|]. split; apply NoDup_nil_2.
Qed.

(** X25.  The valid records of a book import are book rows with a title
    that is not blank, at least one author, 1 to 1000 copies and a
    publication year that is missing, zero, or between 1000 and the current
    year; no two of them share a non-blank ISBN. *)
Theorem import_books_valid (now : Z) (data : list import.record) :
  (forall r, r ∈ import.validRecords (import.validateImportData now data import.books) ->
     exists b x,
       r = import.of_book b /\ import.title b = Some x /\ trim x <> ""
       /\ import.authors b <> []
       /\ 1 <= import.totalCopies b <= 1000
       /\ (forall y, import.publicationYear b = Some y ->
                     y = 0 \/ 1000 <= y <= year_of now))
  /\ NoDup (filter (fun i => import.not_blank i = true)
              (import.prop_isbn
                 <$> import.validRecords (import.validateImportData now data import.books))).
Proof.
  unfold import.validateImportData.
  set (I := fun (_ : list import.record) (acc : import.result) =>
              (forall r, r ∈ import.validRecords acc ->
                 exists b x,
                   r = import.of_book b /\ import.title b = Some x /\ trim x <> ""
                   /\ import.authors b <> []
                   /\ 1 <= import.totalCopies b <= 1000
                   /\ (forall y, import.publicationYear b = Some y ->
                                 y = 0 \/ 1000 <= y <= year_of now))
              /\ NoDup (filter (fun i => import.not_blank i = true)
                          (import.prop_isbn <$> import.validRecords acc))).
  change (I data (import.forEach import.books now 0 data (import.mk_result [] [] []))).
  apply (forEach_prefix_ind import.books now I) with (pre := []); unfold I; clear I.
  - intros pre acc r (Hall & Hisbn).
    cbn [import.validate_record].
    destruct (js_or_null (import.prop_title r)) as [x|] eqn:Hx; [|done].
    destruct (Nat.eqb_spec (String.length (trim x)) 0) as [|Hx0]; [done|].
    destruct (import.prop_authors r) as [l|] eqn:Hl; [|done].
    destruct (Nat.eqb_spec (length l) 0) as [|Hl0]; [done|].
    destruct (import.not_blank (import.prop_isbn r)
              && bool_decide (is_Some (List.find _ _))) eqn:Hd; [done|].
    destruct (js_or_null_num (import.prop_publicationYear r)) as [y|] eqn:Hy.
    + destruct ((y <? 1000) || (year_of now <? y)) eqn:Hrange; [done|].
      apply orb_false_iff in Hrange as [Hy1%Z.ltb_ge Hy2%Z.ltb_ge].
      destruct (import.prop_totalCopies r) as [n|] eqn:Hn.
      * destruct ((n <? 1) || (1000 <? n)) eqn:Hcopies; [done|].
        apply orb_false_iff in Hcopies as [Hn1%Z.ltb_ge Hn2%Z.ltb_ge].
        destruct r as [b|m]; [|done]. cbn in Hx, Hl, Hy, Hn, Hd.
        injection Hl as <-. injection Hn as <-.
        cbn [import.push_valid import.validRecords]. split.
        -- intros r' [Hr'| ->%list_elem_of_singleton]%elem_of_app; [by apply Hall|].
           destruct (import.title b) as [x'|] eqn:Ht; [|done]. cbn in Hx.
           destruct (bool_decide (x' = "")); [done|]. injection Hx as ->.
           exists b, x. repeat split; try done.
           ++ intros Htrim. by rewrite Htrim in Hx0.
           ++ by destruct (import.authors b).
           ++ intros y' Hy'. rewrite Hy' in Hy. cbn in Hy.
              destruct (Z.eqb_spec y' 0); [by left|]. injection Hy as ->. right. lia.
        -- rewrite fmap_app, filter_app. apply NoDup_app. split; [done|]. split.
           ++ intros i [Hi (v & -> & Hv)%list_elem_of_fmap]%list_elem_of_filter
                     [Hi' Heq%list_elem_of_singleton]%list_elem_of_filter.
              cbn in Heq. rewrite Heq in Hi. cbn [import.prop_isbn] in Hd.
              rewrite Hi in Hd. cbn in Hd.
              pose proof (find_is_Some_false _ _ Hd v Hv) as Hnew. cbn in Hnew.
              apply bool_decide_eq_false in Hnew. done.
           ++ cbn. destruct (decide (import.not_blank _ = true));
                [apply NoDup_singleton|apply NoDup_nil_2].
      * by destruct r.
    + destruct (import.prop_totalCopies r) as [n|] eqn:Hn.
      * destruct ((n <? 1) || (1000 <? n)) eqn:Hcopies; [done|].
        apply orb_false_iff in Hcopies as [Hn1%Z.ltb_ge Hn2%Z.ltb_ge].
        destruct r as [b|m]; [|done]. cbn in Hx, Hl, Hy, Hn, Hd.
        injection Hl as <-. injection Hn as <-.
        cbn [import.push_valid import.validRecords]. split.
        -- intros r' [Hr'| ->%list_elem_of_singleton]%elem_of_app; [by apply Hall|].
           destruct (import.title b) as [x'|] eqn:Ht; [|done]. cbn in Hx.
           destruct (bool_decide (x' = "")); [done|]. injection Hx as ->.
           exists b, x. repeat split; try done.
           ++ intros Htrim. by rewrite Htrim in Hx0.
           ++ by destruct (import.authors b).
           ++ intros y' Hy'. rewrite Hy' in Hy. cbn in Hy.
              destruct (Z.eqb_spec y' 0); [by left|done].
        -- rewrite fmap_app, filter_app. apply NoDup_app. split; [done|]. split.
           ++ intros i [Hi (v & -> & Hv)%list_elem_of_fmap]%list_elem_of_filter
                     [Hi' Heq%list_elem_of_singleton]%list_elem_of_filter.
              cbn in Heq. rewrite Heq in Hi. cbn [import.prop_isbn] in Hd.
              rewrite Hi in Hd. cbn in Hd.
              pose proof (find_is_Some_false _ _ Hd v Hv) as Hnew. cbn in Hnew.
              apply bool_decide_eq_false in Hnew. done.
           ++ cbn. destruct (decide (import.not_blank _ = true));
                [apply NoDup_singleton|apply NoDup_nil_2].
      * by destruct r.
  - cbn. split; [by intros r Hr%elem_of_nil|]. apply NoDup_nil_2.
Qed.

(** Of the five rows of the member file two are valid, one is in error
    and two are duplicates. *)
Lemma import_partition_witness :
  import.validRecords (import.validateImportData fixture.t0 import_file.rows import.members)
  = [import_file.row "Ann" "F001" "ann@example.org"; import_file.row "Di" "P002" ""]
  /\ import.validationErrors
       (import.validateImportData fixture.t0 import_file.rows import.members)
     = ["Row 2: Name must be at least 2 characters long"]
  /\ import.duplicateRecords
       (import.validateImportData fixture.t0 import_file.rows import.members)
     = ["Row 3: Duplicate member ID or email"; "Row 4: Duplicate member ID or email"]
  /\ import.validRecords (import.validateImportData fixture.t0 import_file.rows import.members)
     `sublist_of` import_file.rows.
Proof.
  split; [vm_compute; reflexivity|]. split; [vm_compute; reflexivity|].
  split; [vm_compute; reflexivity|].
  apply (import_partition fixture.t0 import_file.rows import.members).
Defined.

(** * Due dates *)

(** ** Due dates given by the caller *)

(** X27.  For a due date given as a calendar date [yyyy-MM-dd], the form
    the handler itself computes: [transactions:lend] with a due date on
    the current day or earlier, for an existing book and member, fails on
    the constraint [chk_due_date_after_lend] and stores nothing; when a
    lend with such a due date succeeds, that date is after the current day
    and is the due date of the new loan. *)
Theorem lend_due_date (db : Database) (now bookId memberId d : Z) (b : Book) (m : Member) :
  bookId <> 0 -> memberId <> 0 ->
  books db !! bookId = Some b -> members db !! memberId = Some m ->
  (d <= day_of now ->
   transactions_lend db now bookId memberId (Some d)
   = (db, Failure (CheckFailed "chk_due_date_after_lend")))
  /\ (forall db' r,
        transactions_lend db now bookId memberId (Some d) = (db', Success r) ->
        day_of now < d
        /\ exists tx, r = Some tx /\ book_id (to_row tx) = bookId
                      /\ t_member_id (to_row tx) = memberId
                      /\ transaction_date (to_row tx) = now
                      /\ due_date (to_row tx) = Some d).
Proof.
  intros Hb0 Hm0 Hb Hm. split.
  - intros Hd. unfold transactions_lend.
    apply Z.eqb_neq in Hb0, Hm0. rewrite Hb0, Hm0. cbn [orb].
    unfold getBookById, getMemberById. rewrite Hb, Hm, book_object_availableCopies.
    cbn [js_le]. unfold createTransaction.
    set (data := transactionData.mk _ _ _ _).
    assert (check_transaction (lend_row now data) = Some "chk_due_date_after_lend") as ->;
      [|done].
    unfold check_transaction. cbn.
    by rewrite (proj2 (Z.ltb_ge _ _)) by done.
  - intros db' r Hlend.
    apply transactions_lend_Success in Hlend as (member & due & notes & _ & -> & Hct).
    pose proof (createTransaction_checked _ _ _ _ _ Hct) as Hchk.
    apply check_transaction_None in Hchk as (_ & Hdue & _). cbn in Hdue.
    specialize (Hdue d eq_refl). split; [done|].
    apply createTransaction_Returns in Hct
      as (b0 & Hb0' & [m0 Hm0'] & _ & Hbks & Htxs & Hms & _ & ->).
    cbn [transactionData.bookId transactionData.memberId] in *.
    unfold getTransactionById. rewrite Htxs, lookup_insert_eq.
    cbn [lend_row book_id t_member_id transactionData.bookId transactionData.memberId].
    rewrite Hbks, lookup_insert_eq, Hms, Hm0'. eauto 10.
Qed.

(** Bob asks for the second copy at [t0], due the same day: refused. *)
Lemma lend_due_date_witness :
  transactions_lend (fixture.lent_once 2) fixture.t0 1 2 (Some fixture.day0)
  = (fixture.lent_once 2, Failure (CheckFailed "chk_due_date_after_lend")).
Proof.
  apply (lend_due_date (fixture.lent_once 2) fixture.t0 1 2 fixture.day0
           (mkBook "The Great Gatsby" ["F. Scott Fitzgerald"] (Some "9780743273565")
              (Some "Scribner") (Some 1925) ["Fiction"] "en" 2 1 (Some "A1-F2") [] None None
              available fixture.t0 fixture.t0)
           fixture.bob).
  - discriminate.
  - discriminate.
  - vm_compute. reflexivity.
  - vm_compute. reflexivity.
  - vm_compute. discriminate.
Defined.
